(** * The DMA-API to IOMMU-API glue layer (drivers/iommu/dma-iommu.c)

    A shallow embedding of the glue layer: domain creation, device attach,
    contiguous buffer allocation and release, scatter-gather mapping with
    its rewrite / finalise / invalidate passes, and the translation of DMA
    directions into IOMMU protection flags.

    Integer model (LP64, as on arm64): [unsigned long], [size_t],
    [dma_addr_t] and [u64] are 64-bit, [unsigned int] and [int] are 32-bit.
    Every C value is a [Z] and each wrap-around is written out with [u32]
    or [u64]. *)

From Stdlib Require Import ZArith Lia List Bool.
From stdpp Require Import base option list gmap gmultiset.

Local Open Scope Z_scope.

(** ** Machine integers *)

Definition u32 (x : Z) : Z := x mod 2 ^ 32.
Definition u64 (x : Z) : Z := x mod 2 ^ 64.

(** Conversion to [int]. *)
Definition s32 (x : Z) : Z :=
  if u32 x <? 2 ^ 31 then u32 x else u32 x - 2 ^ 32.

(** [~(dma_addr_t)0], the arm64 value of the error sentinel. *)
Definition DMA_ERROR_CODE : Z := 2 ^ 64 - 1.

(** Modelled from the spec: [__ffs] (asm-generic bitops, not part of the
    sources at hand), the index of the lowest set bit of a 64-bit word,
    found by scanning upwards from bit 0.  The spec words it as "the
    smallest page size the backend supports". *)
Fixpoint ffs_scan (n : nat) (i : Z) (x : Z) : Z :=
  match n with
  | O => i
  | S n' => if Z.testbit x i then i else ffs_scan n' (i + 1) x
  end.

Definition __ffs (x : Z) : Z := ffs_scan 64 0 x.
Arguments __ffs : simpl never.

(** Modelled from the spec: [__fls], the index of the highest set bit
    ("the largest contiguous power-of-two chunk"). *)
Definition __fls (x : Z) : Z := Z.log2 x.

(** Modelled from the spec: the kernel's [ALIGN(x, a)] on a 64-bit
    operand, [(x + (a - 1)) & ~(a - 1)] ("rounded up to the granule"). *)
Definition ALIGN (x a : Z) : Z :=
  Z.land (u64 (x + (a - 1))) (Z.lnot (a - 1)).

(** ** Constants of the kernel configuration

    None of these is defined in the glue layer; they are taken as
    parameters of the development. *)
Record kconst := {
  PAGE_SHIFT : Z;
  MAX_ORDER : Z;
  IOMMU_READ : Z;
  IOMMU_WRITE : Z;
  IOMMU_CACHE : Z;
  IOMMU_DOMAIN_UNMANAGED : Z;
  GFP_KERNEL : Z;
  __GFP_NORETRY : Z;
  __GFP_NOWARN : Z;
  __GFP_HIGHMEM : Z
}.

Definition PAGE_SIZE (K : kconst) : Z := Z.shiftl 1 (PAGE_SHIFT K).
Definition PAGE_ALIGN (K : kconst) (size : Z) : Z := ALIGN size (PAGE_SIZE K).

(** [enum dma_data_direction]; a C enum holds any [int], so a direction is
    an integer and the four enumerators are names for 0..3. *)
Definition DMA_BIDIRECTIONAL : Z := 0.
Definition DMA_TO_DEVICE : Z := 1.
Definition DMA_FROM_DEVICE : Z := 2.
Definition DMA_NONE : Z := 3.

(** ** dma_direction_to_prot *)

Definition dma_direction_to_prot (K : kconst) (dir : Z) (coherent : bool) : Z :=
  let prot := if coherent then IOMMU_CACHE K else 0 in
  if dir =? DMA_BIDIRECTIONAL then Z.lor (Z.lor prot (IOMMU_READ K)) (IOMMU_WRITE K)
  else if dir =? DMA_TO_DEVICE then Z.lor prot (IOMMU_READ K)
  else if dir =? DMA_FROM_DEVICE then Z.lor prot (IOMMU_WRITE K)
  else 0.

(** ** The IOVA allocator (include/linux/iova.h, drivers/iommu/iova.c) *)

Record iova := mk_iova { pfn_lo : Z; pfn_hi : Z }.

Record iova_domain := mk_iovad {
  granule : Z;
  start_pfn : Z;
  dma_32bit_pfn : Z;
  rbroot : list iova        (* the live intervals *)
}.

Definition iova_eqb (a b : iova) : bool :=
  (pfn_lo a =? pfn_lo b) && (pfn_hi a =? pfn_hi b).

(** Modelled from the spec: the inline helpers of iova.h. *)
Definition iova_shift (iovad : iova_domain) : Z := __ffs (granule iovad).
Definition iova_mask (iovad : iova_domain) : Z := granule iovad - 1.
Definition iova_offset (iovad : iova_domain) (addr : Z) : Z :=
  Z.land addr (iova_mask iovad).
Definition iova_align (iovad : iova_domain) (size : Z) : Z :=
  ALIGN size (granule iovad).
Definition iova_size (i : iova) : Z := u64 (pfn_hi i - pfn_lo i + 1).
Definition iova_dma_addr (iovad : iova_domain) (i : iova) : Z :=
  u64 (Z.shiftl (pfn_lo i) (iova_shift iovad)).

(** Modelled from the spec: [init_iova_domain], "a fresh Domain's structure
    is initialized with the entire [1, end] granule-aligned range free". *)
Definition init_iova_domain (g base_pfn end_pfn : Z) : iova_domain :=
  mk_iovad g base_pfn end_pfn [].

Definition iova_overlaps (lo hi : Z) (i : iova) : bool :=
  (lo <=? pfn_hi i) && (pfn_lo i <=? hi).

Definition iova_fits (iovad : iova_domain) (size limit_pfn lo : Z) : bool :=
  (start_pfn iovad <=? lo)
  && (lo + size - 1 <=? Z.min limit_pfn (dma_32bit_pfn iovad))
  && forallb (fun i => negb (iova_overlaps lo (lo + size - 1) i)) (rbroot iovad).

Definition lowest (l : list Z) : option Z :=
  match l with
  | [] => None
  | x :: l' => Some (fold_left Z.min l' x)
  end.

(** Modelled from the spec: [alloc_iova], which "searches the free-space
    structure for the lowest-address free region of sufficient size at or
    below address_limit, reserves it, returns it" and "fails if no such
    region exists".  A lowest free region starts either at the first
    allocatable frame or right after a live interval. *)
Definition alloc_iova (iovad : iova_domain) (size limit_pfn : Z)
    (size_aligned : bool) : option (iova * iova_domain) :=
  let candidates :=
    start_pfn iovad :: map (fun i => pfn_hi i + 1) (rbroot iovad) in
  match lowest (List.filter (fun lo => iova_fits iovad size limit_pfn lo) candidates) with
  | None => None
  | Some lo =>
      let i := mk_iova lo (lo + size - 1) in
      Some (i, mk_iovad (granule iovad) (start_pfn iovad)
                        (dma_32bit_pfn iovad) (i :: rbroot iovad))
  end.

(** Modelled from the spec: [find_iova], the live interval holding a frame. *)
Definition find_iova (iovad : iova_domain) (pfn : Z) : option iova :=
  List.find (fun i => (pfn_lo i <=? pfn) && (pfn <=? pfn_hi i)) (rbroot iovad).

Fixpoint remove_iova (i : iova) (l : list iova) : list iova :=
  match l with
  | [] => []
  | j :: l' => if iova_eqb i j then l' else j :: remove_iova i l'
  end.

(** Modelled from the spec: [__free_iova], which "returns the interval to
    the free-space structure". *)
Definition __free_iova (iovad : iova_domain) (i : iova) : iova_domain :=
  mk_iovad (granule iovad) (start_pfn iovad) (dma_32bit_pfn iovad)
           (remove_iova i (rbroot iovad)).

(** ** Scatter-gather segments (include/linux/scatterlist.h)

    [offset], [length] and [dma_length] are [unsigned int]; [dma_address]
    is a [dma_addr_t].  [page] stands for the page the segment lies in.
    [dma_length] is a field of its own (CONFIG_NEED_SG_DMA_LENGTH, as
    arm64 selects it), which the rewrite pass relies on. *)
Record scatterlist := mk_sg {
  page : Z;
  offset : Z;
  length : Z;
  dma_address : Z;
  dma_length : Z
}.

Definition sg_wf (s : scatterlist) : Prop :=
  0 <= offset s < 2 ^ 32 /\ 0 <= length s < 2 ^ 32 /\
  0 <= dma_length s < 2 ^ 32 /\ 0 <= dma_address s < 2 ^ 64.

(** The first loop of [iommu_dma_map_sg]: every segment is widened to whole
    granules, its original offset and length are parked in the dma fields,
    and the padded lengths are summed ([iova_len] is a [size_t]). *)
Definition rewrite_one (iovad : iova_domain) (s : scatterlist) : scatterlist * Z :=
  let s_offset := iova_offset iovad (offset s) in
  let s_length := length s in
  let s_length' := iova_align iovad (u64 (s_length + s_offset)) in
  (mk_sg (page s) (u32 (offset s - s_offset)) (u32 s_length')
         (offset s) (u32 s_length),
   s_length').

Fixpoint rewrite_sg (iovad : iova_domain) (sg : list scatterlist) (iova_len : Z)
    : list scatterlist * Z :=
  match sg with
  | [] => ([], iova_len)
  | s :: rest =>
      let '(s', s_length) := rewrite_one iovad s in
      let '(rest', total) := rewrite_sg iovad rest (u64 (iova_len + s_length)) in
      (s' :: rest', total)
  end.

(** [__invalidate_sg] *)
Definition invalidate_one (s : scatterlist) : scatterlist :=
  let off := if dma_address s =? DMA_ERROR_CODE then offset s
             else u32 (dma_address s) in
  let len := if dma_length s =? 0 then length s else dma_length s in
  mk_sg (page s) off len DMA_ERROR_CODE 0.

Definition __invalidate_sg (sg : list scatterlist) : list scatterlist :=
  map invalidate_one sg.

(** [__finalise_sg].  [seg] is an index into the list, the loop variable
    [s] is the entry at index [i]. *)
Record fin_state := mk_fin {
  f_sg : list scatterlist;
  f_seg : nat;
  f_seg_len : Z;
  f_seg_dma : Z;
  f_dma_addr : Z;
  f_count : Z
}.

Definition set_dma (s : scatterlist) (addr len : Z) : scatterlist :=
  mk_sg (page s) (offset s) (length s) addr len.

Definition finalise_step (seg_mask max_len : Z) (i : nat) (st : fin_state)
    : fin_state :=
  match f_sg st !! i with
  | None => st
  | Some s =>
      let s_offset := u32 (dma_address s) in
      let s_length := dma_length s in
      let s_dma_len := length s in
      let sg1 := <[i := mk_sg (page s) s_offset s_length DMA_ERROR_CODE 0]> (f_sg st) in
      let seg_len := f_seg_len st in
      let seg_dma := f_seg_dma st in
      let dma_addr := f_dma_addr st in
      if negb (seg_len =? 0)
         && (u32 (seg_dma + seg_len) =? u64 (dma_addr + s_offset))
         && (u32 (seg_len + s_dma_len) <=? max_len)
         && (Z.land seg_dma seg_mask <=? u64 (seg_mask - u32 (seg_len + s_length)))
      then
        mk_fin (alter (fun e => set_dma e (dma_address e)
                                  (u32 (dma_length e + s_dma_len)))
                      (f_seg st) sg1)
               (f_seg st) (u32 (seg_len + s_length)) seg_dma
               (u64 (dma_addr + s_dma_len)) (f_count st)
      else
        let seg := if seg_len =? 0 then f_seg st else S (f_seg st) in
        let count := if seg_len =? 0 then f_count st else f_count st + 1 in
        mk_fin (alter (fun e => set_dma e (u64 (dma_addr + s_offset))
                                  (u32 (s_dma_len - s_offset)))
                      seg sg1)
               seg (u32 (s_offset + s_length)) (u32 (dma_addr + s_offset))
               (u64 (dma_addr + s_dma_len)) count
  end.

Fixpoint finalise_loop (seg_mask max_len : Z) (n : nat) (i : nat)
    (st : fin_state) : fin_state :=
  match n with
  | O => st
  | S n' => finalise_loop seg_mask max_len n' (S i)
              (finalise_step seg_mask max_len i st)
  end.

(** ** The backend (struct iommu_domain, struct iommu_ops)

    The translation unit is an external collaborator.  Its translation
    state is kept as the list of (iova, length) ranges it currently maps;
    what each operation does to that state is the backend's business, so
    the operations are the fields of [iommu_ops], named after the IOMMU
    API entry points the glue layer calls. *)
Record iommu_domain := mk_domain {
  type : Z;
  force_aperture : bool;
  aperture_start : Z;
  aperture_end : Z;
  pgtable : list (Z * Z)
}.

Record iommu_ops := {
  pgsize_bitmap : Z;
  domain_alloc : Z -> option iommu_domain;
  iommu_attach_device : iommu_domain -> nat -> Z * iommu_domain;
  iommu_detach_device : iommu_domain -> nat -> iommu_domain;
  iommu_map : iommu_domain -> Z -> Z -> Z -> Z -> Z * iommu_domain;
  iommu_map_sg : iommu_domain -> Z -> list scatterlist -> Z -> Z * iommu_domain;
  iommu_unmap : iommu_domain -> Z -> Z -> Z * iommu_domain
}.

(** ** Physical memory (mm/page_alloc.c, slab)

    The live page frames are a multiset, so that a double free or a free of
    a frame that was never handed out stays visible.  Which block the buddy
    allocator hands out, whether it fails, and whether a small allocation
    succeeds are decided by the environment. *)
Record mm_state := mk_mm {
  live_pages : gmultiset Z;
  kobjs : Z
}.

Record kernel_env := {
  buddy : mm_state -> Z -> Z -> option Z;
  PageCompound : mm_state -> Z -> bool;
  split_huge_page : mm_state -> Z -> Z;
  kalloc_ok : mm_state -> bool
}.

(** The frames of the block of order [order] that starts at frame [p]. *)
Definition block (p : Z) (order : Z) : gmultiset Z :=
  list_to_set_disj (seqZ p (2 ^ order)).

(** Modelled from the spec: [alloc_pages] (mm/page_alloc.c), which
    "acquires physical pages" in a "contiguous power-of-two chunk": the
    block the buddy allocator picks joins the live frames, and a failed
    request changes nothing. *)
Definition alloc_pages (E : kernel_env) (m : mm_state) (gfp order : Z)
    : option (Z * mm_state) :=
  match buddy E m gfp order with
  | None => None
  | Some p => Some (p, mk_mm (live_pages m ⊎ block p order) (kobjs m))
  end.

Definition alloc_page (E : kernel_env) (m : mm_state) (gfp : Z) :=
  alloc_pages E m gfp 0.

(** Modelled from the spec: [__free_pages] and [__free_page], which hand
    acquired pages "back to the physical allocator". *)
Definition __free_pages (m : mm_state) (p order : Z) : mm_state :=
  mk_mm (live_pages m ∖ block p order) (kobjs m).

Definition __free_page (m : mm_state) (p : Z) : mm_state := __free_pages m p 0.

(** Modelled from the spec: [kzalloc] / [vzalloc] and [kfree] / [kvfree]
    (slab).  Only the number of live objects is kept; the glue layer uses
    them for the domain objects, the page-descriptor array and the
    scatter table. *)
Definition kzalloc (E : kernel_env) (m : mm_state) : option mm_state :=
  if kalloc_ok E m then Some (mk_mm (live_pages m) (kobjs m + 1)) else None.

Definition kfree (m : mm_state) : mm_state :=
  mk_mm (live_pages m) (kobjs m - 1).

(** ** Devices, DMA domains and the state of the system *)

(** What the glue layer reads from a [struct device]: the values returned
    by [dma_get_mask], [dma_get_max_seg_size] and [dma_get_seg_boundary],
    and the fields [coherent_dma_mask] and [dma_pfn_offset]. *)
Record device := mk_dev {
  dev_id : nat;
  dma_get_mask : Z;
  coherent_dma_mask : Z;
  dma_pfn_offset : Z;
  dma_get_max_seg_size : Z;
  dma_get_seg_boundary : Z
}.

(** [__finalise_sg]: the returned count and the list as it is left. *)
Definition __finalise_sg (dev : device) (sg : list scatterlist)
    (dma_addr : Z) : Z * list scatterlist :=
  let seg_mask := dma_get_seg_boundary dev in
  let max_len := dma_get_max_seg_size dev in
  let st := finalise_loop seg_mask max_len (List.length sg) 0
              (mk_fin sg 0 0 0 dma_addr 1) in
  (f_count st, f_sg st).

Record iommu_dma_domain := mk_dma_domain {
  domain : iommu_domain;
  iovad : iova_domain;
  kref : Z
}.

(** [dma_domains] is the heap of [struct iommu_dma_domain] objects, keyed
    by address: several devices may point at the same object.  [archdata]
    is what [arch_get_dma_domain] / [arch_set_dma_domain] read and write. *)
Record world := mk_world {
  dma_domains : gmap nat iommu_dma_domain;
  archdata : gmap nat nat;
  mm : mm_state
}.

(** A call either returns a value and a new state, or stops the machine
    ([BUG_ON], or a dereference of a pointer that is [NULL] or dangling). *)
Inductive outcome (A : Type) : Type :=
  | Ret (a : A) (w : world)
  | Bug.
Arguments Ret {A} a w.
Arguments Bug {A}.

Definition M (A : Type) : Type := world -> outcome A.

#[global] Instance M_ret : MRet M := fun A a w => Ret a w.
#[global] Instance M_bind : MBind M := fun A B f m w =>
  match m w with
  | Ret a w' => f a w'
  | Bug => Bug
  end.

Definition bug {A} : M A := fun _ => Bug.
Definition get_mm : M mm_state := fun w => Ret (mm w) w.
Definition put_mm (m : mm_state) : M unit :=
  fun w => Ret tt (mk_world (dma_domains w) (archdata w) m).

Definition arch_get_dma_domain (dev : device) : M (option nat) :=
  fun w => Ret (archdata w !! dev_id dev) w.

Definition arch_set_dma_domain (dev : device) (p : option nat) : M unit :=
  fun w => Ret tt (mk_world (dma_domains w)
                     (match p with
                      | Some q => <[dev_id dev := q]> (archdata w)
                      | None => delete (dev_id dev) (archdata w)
                      end) (mm w)).

(** Reading and writing through a [struct iommu_dma_domain *]. *)
Definition load (p : option nat) : M iommu_dma_domain :=
  fun w => match p with
           | Some q => match dma_domains w !! q with
                       | Some d => Ret d w
                       | None => Bug
                       end
           | None => Bug
           end.

Definition store (p : option nat) (d : iommu_dma_domain) : M unit :=
  fun w => match p with
           | Some q => Ret tt (mk_world (<[q := d]> (dma_domains w)) (archdata w) (mm w))
           | None => Bug
           end.

(** Modelled from the spec: [kref_init] "sets the new Domain's reference
    count to 1". *)
Definition kref_init : Z := 1.

(** The address a freshly allocated [struct iommu_dma_domain] ends up at:
    any address no live object occupies. *)
Definition place (d : iommu_dma_domain) : M nat :=
  fun w =>
    let p := fresh (dom (dma_domains w)) in
    Ret p (mk_world (<[p := d]> (dma_domains w)) (archdata w) (mm w)).

(** ** The glue layer *)

Section Glue.
Context (K : kconst) (E : kernel_env) (ops : iommu_ops).

(** [iommu_dma_create_domain].  The new object is placed at an unused
    address of the heap, which is the pointer returned. *)
Definition iommu_dma_create_domain (base size : Z) : M (option nat) :=
  m0 ← get_mm;
  match kzalloc E m0 with
  | None => mret None
  | Some m1 =>
    put_mm m1;;
    match domain_alloc ops (IOMMU_DOMAIN_UNMANAGED K) with
    | None => put_mm (kfree m1);; mret None
    | Some domain0 =>
      let domain := mk_domain (IOMMU_DOMAIN_UNMANAGED K)
                      (force_aperture domain0) (aperture_start domain0)
                      (aperture_end domain0) (pgtable domain0) in
      let order := __ffs (pgsize_bitmap ops) in
      let base_pfn := Z.max 1 (Z.shiftr base order) in
      let end_pfn := Z.shiftr (u64 (base + size - 1)) order in
      if force_aperture domain
         && ((aperture_end domain <? base)
             || (u64 (base + size) <=? aperture_start domain))
      then put_mm (kfree m1);; mret None
      else
        let base_pfn :=
          if force_aperture domain
          then Z.max base_pfn (Z.shiftr (aperture_start domain) order)
          else base_pfn in
        let end_pfn :=
          if force_aperture domain
          then Z.min end_pfn (Z.shiftr (aperture_end domain) order)
          else end_pfn in
        match kzalloc E m1 with
        | None => put_mm (kfree m1);; mret None
        | Some m2 =>
          put_mm m2;;
          let iovad := init_iova_domain (u64 (Z.shiftl 1 order)) base_pfn end_pfn in
          p ← place (mk_dma_domain domain iovad kref_init);
          mret (Some p)
        end
    end
  end.

(** [__iommu_dma_free_domain], reached from [kref_put] at zero:
    [put_iova_domain] drops the intervals, [iommu_domain_free] the
    backend object, and the one [kfree] of this path is that of the
    domain object. *)
Definition __iommu_dma_free_domain (q : nat) : M unit :=
  fun w => Ret tt (mk_world (delete q (dma_domains w)) (archdata w)
                            (kfree (mm w))).

Definition iommu_dma_release_domain (p : option nat) : M unit :=
  d ← load p;
  if kref d - 1 =? 0
  then match p with Some q => __iommu_dma_free_domain q | None => bug end
  else store p (mk_dma_domain (domain d) (iovad d) (kref d - 1)).

Definition iommu_dma_raw_domain (p : option nat) : M iommu_domain :=
  d ← load p; mret (domain d).

(** [iommu_dma_attach_device] *)
Definition iommu_dma_attach_device (dev : device) (p : option nat) : M Z :=
  d ← load p;
  store p (mk_dma_domain (domain d) (iovad d) (kref d + 1));;   (* kref_get *)
  d ← load p;
  let '(ret, domain') := iommu_attach_device ops (domain d) (dev_id dev) in
  store p (mk_dma_domain domain' (iovad d) (kref d));;
  (if ret =? 0 then arch_set_dma_domain dev p else mret tt);;
  mret ret.

Definition iommu_dma_detach_device (dev : device) : M unit :=
  p ← arch_get_dma_domain dev;
  arch_set_dma_domain dev None;;
  d ← load p;
  store p (mk_dma_domain (iommu_detach_device ops (domain d) (dev_id dev))
                         (iovad d) (kref d));;
  iommu_dma_release_domain p.

(** [dev_dma_addr]: the static bus offset between device and IOMMU. *)
Definition dev_dma_addr (dev : device) (addr : Z) : M Z :=
  let offset := u64 (Z.shiftl (dma_pfn_offset dev) (PAGE_SHIFT K)) in
  if addr <? offset then bug else mret (addr - offset).

(** [__alloc_iova] *)
Definition __alloc_iova (dev : device) (size : Z) (coherent : bool)
    : M (option iova) :=
  p ← arch_get_dma_domain dev;
  d ← load p;
  let shift := iova_shift (iovad d) in
  let length := Z.shiftr (iova_align (iovad d) size) shift in
  let dma_limit := if coherent then coherent_dma_mask dev else dma_get_mask dev in
  match alloc_iova (iovad d) length (Z.shiftr dma_limit shift) true with
  | None => mret None
  | Some (i, iovad') =>
      store p (mk_dma_domain (domain d) iovad' (kref d));; mret (Some i)
  end.

(** [__iommu_dma_unmap] *)
Definition __iommu_dma_unmap (p : option nat) (dma_addr : Z) : M unit :=
  d ← load p;
  let shift := iova_shift (iovad d) in
  let pfn := Z.shiftr dma_addr shift in
  match find_iova (iovad d) pfn with
  | None => bug                                   (* iova_size(NULL) *)
  | Some i =>
      let size := u64 (Z.shiftl (iova_size i) shift) in
      let '(n, domain') := iommu_unmap ops (domain d) (u64 (Z.shiftl pfn shift)) size in
      if n <? size then bug                       (* BUG_ON *)
      else store p (mk_dma_domain domain' (__free_iova (iovad d) i) (kref d))
  end.
End Glue.

(** ** Buffers *)

(** The [struct page **] array: [count] slots, [None] for a slot that still
    holds the [NULL] it was zero-filled with. *)
Abbreviation page_array := (list (option Z)).

(** [__iommu_dma_free_pages].  [None] is a read outside the array or of an
    empty slot, where the C code would hand a wild pointer to
    [__free_page]. *)
Fixpoint free_pages_loop (pages : page_array) (count : nat) (m : mm_state)
    : option mm_state :=
  match count with
  | O => Some m
  | S c => match pages !! c with
           | Some (Some p) => free_pages_loop pages c (__free_page m p)
           | _ => None
           end
  end.

Definition __iommu_dma_free_pages (pages : page_array) (count : Z) (m : mm_state)
    : option mm_state :=
  if count <? 0 then None
  else match free_pages_loop pages (Z.to_nat count) m with
       | Some m' => Some (kfree m')                 (* kvfree(pages) *)
       | None => None
       end.

(** What one run of [__iommu_dma_alloc_pages] ends in. *)
Inductive pages_result : Type :=
  | Filled (pages : page_array) (m : mm_state)
  | NoMemory (m : mm_state)
  | WildFree
  | OutOfFuel.

Section Pages.
Context (K : kconst) (E : kernel_env).

(** The [for (order = ...; order > 0; order--)] loop.  It returns the
    values of [page] and [order] it leaves behind.  After a huge page
    that could not be split is given back, [page] keeps the pointer. *)
Fixpoint higher_order (order : nat) (page : option Z) (m : mm_state) (gfp : Z)
    : option Z * nat * mm_state :=
  match order with
  | O => (page, O, m)
  | S o' =>
      match alloc_pages E m (Z.lor gfp (__GFP_NORETRY K)) (Z.of_nat order) with
      | None => higher_order o' None m gfp
      | Some (p, m1) =>
          if PageCompound E m1 p then
            if split_huge_page E m1 p =? 0 then (Some p, order, m1)
            else higher_order o' (Some p) (__free_pages m1 p (Z.of_nat order)) gfp
          else (Some p, order, m1)                (* split_page *)
      end
  end.

(** [while (j--) pages[i++] = page++;] *)
Fixpoint fill (pages : page_array) (i : nat) (page : Z) (j : nat) : page_array :=
  match j with
  | O => pages
  | S j' => fill (<[i := Some page]> pages) (S i) (page + 1) j'
  end.

(** The [while (count)] loop. *)
Fixpoint alloc_pages_loop (fuel : nat) (pages : page_array) (i : nat)
    (count : Z) (gfp : Z) (m : mm_state) : pages_result :=
  if count =? 0 then Filled pages m
  else match fuel with
  | O => OutOfFuel
  | S fuel' =>
      let order := Z.to_nat (Z.min (__fls count) (MAX_ORDER K)) in
      let '(page, order, m1) := higher_order order None m gfp in
      let got := match page with
                 | Some p => Some (p, m1)
                 | None => alloc_page E m1 gfp
                 end in
      match got with
      | None =>
          match __iommu_dma_free_pages pages (Z.of_nat i) m1 with
          | Some m2 => NoMemory m2
          | None => WildFree
          end
      | Some (p, m2) =>
          let j := 2 ^ Z.of_nat order in
          alloc_pages_loop fuel' (fill pages i p (Z.to_nat j)) (i + Z.to_nat j)%nat
                           (u32 (count - j)) gfp m2
      end
  end.

(** [__iommu_dma_alloc_pages] *)
Definition __iommu_dma_alloc_pages (count gfp : Z) (m : mm_state) : pages_result :=
  match kzalloc E m with
  | None => NoMemory m
  | Some m1 => alloc_pages_loop (Z.to_nat count) (replicate (Z.to_nat count) None)
                                0 count gfp m1
  end.
End Pages.

(** Modelled from the spec: [sg_alloc_table_from_pages] (lib/scatterlist.c),
    the table handed to the backend so that it can "map every acquired page
    into that interval in page order": one entry per page, the last one cut
    to what is left of [size]. *)
Fixpoint pages_to_sg (K : kconst) (pages : page_array) (size : Z)
    : list scatterlist :=
  match pages with
  | [] => []
  | p :: rest =>
      mk_sg (default 0 p) 0 (Z.min size (PAGE_SIZE K)) 0 0
      :: pages_to_sg K rest (size - Z.min size (PAGE_SIZE K))
  end.

Section Buffers.
Context (K : kconst) (E : kernel_env) (ops : iommu_ops).

Definition free_pages_m (pages : page_array) (count : Z) : M unit :=
  m ← get_mm;
  match __iommu_dma_free_pages pages count m with
  | Some m' => put_mm m'
  | None => bug
  end.

Definition free_iova_m (p : option nat) (i : iova) : M unit :=
  d ← load p;
  store p (mk_dma_domain (domain d) (__free_iova (iovad d) i) (kref d)).

Definition sg_free_table : M unit :=
  m ← get_mm; put_mm (kfree m).

(** [iommu_dma_free]; the value returned is what [*handle] holds on
    return. *)
Definition iommu_dma_free (dev : device) (pages : page_array) (size : Z)
    (handle : Z) : M Z :=
  p ← arch_get_dma_domain dev;
  __iommu_dma_unmap ops p handle;;
  free_pages_m pages (s32 (Z.shiftr (PAGE_ALIGN K size) (PAGE_SHIFT K)));;
  mret DMA_ERROR_CODE.

(** [iommu_dma_alloc]; the result is the page array (or [NULL]) together
    with what [*handle] holds on return.  Zero-filling the pages and the
    [flush_page] callback leave no trace in the state modelled here. *)
Definition iommu_dma_alloc (dev : device) (size gfp prot : Z) (coherent : bool)
    : M (option page_array * Z) :=
  p ← arch_get_dma_domain dev;
  _ ← load p;
  let count := u32 (Z.shiftr (PAGE_ALIGN K size) (PAGE_SHIFT K)) in
  let handle := DMA_ERROR_CODE in
  let gfp := Z.lor gfp (Z.lor (__GFP_NOWARN K) (__GFP_HIGHMEM K)) in
  m ← get_mm;
  match __iommu_dma_alloc_pages K E count gfp m with
  | OutOfFuel | WildFree => bug
  | NoMemory m' => put_mm m';; mret (None, handle)
  | Filled pages m' =>
    put_mm m';;
    iova ← __alloc_iova dev size coherent;
    match iova with
    | None =>
        free_pages_m pages (s32 count);; mret (None, handle)
    | Some i =>
      m ← get_mm;
      match kzalloc E m with
      | None =>
          free_iova_m p i;; free_pages_m pages (s32 count);; mret (None, handle)
      | Some m' =>
        put_mm m';;
        d ← load p;
        let dma_addr := iova_dma_addr (iovad d) i in
        let '(mapped, domain') :=
          iommu_map_sg ops (domain d) dma_addr (pages_to_sg K pages size) prot in
        store p (mk_dma_domain domain' (iovad d) (kref d));;
        if mapped <? size then
          sg_free_table;; free_iova_m p i;; free_pages_m pages (s32 count);;
          mret (None, handle)
        else
          sg_free_table;; mret (Some pages, dma_addr)
      end
    end
  end.

(** [iommu_dma_map_page]; [page_to_phys] is the frame number shifted by
    [PAGE_SHIFT]. *)
Definition iommu_dma_map_page (dev : device) (pg : Z) (off size prot : Z)
    (coherent : bool) : M Z :=
  p ← arch_get_dma_domain dev;
  d ← load p;
  let phys := u64 (Z.shiftl pg (PAGE_SHIFT K) + off) in
  let iova_off := iova_offset (iovad d) phys in
  let len := iova_align (iovad d) (u64 (size + iova_off)) in
  iova ← __alloc_iova dev len coherent;
  match iova with
  | None => mret DMA_ERROR_CODE
  | Some i =>
      d ← load p;
      let dma_addr := iova_dma_addr (iovad d) i in
      let '(ret, domain') :=
        iommu_map ops (domain d) dma_addr (u64 (phys - iova_off)) len prot in
      store p (mk_dma_domain domain' (iovad d) (kref d));;
      if ret =? 0 then dev_dma_addr K dev (u64 (dma_addr + iova_off))
      else free_iova_m p i;; mret DMA_ERROR_CODE
  end.

Definition iommu_dma_unmap_page (dev : device) (handle : Z) : M unit :=
  p ← arch_get_dma_domain dev;
  __iommu_dma_unmap ops p handle.

(** [iommu_dma_map_sg]; the result is the count together with the
    segment list as the call leaves it. *)
Definition iommu_dma_map_sg (dev : device) (sg : list scatterlist) (prot : Z)
    (coherent : bool) : M (Z * list scatterlist) :=
  p ← arch_get_dma_domain dev;
  d ← load p;
  let '(sg1, iova_len) := rewrite_sg (iovad d) sg 0 in
  iova ← __alloc_iova dev iova_len coherent;
  match iova with
  | None => mret (0, __invalidate_sg sg1)
  | Some i =>
      d ← load p;
      let dma_addr := iova_dma_addr (iovad d) i in
      let '(mapped, domain') := iommu_map_sg ops (domain d) dma_addr sg1 prot in
      store p (mk_dma_domain domain' (iovad d) (kref d));;
      if mapped <? iova_len then
        free_iova_m p i;; mret (0, __invalidate_sg sg1)
      else
        a ← dev_dma_addr K dev dma_addr;
        mret (__finalise_sg dev sg1 a)
  end.

Definition iommu_dma_unmap_sg (dev : device) (sg : list scatterlist) : M unit :=
  p ← arch_get_dma_domain dev;
  match sg with
  | s :: _ => __iommu_dma_unmap ops p (dma_address s)
  | [] => bug
  end.

Definition iommu_dma_supported (dev : device) (mask : Z) : Z := 1.

Definition iommu_dma_mapping_error (dev : device) (dma_addr : Z) : Z :=
  if dma_addr =? DMA_ERROR_CODE then 1 else 0.
End Buffers.

(** ** Vocabulary of the statements *)

Definition set_dom (w : world) (q : nat) (d : iommu_dma_domain) : world :=
  mk_world (<[q := d]> (dma_domains w)) (archdata w) (mm w).

Definition set_mm (w : world) (m : mm_state) : world :=
  mk_world (dma_domains w) (archdata w) m.

(** [dev] is attached to the domain object [d] that lives at address [q]. *)
Definition attached (w : world) (dev : device) (q : nat) (d : iommu_dma_domain) : Prop :=
  archdata w !! dev_id dev = Some q /\ dma_domains w !! q = Some d.

(** Slot [k] of a page array holds a page. *)
Definition slot_filled (pages : page_array) (k : nat) : Prop :=
  exists p, pages !! k = Some (Some p).

(** The pages held in the first [n] slots of a page array. *)
Definition filled_ms (pages : page_array) (n : nat) : gmultiset Z :=
  list_to_set_disj (omap id (take n pages)).


(** A segment as [__invalidate_sg] should leave it, given the segment [s]
    the caller passed in. *)
Definition restored (s s' : scatterlist) : Prop :=
  page s' = page s /\ offset s' = offset s /\ length s' = length s /\
  dma_address s' = DMA_ERROR_CODE /\ dma_length s' = 0.

(** On entry to [__finalise_sg] a segment holds its padded length in
    [length] and its original offset in [dma_address]: the segment on its
    own is within [max_len] when it would be emitted alone. *)
Definition seg_fits (max_len : Z) (s : scatterlist) : Prop :=
  u32 (dma_address s) <= length s /\ length s - u32 (dma_address s) <= max_len.

Definition seg_weight (s : scatterlist) : Z :=
  u32 (dma_address s) + dma_length s + length s.

Definition sg_weight (sg : list scatterlist) : Z :=
  fold_right (fun s acc => seg_weight s + acc) 0 sg.

(** The loop invariant of [__finalise_sg] before entry [i] of the list
    [sg0] it was started on is visited. *)
Record fin_inv (max_len : Z) (sg0 : list scatterlist) (i : nat) (st : fin_state)
    : Prop := {
  inv_len : List.length (f_sg st) = List.length sg0;
  inv_rest : forall k, (i <= k)%nat -> f_sg st !! k = sg0 !! k;
  inv_done : forall k e, (k < i)%nat -> f_sg st !! k = Some e ->
                         0 <= dma_length e <= max_len;
  inv_seg : (f_seg st <= i)%nat /\ (f_seg_len st <> 0 -> (f_seg st < i)%nat);
  inv_run : f_seg_len st <> 0 ->
            exists e, f_sg st !! f_seg st = Some e /\
                      u32 (f_seg_dma st + dma_length e) = u32 (f_dma_addr st);
  inv_slen : 0 <= f_seg_len st <= sg_weight (take i sg0)
}.

(** ** Concrete configurations

    A 4 KiB-page kernel and a 64 KiB-page kernel, an environment whose buddy
    allocator only ever hands out single pages, and three backends: one that
    does what it is asked, one whose [map_sg] stops after the first segment,
    and one that refuses every device. *)
Definition K4k : kconst :=
  {| PAGE_SHIFT := 12; MAX_ORDER := 11;
     IOMMU_READ := 1; IOMMU_WRITE := 2; IOMMU_CACHE := 4;
     IOMMU_DOMAIN_UNMANAGED := 1; GFP_KERNEL := 208;
     __GFP_NORETRY := 4096; __GFP_NOWARN := 512; __GFP_HIGHMEM := 2 |}.

Definition K64k : kconst :=
  {| PAGE_SHIFT := 16; MAX_ORDER := 11;
     IOMMU_READ := 1; IOMMU_WRITE := 2; IOMMU_CACHE := 4;
     IOMMU_DOMAIN_UNMANAGED := 1; GFP_KERNEL := 208;
     __GFP_NORETRY := 4096; __GFP_NOWARN := 512; __GFP_HIGHMEM := 2 |}.

Definition E_single : kernel_env :=
  {| buddy := fun m gfp order =>
       if order =? 0 then Some (1000 + Z.of_nat (size (live_pages m))) else None;
     PageCompound := fun _ _ => false;
     split_huge_page := fun _ _ => 0;
     kalloc_ok := fun _ => true |}.

Definition sg_total (sg : list scatterlist) : Z :=
  fold_right (fun s acc => length s + acc) 0 sg.

Definition fresh_domain : iommu_domain :=
  mk_domain 0 true 0 (2 ^ 32 - 1) [].

Definition with_pgtable (d : iommu_domain) (t : list (Z * Z)) : iommu_domain :=
  mk_domain (type d) (force_aperture d) (aperture_start d) (aperture_end d) t.

Definition ops_good : iommu_ops :=
  {| pgsize_bitmap := 4096 + 2097152 + 1073741824;
     domain_alloc := fun _ => Some fresh_domain;
     iommu_attach_device := fun d _ => (0, d);
     iommu_detach_device := fun d _ => d;
     iommu_map := fun d a _ len _ => (0, with_pgtable d ((a, len) :: pgtable d));
     iommu_map_sg := fun d a sg _ =>
       (sg_total sg, with_pgtable d ((a, sg_total sg) :: pgtable d));
     iommu_unmap := fun d a len =>
       (len, with_pgtable d (List.filter (fun r => negb (fst r =? a)) (pgtable d))) |}.

Definition ops_partial : iommu_ops :=
  {| pgsize_bitmap := 4096 + 2097152 + 1073741824;
     domain_alloc := fun _ => Some fresh_domain;
     iommu_attach_device := fun d _ => (0, d);
     iommu_detach_device := fun d _ => d;
     iommu_map := fun d a _ len _ => (0, with_pgtable d ((a, len) :: pgtable d));
     iommu_map_sg := fun d a sg _ =>
       match sg with
       | s :: _ => (length s, with_pgtable d ((a, length s) :: pgtable d))
       | [] => (0, d)
       end;
     iommu_unmap := fun d a len =>
       (len, with_pgtable d (List.filter (fun r => negb (fst r =? a)) (pgtable d))) |}.

Definition ops_refuse : iommu_ops :=
  {| pgsize_bitmap := 4096 + 2097152 + 1073741824;
     domain_alloc := fun _ => Some fresh_domain;
     iommu_attach_device := fun d _ => (-19, d);
     iommu_detach_device := fun d _ => d;
     iommu_map := fun d _ _ _ _ => (-19, d);
     iommu_map_sg := fun d _ _ _ => (0, d);
     iommu_unmap := fun d _ len => (len, d) |}.

(** A backend whose driver fills in no geometry. *)
Definition ops_nogeom : iommu_ops :=
  {| pgsize_bitmap := 4096 + 2097152 + 1073741824;
     domain_alloc := fun _ => Some (mk_domain 0 false 0 0 []);
     iommu_attach_device := fun d _ => (0, d);
     iommu_detach_device := fun d _ => d;
     iommu_map := fun d a _ len _ => (0, with_pgtable d ((a, len) :: pgtable d));
     iommu_map_sg := fun d a sg _ =>
       (sg_total sg, with_pgtable d ((a, sg_total sg) :: pgtable d));
     iommu_unmap := fun d a len =>
       (len, with_pgtable d (List.filter (fun r => negb (fst r =? a)) (pgtable d))) |}.

Definition mm0 : mm_state := mk_mm ∅ 0.
Definition world0 : world := mk_world ∅ ∅ mm0.

Definition dev0 : device :=
  {| dev_id := 7; dma_get_mask := 2 ^ 32 - 1; coherent_dma_mask := 2 ^ 32 - 1;
     dma_pfn_offset := 0; dma_get_max_seg_size := 65536;
     dma_get_seg_boundary := 2 ^ 32 - 1 |}.

(** The state after a domain over [0, 2^32) was created and [dev0]
    attached to it. *)
Definition world_of (K : kconst) (E : kernel_env) (ops : iommu_ops) : outcome Z :=
  (p ← iommu_dma_create_domain K E ops 0 (2 ^ 32);
   iommu_dma_attach_device ops dev0 p) world0.

Definition world_attached (K : kconst) (ops : iommu_ops) : world :=
  match world_of K E_single ops with
  | Ret _ w => w
  | Bug => world0
  end.

Definition iovad_4k : iova_domain := mk_iovad 4096 1 1048575 [].

(** ** Vocabulary of the further properties *)


(** What [__finalise_sg] has made of the list [sg0] it was started on
    when it is about to visit entry [i]: the entries before [i] have their
    offset and length back from the dma fields, those that no output
    segment has reached carry the error sentinel, and [count] runs one
    ahead of the index [seg] of the output segment being filled. *)
Record fin_done (sg0 : list scatterlist) (i : nat) (st : fin_state) : Prop := {
  fd_len : List.length (f_sg st) = List.length sg0;
  fd_rest : forall k, (i <= k)%nat -> f_sg st !! k = sg0 !! k;
  fd_done : forall k s, (k < i)%nat -> sg0 !! k = Some s ->
            exists e, f_sg st !! k = Some e /\ page e = page s /\
                      offset e = u32 (dma_address s) /\ length e = dma_length s /\
                      ((f_seg st < k)%nat ->
                       dma_address e = DMA_ERROR_CODE /\ dma_length e = 0);
  fd_seg : (i = 0%nat /\ f_seg st = 0%nat /\ f_seg_len st = 0) \/ (f_seg st < i)%nat;
  fd_count : f_count st = 1 + Z.of_nat (f_seg st)
}.

(** The bytes the parked fields of a list describe: offset plus length of
    every entry, as [__finalise_sg] reads them. *)
Definition parked_extent (sg : list scatterlist) : Z :=
  fold_right (fun s acc => u32 (dma_address s) + dma_length s + acc) 0 sg.

(** While the first output segment is being filled, its running length is
    positive and within the bytes visited, and the first entry holds the
    address the pass was started with plus the first offset. *)
Record fin_head (a : Z) (sg0 : list scatterlist) (i : nat) (st : fin_state)
    : Prop := {
  fh_len : f_seg st = 0%nat -> 0 < f_seg_len st <= parked_extent (take i sg0);
  fh_addr : exists s0 e0, sg0 !! 0%nat = Some s0 /\ f_sg st !! 0%nat = Some e0 /\
                          dma_address e0 = u64 (a + u32 (dma_address s0))
}.

(** The bytes a list of segments describes as the caller wrote it. *)
Definition sg_extent (sg : list scatterlist) : Z :=
  fold_right (fun s acc => offset s + length s + acc) 0 sg.

(** Two segments describe the same piece of memory. *)
Definition same_buffer (s e : scatterlist) : Prop :=
  page e = page s /\ offset e = offset s /\ length e = length s.

(** What the rewrite pass of [iommu_dma_map_sg] makes of a segment [s]
    for a granule of [2^k] bytes: the same page, offset and length widened
    to whole granules around the original, and the original offset and
    length parked in the dma fields. *)
Definition widened (k : Z) (s s' : scatterlist) : Prop :=
  page s' = page s /\
  dma_address s' = offset s /\ dma_length s' = length s /\
  offset s' mod 2 ^ k = 0 /\ length s' mod 2 ^ k = 0 /\
  offset s' <= offset s /\
  offset s + length s <= offset s' + length s' < offset s + length s + 2 ^ k.

(** Where the output segments of [__finalise_sg] lie when it is about to
    visit entry [i], for a pass started at address [a]: the running
    address is [a] plus the lengths visited, and the segments emitted so
    far lie at or above [a], end at or below the running address, and
    follow one another without overlap. *)
Record fin_span (a : Z) (sg0 : list scatterlist) (i : nat) (st : fin_state)
    : Prop := {
  fs_addr : f_dma_addr st = a + sg_total (take i sg0);
  fs_segs : (0 < i)%nat ->
            forall k e, (k <= f_seg st)%nat -> f_sg st !! k = Some e ->
              a <= dma_address e /\ 0 <= dma_length e /\
              dma_address e + dma_length e <= a + sg_total (take i sg0);
  fs_sorted : forall k e e', (S k <= f_seg st)%nat ->
              f_sg st !! k = Some e -> f_sg st !! S k = Some e' ->
              dma_address e + dma_length e <= dma_address e'
}.

(** [__finalise_sg] has so far put everything into one segment: after [i]
    entries the single output segment starts at [a] and covers the lengths
    visited, and the running counters agree with that. *)
Record fin_one (a : Z) (sg0 : list scatterlist) (i : nat) (st : fin_state)
    : Prop := {
  fo_seg : f_seg st = 0%nat /\ f_count st = 1;
  fo_len : f_seg_len st = sg_total (take i sg0);
  fo_dma : f_seg_dma st = a /\ f_dma_addr st = a + sg_total (take i sg0);
  fo_head : exists e0, f_sg st !! 0%nat = Some e0 /\
                       dma_address e0 = a /\ dma_length e0 = sg_total (take i sg0)
}.

(** ** Mapping a buffer into a user address space

    A [struct vm_area_struct] as [iommu_dma_mmap] sees it: the bounds of
    the user range, the page offset into the buffer, and the (user address,
    page) pairs the range maps.  Whether [vm_insert_page] (mm/memory.c)
    succeeds and what it does to the area is the environment's business;
    it is a parameter of the model. *)
Record vm_area_struct := mk_vma {
  vm_start : Z;
  vm_end : Z;
  vm_pgoff : Z;
  vm_ptes : list (Z * option Z)
}.

Definition ENXIO : Z := 6.

Inductive mmap_result :=
| Mapped (ret : Z) (vma : vm_area_struct)
| WildRead                     (* [pages[i]] read past the end of the array *)
| MmapOutOfFuel.

Section Mmap.
Context (K : kconst)
        (vm_insert_page : vm_area_struct -> Z -> option Z -> Z * vm_area_struct).

(** The loop of [iommu_dma_mmap]; [i] and [count] are [unsigned int],
    [uaddr] is an [unsigned long]. *)
Fixpoint mmap_loop (fuel : nat) (pages : page_array) (count i uaddr ret : Z)
    (vma : vm_area_struct) {struct fuel} : mmap_result :=
  if (i <? count) && (uaddr <? vm_end vma) then
    match fuel with
    | O => MmapOutOfFuel
    | S fuel' =>
        match pages !! Z.to_nat i with
        | None => WildRead
        | Some pg =>
            let '(ret', vma') := vm_insert_page vma uaddr pg in
            if ret' =? 0
            then mmap_loop fuel' pages count (u32 (i + 1))
                           (u64 (uaddr + PAGE_SIZE K)) ret' vma'
            else Mapped ret' vma'
        end
    end
  else Mapped ret vma.

(** [iommu_dma_mmap] *)
Definition iommu_dma_mmap (pages : page_array) (size : Z) (vma : vm_area_struct)
    : mmap_result :=
  let count := u32 (Z.shiftr (PAGE_ALIGN K size) (PAGE_SHIFT K)) in
  mmap_loop (Z.to_nat count) pages count (u32 (vm_pgoff vma)) (vm_start vma)
            (- ENXIO) vma.
End Mmap.

(** A [vm_insert_page] that always succeeds and records the page. *)
Definition vm_insert_page_ok (vma : vm_area_struct) (uaddr : Z) (pg : option Z)
    : Z * vm_area_struct :=
  (0, mk_vma (vm_start vma) (vm_end vma) (vm_pgoff vma) ((uaddr, pg) :: vm_ptes vma)).

(** The part of a buffer that [iommu_dma_mmap] puts into a user range that
    starts at [uaddr]: at most [n] pages from index [i] on, at consecutive
    page-sized steps. *)
Definition mmap_window (K : kconst) (pages : page_array) (i : nat) (uaddr : Z)
    (n : nat) : list (Z * option Z) :=
  imap (fun j pg => (uaddr + Z.of_nat j * PAGE_SIZE K, pg)) (take n (drop i pages)).

(** * Properties *)

(** ** Arithmetic of the helpers *)

Lemma u32_range x : 0 <= u32 x < 2 ^ 32.
Proof. unfold u32. apply Z.mod_pos_bound. lia. Qed.

Lemma u64_range x : 0 <= u64 x < 2 ^ 64.
Proof. unfold u64. apply Z.mod_pos_bound. lia. Qed.

Lemma u32_id x : 0 <= x < 2 ^ 32 -> u32 x = x.
Proof. intros. unfold u32. apply Z.mod_small. lia. Qed.

Lemma u64_id x : 0 <= x < 2 ^ 64 -> u64 x = x.
Proof. intros. unfold u64. apply Z.mod_small. lia. Qed.

Lemma ffs_scan_spec n : forall i x,
  (exists j, i <= j < i + Z.of_nat n /\ Z.testbit x j = true) ->
  i <= ffs_scan n i x < i + Z.of_nat n /\
  Z.testbit x (ffs_scan n i x) = true /\
  forall j, i <= j < ffs_scan n i x -> Z.testbit x j = false.
Proof.
  induction n as [|n IH]; intros i x [j [Hj Hb]].
  - lia.
  - cbn [ffs_scan]. destruct (Z.testbit x i) eqn:Hi.
    + split; [lia|]. split; [exact Hi|]. intros; lia.
    + assert (Hne : j <> i) by (intros ->; congruence).
      destruct (IH (i + 1) x) as (Hr & Ht & Hl).
      { exists j. split; [lia | exact Hb]. }
      split; [lia|]. split; [exact Ht|].
      intros k Hk. destruct (Z.eq_dec k i) as [->|]; [exact Hi|].
      apply Hl. lia.
Qed.

Lemma ffs_lowest x :
  0 < x < 2 ^ 64 ->
  0 <= __ffs x < 64 /\ Z.testbit x (__ffs x) = true /\
  forall j, 0 <= j < __ffs x -> Z.testbit x j = false.
Proof.
  intros Hx. unfold __ffs.
  destruct (ffs_scan_spec 64 0 x) as (Hr & Ht & Hl).
  - exists (Z.log2 x). split.
    + pose proof (Z.log2_nonneg x).
      assert (Z.log2 x < 64) by (apply Z.log2_lt_pow2; lia). lia.
    + apply Z.bit_log2. lia.
  - split; [lia|]. split; [exact Ht | exact Hl].
Qed.

Lemma ffs_pow2 k : 0 <= k < 64 -> __ffs (2 ^ k) = k.
Proof.
  intros Hk.
  assert (Hx : 0 < 2 ^ k < 2 ^ 64).
  { split; [apply Z.pow_pos_nonneg; lia | apply Z.pow_lt_mono_r; lia]. }
  destruct (ffs_lowest (2 ^ k) Hx) as (Hr & Ht & Hl).
  rewrite Z.pow2_bits_eqb in Ht by lia.
  apply Z.eqb_eq in Ht. lia.
Qed.

(** [ALIGN] rounds up to the next multiple of a power of two. *)
Lemma ALIGN_round_up x k :
  0 <= k -> 0 <= x -> x + 2 ^ k <= 2 ^ 64 ->
  ALIGN x (2 ^ k) = (x + 2 ^ k - 1) / 2 ^ k * 2 ^ k.
Proof.
  intros Hk Hx Hb. unfold ALIGN.
  assert (Hp : 0 < 2 ^ k) by (apply Z.pow_pos_nonneg; lia).
  rewrite u64_id by lia.
  replace (2 ^ k - 1) with (Z.ones k) by (rewrite Z.ones_equiv; lia).
  rewrite <- Z.ldiff_land.
  rewrite Z.ldiff_ones_r by lia.
  rewrite Z.shiftl_mul_pow2, Z.shiftr_div_pow2 by lia.
  rewrite Z.ones_equiv. f_equal. f_equal. lia.
Qed.

Lemma ALIGN_bounds x k :
  0 <= k -> 0 <= x -> x + 2 ^ k <= 2 ^ 64 ->
  x <= ALIGN x (2 ^ k) < x + 2 ^ k /\ ALIGN x (2 ^ k) mod 2 ^ k = 0.
Proof.
  intros Hk Hx Hb. rewrite ALIGN_round_up by assumption.
  assert (Hp : 0 < 2 ^ k) by (apply Z.pow_pos_nonneg; lia).
  split; [|apply Z.mod_mul; lia].
  pose proof (Z.div_mod (x + 2 ^ k - 1) (2 ^ k) ltac:(lia)) as Hd.
  pose proof (Z.mod_pos_bound (x + 2 ^ k - 1) (2 ^ k) Hp). nia.
Qed.

(** ** The state monad *)

Ltac munfold :=
  unfold mbind, mret, M_bind, M_ret, get_mm, put_mm, bug, load, store,
         arch_get_dma_domain, arch_set_dma_domain, place in *.

Lemma world_eta w : mk_world (dma_domains w) (archdata w) (mm w) = w.
Proof. by destruct w. Qed.

Lemma kfree_kzalloc E m m1 : kzalloc E m = Some m1 -> kfree m1 = m.
Proof.
  unfold kzalloc, kfree. destruct (kalloc_ok E m); [|discriminate].
  intros [= <-]. destruct m as [lp ko]. cbn. f_equal. lia.
Qed.

(** ** Protection flags *)

(** C10: the protection flags computed from a direction: cache bit when
    coherent, plus read and write for a bidirectional transfer, read alone
    towards the device, write alone from the device, and 0 for every other
    value of the direction, coherent or not. *)
Theorem dma_direction_to_prot_cases (K : kconst) (dir : Z) (coherent : bool) :
  let prot := if coherent then IOMMU_CACHE K else 0 in
  (dir = DMA_BIDIRECTIONAL ->
     dma_direction_to_prot K dir coherent
     = Z.lor (Z.lor prot (IOMMU_READ K)) (IOMMU_WRITE K)) /\
  (dir = DMA_TO_DEVICE ->
     dma_direction_to_prot K dir coherent = Z.lor prot (IOMMU_READ K)) /\
  (dir = DMA_FROM_DEVICE ->
     dma_direction_to_prot K dir coherent = Z.lor prot (IOMMU_WRITE K)) /\
  (dir <> DMA_BIDIRECTIONAL -> dir <> DMA_TO_DEVICE -> dir <> DMA_FROM_DEVICE ->
     dma_direction_to_prot K dir coherent = 0).
Proof.
  cbv zeta. unfold dma_direction_to_prot.
  repeat split.
  - intros ->. reflexivity.
  - intros ->. reflexivity.
  - intros ->. reflexivity.
  - intros H0 H1 H2.
    destruct (Z.eqb_spec dir DMA_BIDIRECTIONAL); [contradiction|].
    destruct (Z.eqb_spec dir DMA_TO_DEVICE); [contradiction|].
    destruct (Z.eqb_spec dir DMA_FROM_DEVICE); [contradiction|].
    reflexivity.
Qed.

Lemma dma_direction_to_prot_cases_witness :
  dma_direction_to_prot K4k DMA_BIDIRECTIONAL true = 7 /\
  dma_direction_to_prot K4k DMA_TO_DEVICE false = 1 /\
  dma_direction_to_prot K4k DMA_FROM_DEVICE true = 6 /\
  dma_direction_to_prot K4k DMA_NONE true = 0.
Proof.
  split; [|split; [|split]].
  - exact (proj1 (dma_direction_to_prot_cases K4k DMA_BIDIRECTIONAL true) eq_refl).
  - exact (proj1 (proj2 (dma_direction_to_prot_cases K4k DMA_TO_DEVICE false)) eq_refl).
  - exact (proj1 (proj2 (proj2 (dma_direction_to_prot_cases K4k DMA_FROM_DEVICE true))) eq_refl).
  - apply (proj2 (proj2 (proj2 (dma_direction_to_prot_cases K4k DMA_NONE true))));
      discriminate.
Defined.

(** ** Attaching a device *)

(** What [iommu_dma_attach_device] does on a live domain: the reference is
    taken before the backend is asked, and nothing on the failure path
    gives it back. *)
Lemma attach_device_run ops dev q d w ret domain' :
  dma_domains w !! q = Some d ->
  iommu_attach_device ops (domain d) (dev_id dev) = (ret, domain') ->
  iommu_dma_attach_device ops dev (Some q) w
  = Ret ret (mk_world (<[q := mk_dma_domain domain' (iovad d) (kref d + 1)]> (dma_domains w))
                      (if ret =? 0 then <[dev_id dev := q]> (archdata w) else archdata w)
                      (mm w)).
Proof.
  intros Hd Ha. unfold iommu_dma_attach_device. munfold. cbn.
  rewrite Hd. cbn. rewrite lookup_insert_eq. cbn. rewrite Ha. cbn.
  rewrite insert_insert_eq.
  destruct (ret =? 0); cbn; reflexivity.
Qed.

(** C2: a refused attach returns the error and leaves the device without a
    recorded domain, but the reference taken at entry is still held: the
    count is one above its value before the call. *)
Theorem attach_failure_keeps_reference :
  exists w1 w2 d1 d2,
    iommu_dma_create_domain K4k E_single ops_refuse 0 (2 ^ 32) world0
      = Ret (Some 0%nat) w1 /\
    dma_domains w1 !! 0%nat = Some d1 /\ kref d1 = 1 /\
    iommu_dma_attach_device ops_refuse dev0 (Some 0%nat) w1 = Ret (-19) w2 /\
    dma_domains w2 !! 0%nat = Some d2 /\ kref d2 = 2 /\
    archdata w2 !! dev_id dev0 = None /\ archdata w2 = archdata w1.
Proof.
  do 4 eexists. split; [vm_compute; reflexivity|].
  split; [vm_compute; reflexivity|].
  split; [reflexivity|].
  split; [vm_compute; reflexivity|].
  split; [vm_compute; reflexivity|].
  split; [reflexivity|].
  split; vm_compute; reflexivity.
Qed.

(** ** Creating a domain *)

Lemma ranges_disjoint base size lo hi :
  0 < size -> lo <= hi ->
  (forall x, base <= x < base + size -> ~ (lo <= x <= hi)) <->
  (hi < base \/ base + size <= lo).
Proof.
  intros Hs Hl. split.
  - intros Hd.
    destruct (Z_lt_dec hi base) as [|Hn1]; [left; assumption|].
    destruct (Z_le_dec (base + size) lo) as [|Hn2]; [right; assumption|].
    exfalso. apply (Hd (Z.max base lo)); lia.
  - intros [H|H] x Hx Hy; lia.
Qed.

(** C5: with a non-empty request that ends below 2^64, creation fails when
    the backend enforces an aperture that the request misses; otherwise the
    new domain has reference count 1, the granule is 1 shifted by the lowest
    set bit of the page-size bitmap, the backend object and an empty
    allocator are in place, and the frame range is that of the request
    with frame 0 left out, cut to the aperture only when the backend
    enforces one. *)
Theorem create_domain_spec K E ops base size w domain0 m1 :
  0 <= base -> 0 < size -> base + size < 2 ^ 64 ->
  0 < pgsize_bitmap ops < 2 ^ 64 ->
  kzalloc E (mm w) = Some m1 -> kalloc_ok E m1 = true ->
  domain_alloc ops (IOMMU_DOMAIN_UNMANAGED K) = Some domain0 ->
  0 <= aperture_start domain0 <= aperture_end domain0 ->
  let order := __ffs (pgsize_bitmap ops) in
  let outside :=
    forall x, base <= x < base + size ->
              ~ (aperture_start domain0 <= x <= aperture_end domain0) in
  (Z.testbit (pgsize_bitmap ops) order = true /\
   forall j, 0 <= j < order -> Z.testbit (pgsize_bitmap ops) j = false) /\
  (force_aperture domain0 = true -> outside ->
     iommu_dma_create_domain K E ops base size w = Ret None w) /\
  (~ (force_aperture domain0 = true /\ outside) ->
     exists p d,
       iommu_dma_create_domain K E ops base size w
       = Ret (Some p)
             (mk_world (<[p := d]> (dma_domains w)) (archdata w)
                       (mk_mm (live_pages (mm w)) (kobjs (mm w) + 2))) /\
       dma_domains w !! p = None /\
       kref d = 1 /\
       granule (iovad d) = 2 ^ order /\
       rbroot (iovad d) = [] /\
       start_pfn (iovad d)
       = (if force_aperture domain0
          then Z.max (Z.max 1 (base / 2 ^ order)) (aperture_start domain0 / 2 ^ order)
          else Z.max 1 (base / 2 ^ order)) /\
       dma_32bit_pfn (iovad d)
       = (if force_aperture domain0
          then Z.min ((base + size - 1) / 2 ^ order) (aperture_end domain0 / 2 ^ order)
          else (base + size - 1) / 2 ^ order) /\
       domain d = mk_domain (IOMMU_DOMAIN_UNMANAGED K) (force_aperture domain0)
                            (aperture_start domain0) (aperture_end domain0)
                            (pgtable domain0)).
Proof.
  intros Hb Hs Hw Hbm Hk1 Hk2 Hda Hap order outside.
  destruct (ffs_lowest _ Hbm) as (Ho & Hbit & Hlow). fold order in Ho, Hbit, Hlow.
  split; [split; assumption|].
  assert (Hout : outside <->
            (aperture_end domain0 < base \/ base + size <= aperture_start domain0)).
  { unfold outside. apply ranges_disjoint; lia. }
  assert (Hm1 : kfree m1 = mm w) by (eapply kfree_kzalloc; eassumption).
  split.
  - intros Hf Ho'. apply Hout in Ho'.
    unfold iommu_dma_create_domain. munfold. cbn.
    rewrite Hk1. cbn. rewrite Hda. cbn. rewrite Hf. cbn.
    rewrite (u64_id (base + size)) by lia.
    replace ((aperture_end domain0 <? base) || (base + size <=? aperture_start domain0))
      with true.
    2:{ symmetry. apply orb_true_iff.
        destruct Ho'; [left; apply Z.ltb_lt | right; apply Z.leb_le]; lia. }
    cbn. rewrite Hm1. rewrite world_eta. reflexivity.
  - intros Hn.
    unfold iommu_dma_create_domain. munfold. cbn.
    rewrite Hk1. cbn. rewrite Hda. cbn.
    rewrite (u64_id (base + size)) by lia.
    rewrite (u64_id (base + size - 1)) by lia.
    replace (force_aperture domain0
             && ((aperture_end domain0 <? base) || (base + size <=? aperture_start domain0)))
      with false.
    2:{ symmetry. apply andb_false_iff.
        destruct (force_aperture domain0); [right | left; reflexivity].
        apply orb_false_iff. split; [apply Z.ltb_ge | apply Z.leb_gt].
        - destruct (Z_lt_dec (aperture_end domain0) base); [|lia].
          exfalso. apply Hn. split; [reflexivity|]. apply Hout. lia.
        - destruct (Z_le_dec (base + size) (aperture_start domain0)); [|lia].
          exfalso. apply Hn. split; [reflexivity|]. apply Hout. lia. }
    unfold kzalloc at 1. rewrite Hk2. cbn.
    assert (Hmm : mk_mm (live_pages m1) (kobjs m1 + 1)
                  = mk_mm (live_pages (mm w)) (kobjs (mm w) + 2)).
    { unfold kzalloc in Hk1. destruct (kalloc_ok E (mm w)); [|discriminate].
      injection Hk1 as <-. cbn. f_equal. lia. }
    rewrite Hmm.
    eexists. eexists. split; [|split].
    + reflexivity.
    + apply not_elem_of_dom. apply is_fresh.
    + cbn. fold order.
      assert (Hg : u64 (Z.shiftl 1 order) = 2 ^ order).
      { rewrite Z.shiftl_1_l. apply u64_id.
        split; [apply Z.pow_nonneg; lia | apply Z.pow_lt_mono_r; lia]. }
      rewrite !Z.shiftr_div_pow2 by (apply Ho).
      repeat split; try reflexivity; try assumption.
Qed.

Lemma create_domain_spec_witness :
  exists p d,
    iommu_dma_create_domain K4k E_single ops_good 0 (2 ^ 32) world0
    = Ret (Some p) (mk_world (<[p := d]> ∅) ∅ (mk_mm ∅ 2)) /\
    kref d = 1 /\ granule (iovad d) = 4096.
Proof.
  destruct (create_domain_spec K4k E_single ops_good 0 (2 ^ 32) world0
              fresh_domain (mk_mm ∅ 1)) as (_ & _ & H);
    try reflexivity; try (cbn; lia).
  destruct H as (p & d & Hrun & _ & Hk & Hg & _).
  - intros [_ Hout]. apply (Hout 0); cbn; lia.
  - exists p, d. split; [exact Hrun|]. split; [exact Hk|].
    rewrite Hg. reflexivity.
Defined.

(** C5 as stated fails for a backend that reports an aperture without
    enforcing it (here the zeroed geometry of a driver that sets none): the
    frame range is the whole request and not its intersection with the
    aperture. *)
Lemma create_domain_unenforced_aperture_not_clipped :
  exists w' d,
    iommu_dma_create_domain K4k E_single ops_nogeom 0 (2 ^ 32) world0
      = Ret (Some 0%nat) w' /\
    dma_domains w' !! 0%nat = Some d /\
    force_aperture (domain d) = false /\
    aperture_start (domain d) = 0 /\ aperture_end (domain d) = 0 /\
    start_pfn (iovad d) = 1 /\ dma_32bit_pfn (iovad d) = 1048575 /\
    ~ (dma_32bit_pfn (iovad d) <= Z.shiftr (aperture_end (domain d)) 12).
Proof.
  do 2 eexists.
  split; [vm_compute; reflexivity|]. split; [vm_compute; reflexivity|].
  repeat (split; [reflexivity|]).
  vm_compute. intros H. apply H. reflexivity.
Qed.

(** ** The allocator *)

Lemma fold_min_In l : forall x, fold_left Z.min l x = x \/ In (fold_left Z.min l x) l.
Proof.
  induction l as [|y l IH]; intros x; cbn; [left; reflexivity|].
  destruct (IH (Z.min x y)) as [H|H].
  - rewrite H. destruct (Z.min_spec x y) as [[_ ->]|[_ ->]]; auto.
  - right. right. exact H.
Qed.

Lemma lowest_In l x : lowest l = Some x -> In x l.
Proof.
  destruct l as [|y l]; [discriminate|]. cbn. intros [= <-].
  destruct (fold_min_In l y) as [->|H]; [left; reflexivity | right; exact H].
Qed.

Lemma alloc_iova_spec iovad size limit al i iovad' :
  alloc_iova iovad size limit al = Some (i, iovad') ->
  iova_fits iovad size limit (pfn_lo i) = true /\
  pfn_hi i = pfn_lo i + size - 1 /\
  iovad' = mk_iovad (granule iovad) (start_pfn iovad) (dma_32bit_pfn iovad)
                    (i :: rbroot iovad).
Proof.
  unfold alloc_iova.
  destruct (lowest _) as [lo|] eqn:Hl; [|discriminate].
  intros [= <- <-]. cbn.
  apply lowest_In in Hl. apply filter_In in Hl. destruct Hl as [_ Hf].
  split; [exact Hf|]. split; reflexivity.
Qed.

Lemma alloc_iova_bounds iovad size limit al i iovad' :
  alloc_iova iovad size limit al = Some (i, iovad') ->
  start_pfn iovad <= pfn_lo i /\ pfn_hi i <= limit /\
  pfn_hi i <= dma_32bit_pfn iovad /\ pfn_hi i = pfn_lo i + size - 1.
Proof.
  intros H. apply alloc_iova_spec in H. destruct H as (Hf & Hh & _).
  unfold iova_fits in Hf.
  apply andb_true_iff in Hf. destruct Hf as [Hf _].
  apply andb_true_iff in Hf. destruct Hf as [H1 H2].
  apply Z.leb_le in H1. apply Z.leb_le in H2. lia.
Qed.

Lemma iova_eqb_refl i : iova_eqb i i = true.
Proof. unfold iova_eqb. rewrite !Z.eqb_refl. reflexivity. Qed.

(** Giving back the interval just reserved leaves the allocator as it was. *)
Lemma free_alloc_iova iovad size limit al i iovad' :
  alloc_iova iovad size limit al = Some (i, iovad') ->
  __free_iova iovad' i = iovad.
Proof.
  intros H. apply alloc_iova_spec in H. destruct H as (_ & _ & ->).
  unfold __free_iova. cbn. rewrite iova_eqb_refl. by destruct iovad.
Qed.

(** ** Symbolic runs of the allocator entry points *)

Lemma alloc_iova_run dev size coherent w q d :
  attached w dev q d ->
  __alloc_iova dev size coherent w
  = match alloc_iova (iovad d)
            (Z.shiftr (iova_align (iovad d) size) (iova_shift (iovad d)))
            (Z.shiftr (if coherent then coherent_dma_mask dev else dma_get_mask dev)
                      (iova_shift (iovad d))) true with
    | None => Ret None w
    | Some (i, iovad') =>
        Ret (Some i) (set_dom w q (mk_dma_domain (domain d) iovad' (kref d)))
    end.
Proof.
  intros [Ha Hd]. unfold __alloc_iova. munfold. cbn. rewrite Ha, Hd. cbn.
  destruct (alloc_iova _ _ _ _) as [[i iovad']|]; reflexivity.
Qed.

Lemma unmap_run ops w q d dma_addr :
  dma_domains w !! q = Some d ->
  __iommu_dma_unmap ops (Some q) dma_addr w
  = match find_iova (iovad d) (Z.shiftr dma_addr (iova_shift (iovad d))) with
    | None => Bug
    | Some i =>
        let size := u64 (Z.shiftl (iova_size i) (iova_shift (iovad d))) in
        let r := iommu_unmap ops (domain d)
                   (u64 (Z.shiftl (Z.shiftr dma_addr (iova_shift (iovad d)))
                                  (iova_shift (iovad d)))) size in
        if fst r <? size then Bug
        else Ret tt (set_dom w q (mk_dma_domain (snd r) (__free_iova (iovad d) i) (kref d)))
    end.
Proof.
  intros Hd. unfold __iommu_dma_unmap. munfold. cbn. rewrite Hd. cbn.
  destruct (find_iova _ _) as [i|]; [|reflexivity].
  destruct (iommu_unmap _ _ _ _) as [n domain'] eqn:Hu. cbn.
  destruct (n <? _); reflexivity.
Qed.

(** ** Scatter-gather lists *)

Ltac wrap_lia :=
  unfold u32, u64 in *;
  change (2 ^ 32) with 4294967296 in *;
  change (2 ^ 64) with 18446744073709551616 in *;
  Z.div_mod_to_equations; lia.

Lemma rewrite_sg_fst iovad sg : forall acc,
  fst (rewrite_sg iovad sg acc) = map (fun s => fst (rewrite_one iovad s)) sg.
Proof.
  induction sg as [|s rest IH]; intros acc; [reflexivity|].
  cbn [rewrite_sg map]. destruct (rewrite_one iovad s) as [s' l].
  specialize (IH (u64 (acc + l))).
  destruct (rewrite_sg iovad rest (u64 (acc + l))) as [rest' tot].
  cbn [fst] in *. rewrite IH. reflexivity.
Qed.

Lemma ALIGN_zero g : 0 < g <= 2 ^ 64 -> ALIGN 0 g = 0.
Proof.
  intros Hg. unfold ALIGN. rewrite Z.add_0_l, u64_id by lia.
  apply Z.land_lnot_diag.
Qed.

(** One segment through the rewrite and then the invalidate pass. *)
Lemma invalidate_rewrite_one iovad s :
  0 < granule iovad <= 2 ^ 64 ->
  sg_wf s ->
  length s <> 0 \/ iova_offset iovad (offset s) = 0 ->
  restored s (invalidate_one (fst (rewrite_one iovad s))).
Proof.
  intros Hg (Ho & Hl & _) Hne. unfold restored, invalidate_one, rewrite_one. cbn.
  assert (Hoff : (offset s =? DMA_ERROR_CODE) = false).
  { apply Z.eqb_neq. unfold DMA_ERROR_CODE. lia. }
  rewrite Hoff. rewrite !(u32_id (offset s)) by lia.
  rewrite (u32_id (length s)) by lia.
  split; [reflexivity|]. split; [reflexivity|].
  split; [|split; reflexivity].
  destruct (Z.eqb_spec (length s) 0) as [Hz|Hz]; [|reflexivity].
  destruct Hne as [Hne|Hne]; [contradiction|].
  rewrite Hz, Hne. cbn. unfold iova_align.
  change (u64 0) with 0. rewrite ALIGN_zero by assumption. reflexivity.
Qed.

Lemma invalidate_rewrite iovad sg acc :
  0 < granule iovad <= 2 ^ 64 ->
  Forall sg_wf sg ->
  Forall (fun s => length s <> 0 \/ iova_offset iovad (offset s) = 0) sg ->
  Forall2 restored sg (__invalidate_sg (fst (rewrite_sg iovad sg acc))).
Proof.
  intros Hg Hwf Hne. rewrite rewrite_sg_fst. unfold __invalidate_sg.
  induction sg as [|s rest IH]; cbn; [constructor|].
  inversion Hwf; subst. inversion Hne; subst.
  constructor; [apply invalidate_rewrite_one; assumption | apply IH; assumption].
Qed.

Lemma map_sg_run K ops dev sg prot coherent w q d :
  attached w dev q d ->
  iommu_dma_map_sg K ops dev sg prot coherent w
  = let sg1 := fst (rewrite_sg (iovad d) sg 0) in
    let iova_len := snd (rewrite_sg (iovad d) sg 0) in
    match alloc_iova (iovad d)
            (Z.shiftr (iova_align (iovad d) iova_len) (iova_shift (iovad d)))
            (Z.shiftr (if coherent then coherent_dma_mask dev else dma_get_mask dev)
                      (iova_shift (iovad d))) true with
    | None => Ret (0, __invalidate_sg sg1) w
    | Some (i, iovad') =>
        let dma_addr := iova_dma_addr iovad' i in
        let r := iommu_map_sg ops (domain d) dma_addr sg1 prot in
        if fst r <? iova_len then
          Ret (0, __invalidate_sg sg1)
              (set_dom w q (mk_dma_domain (snd r) (__free_iova iovad' i) (kref d)))
        else
          let off := u64 (Z.shiftl (dma_pfn_offset dev) (PAGE_SHIFT K)) in
          if dma_addr <? off then Bug
          else Ret (__finalise_sg dev sg1 (dma_addr - off))
                   (set_dom w q (mk_dma_domain (snd r) iovad' (kref d)))
    end.
Proof.
  intros Hat. unfold iommu_dma_map_sg.
  unfold mbind at 1. unfold M_bind at 1. unfold arch_get_dma_domain at 1.
  destruct Hat as [Ha Hd]. rewrite Ha.
  unfold mbind at 1. unfold M_bind at 1. unfold load at 1. rewrite Hd.
  destruct (rewrite_sg (iovad d) sg 0) as [sg1 iova_len]. cbn [fst snd].
  unfold mbind at 1. unfold M_bind at 1.
  rewrite (alloc_iova_run dev iova_len coherent w q d) by (split; assumption).
  destruct (alloc_iova _ _ _ _) as [[i iovad']|]; [|reflexivity].
  unfold set_dom, free_iova_m, dev_dma_addr. munfold. cbn.
  rewrite lookup_insert_eq. cbn.
  destruct (iommu_map_sg ops (domain d) (iova_dma_addr iovad' i) sg1 prot)
    as [mapped domain'] eqn:Hm. cbn.
  rewrite insert_insert_eq.
  destruct (mapped <? iova_len); cbn.
  - rewrite lookup_insert_eq. cbn. rewrite insert_insert_eq. reflexivity.
  - destruct (iova_dma_addr iovad' i <? _); reflexivity.
Qed.

(** C3: on a list whose segments each have a non-zero length or an offset
    that is a multiple of the granule, a failing [iommu_dma_map_sg] (no IOVA
    space, or fewer bytes mapped than the padded total) returns 0, has given
    the interval back, and leaves every segment with its original offset
    and length and with the dma fields at the error sentinel and zero. *)
Theorem map_sg_failure_restores K ops dev sg prot (coherent : bool) w q d :
  attached w dev q d ->
  0 < granule (iovad d) <= 2 ^ 64 ->
  Forall sg_wf sg ->
  Forall (fun s => length s <> 0 \/ iova_offset (iovad d) (offset s) = 0) sg ->
  let sg1 := fst (rewrite_sg (iovad d) sg 0) in
  let iova_len := snd (rewrite_sg (iovad d) sg 0) in
  let reserve :=
    alloc_iova (iovad d)
      (Z.shiftr (iova_align (iovad d) iova_len) (iova_shift (iovad d)))
      (Z.shiftr (if coherent then coherent_dma_mask dev else dma_get_mask dev)
                (iova_shift (iovad d))) true in
  (reserve = None \/
   exists i iovad', reserve = Some (i, iovad') /\
     fst (iommu_map_sg ops (domain d) (iova_dma_addr iovad' i) sg1 prot) < iova_len) ->
  exists sg' w',
    iommu_dma_map_sg K ops dev sg prot coherent w = Ret (0, sg') w' /\
    sg' = __invalidate_sg sg1 /\
    Forall2 restored sg sg' /\
    exists d', dma_domains w' !! q = Some d' /\ iovad d' = iovad d.
Proof.
  intros Hat Hg Hwf Hne sg1 iova_len reserve Hfail.
  rewrite (map_sg_run K ops dev sg prot coherent w q d Hat).
  subst reserve iova_len sg1. cbv zeta.
  set (sg1 := fst (rewrite_sg (iovad d) sg 0)) in *.
  assert (Hres : Forall2 restored sg (__invalidate_sg sg1))
    by (apply invalidate_rewrite; assumption).
  destruct Hfail as [Hnone | (i & iovad' & Hsome & Hshort)].
  - rewrite Hnone. exists (__invalidate_sg sg1), w.
    repeat split; try assumption.
    exists d. split; [apply Hat | reflexivity].
  - rewrite Hsome. apply Z.ltb_lt in Hshort. rewrite Hshort.
    eexists. eexists. split; [reflexivity|].
    split; [reflexivity|]. split; [assumption|].
    eexists. split; [apply lookup_insert_eq|]. cbn.
    eapply free_alloc_iova. exact Hsome.
Qed.

Lemma map_sg_failure_restores_witness :
  exists w',
    iommu_dma_map_sg K4k ops_partial dev0
      [mk_sg 5 100 200 0 0; mk_sg 6 0 4096 0 0] 3 false
      (world_attached K4k ops_partial)
    = Ret (0, [mk_sg 5 100 200 DMA_ERROR_CODE 0; mk_sg 6 0 4096 DMA_ERROR_CODE 0]) w'.
Proof.
  destruct (map_sg_failure_restores K4k ops_partial dev0
              [mk_sg 5 100 200 0 0; mk_sg 6 0 4096 0 0] 3 false
              (world_attached K4k ops_partial) 0%nat
              (mk_dma_domain (mk_domain 1 true 0 (2 ^ 32 - 1) []) iovad_4k 2))
    as (sg' & w' & Hrun & Hsg & _).
  - split; reflexivity.
  - cbn. lia.
  - repeat constructor; cbn; lia.
  - repeat constructor; cbn; lia.
  - right. exists (mk_iova 1 2). eexists. split; [reflexivity|].
    vm_compute. reflexivity.
  - exists w'. rewrite Hrun, Hsg. reflexivity.
Defined.

(** C3 as stated fails on a segment of length zero that does not start on a
    granule boundary: after the failed call its length is one granule. *)
Lemma map_sg_failure_keeps_padded_length :
  exists sg' w',
    iommu_dma_map_sg K4k ops_partial dev0
      [mk_sg 5 1 0 0 0; mk_sg 6 0 4096 0 0] 3 false
      (world_attached K4k ops_partial)
    = Ret (0, sg') w' /\
    sg' !! 0%nat = Some (mk_sg 5 1 4096 DMA_ERROR_CODE 0) /\
    ~ Forall2 restored [mk_sg 5 1 0 0 0; mk_sg 6 0 4096 0 0] sg'.
Proof.
  eexists. eexists. split; [vm_compute; reflexivity|].
  split; [reflexivity|].
  intros H. inversion H as [|? ? ? ? Hr _]; subst.
  destruct Hr as (_ & _ & Hl & _). cbn in Hl. discriminate.
Qed.

(** ** The finalise pass *)

Lemma sg_weight_app l1 l2 : sg_weight (l1 ++ l2) = sg_weight l1 + sg_weight l2.
Proof.
  induction l1 as [|x l1 IH]; [reflexivity|].
  change (seg_weight x + sg_weight (l1 ++ l2)
          = seg_weight x + sg_weight l1 + sg_weight l2).
  rewrite IH. lia.
Qed.

Lemma seg_weight_nonneg s : sg_wf s -> 0 <= seg_weight s.
Proof.
  intros (_ & Hl & Hd & _). unfold seg_weight.
  pose proof (u32_range (dma_address s)). lia.
Qed.

Lemma sg_weight_nonneg sg : Forall sg_wf sg -> 0 <= sg_weight sg.
Proof.
  induction 1 as [|s sg Hs _ IH]; [cbn; lia|].
  change (0 <= seg_weight s + sg_weight sg).
  pose proof (seg_weight_nonneg s Hs). lia.
Qed.

Lemma sg_weight_take sg i :
  Forall sg_wf sg -> sg_weight (take i sg) <= sg_weight sg.
Proof.
  intros Hwf.
  pose proof (sg_weight_app (take i sg) (drop i sg)) as Happ.
  rewrite take_drop in Happ.
  assert (0 <= sg_weight (drop i sg)).
  { apply sg_weight_nonneg. apply Forall_drop. exact Hwf. }
  lia.
Qed.

Lemma sg_weight_take_S sg i s :
  sg !! i = Some s -> sg_weight (take (S i) sg) = sg_weight (take i sg) + seg_weight s.
Proof.
  intros H. rewrite (take_S_r _ _ _ H), sg_weight_app.
  change (sg_weight [s]) with (seg_weight s + 0). lia.
Qed.

Section Finalise.
Variables (seg_mask max_len : Z) (sg0 : list scatterlist).
Hypothesis Hwf : Forall sg_wf sg0.
Hypothesis Hfit : Forall (seg_fits max_len) sg0.
Hypothesis Hweight : sg_weight sg0 < 2 ^ 32.

Lemma fin_inv_init dma_addr c : fin_inv max_len sg0 0 (mk_fin sg0 0 0 0 dma_addr c).
Proof.
  constructor; cbn.
  - reflexivity.
  - reflexivity.
  - intros k e Hk. lia.
  - split; [lia | intros H; contradiction].
  - intros H; contradiction.
  - rewrite take_0. unfold sg_weight. cbn. lia.
Qed.

Lemma fin_inv_step i st s :
  fin_inv max_len sg0 i st -> sg0 !! i = Some s ->
  fin_inv max_len sg0 (S i) (finalise_step seg_mask max_len i st).
Proof.
  intros [Hlen Hrest Hdone [Hseg1 Hseg2] Hrun Hslen] Hs.
  assert (Hi : (i < List.length sg0)%nat) by (eapply lookup_lt_Some; eassumption).
  assert (Hcur : f_sg st !! i = Some s) by (rewrite Hrest by lia; exact Hs).
  assert (Hwfs : sg_wf s) by (eapply Forall_lookup_1; eassumption).
  assert (Hfs : seg_fits max_len s) by (eapply Forall_lookup_1; eassumption).
  destruct Hwfs as (Hoff & Hl & Hdl & Hda).
  destruct Hfs as [Hf1 Hf2].
  pose proof (u32_range (dma_address s)) as Ho.
  pose proof (sg_weight_take_S sg0 i s Hs) as HwS.
  pose proof (sg_weight_take sg0 (S i) Hwf) as HwT.
  unfold seg_weight in HwS.
  unfold finalise_step. rewrite Hcur.
  set (reset := mk_sg (page s) (u32 (dma_address s)) (dma_length s) DMA_ERROR_CODE 0).
  set (cond := negb (f_seg_len st =? 0) && _ && _ && _).
  destruct cond eqn:Hc; subst cond.
  - (* the segment is merged into the current run *)
    apply andb_true_iff in Hc. destruct Hc as [Hc _].
    apply andb_true_iff in Hc. destruct Hc as [Hc Hb].
    apply andb_true_iff in Hc. destruct Hc as [Hnz Ha].
    apply negb_true_iff, Z.eqb_neq in Hnz.
    apply Z.eqb_eq in Ha. apply Z.leb_le in Hb.
    specialize (Hseg2 Hnz). destruct (Hrun Hnz) as (e & He & Hrel).
    assert (Hbound : 0 <= dma_length e <= max_len) by (eapply Hdone; eassumption).
    assert (Hnew : 0 <= u32 (dma_length e + length s) <= max_len) by wrap_lia.
    constructor; cbn.
    + rewrite length_alter, length_insert. exact Hlen.
    + intros k Hk. rewrite list_lookup_alter_ne by lia.
      rewrite list_lookup_insert_ne by lia. apply Hrest. lia.
    + intros k e' Hk Hlk.
      destruct (decide (k = f_seg st)) as [->|Hne].
      * rewrite list_lookup_alter_eq, list_lookup_insert_ne, He in Hlk by lia.
        cbn in Hlk. injection Hlk as <-. cbn. exact Hnew.
      * rewrite list_lookup_alter_ne in Hlk by congruence.
        destruct (decide (k = i)) as [->|Hni].
        -- rewrite list_lookup_insert_eq in Hlk by lia.
           injection Hlk as <-. cbn. lia.
        -- rewrite list_lookup_insert_ne in Hlk by congruence.
           eapply Hdone; [|exact Hlk]. lia.
    + split; intros; lia.
    + intros _. eexists. split.
      * rewrite list_lookup_alter_eq, list_lookup_insert_ne, He by lia. reflexivity.
      * cbn. clear - Hrel. wrap_lia.
    + wrap_lia.
  - (* the segment starts a run *)
    set (seg := if f_seg_len st =? 0 then f_seg st else S (f_seg st)).
    assert (Hseg : (seg <= i)%nat).
    { subst seg. destruct (Z.eqb_spec (f_seg_len st) 0); [lia|].
      specialize (Hseg2 ltac:(assumption)). lia. }
    assert (Hlk1 : is_Some ((<[i := reset]> (f_sg st)) !! seg)).
    { apply lookup_lt_is_Some. rewrite length_insert. lia. }
    destruct Hlk1 as [e1 He1].
    constructor; cbn.
    + rewrite length_alter, length_insert. exact Hlen.
    + intros k Hk. rewrite list_lookup_alter_ne by lia.
      rewrite list_lookup_insert_ne by lia. apply Hrest. lia.
    + intros k e' Hk Hlk.
      destruct (decide (k = seg)) as [->|Hne].
      * rewrite list_lookup_alter_eq, He1 in Hlk. cbn in Hlk.
        injection Hlk as <-. cbn. wrap_lia.
      * rewrite list_lookup_alter_ne in Hlk by congruence.
        destruct (decide (k = i)) as [->|Hni].
        -- rewrite list_lookup_insert_eq in Hlk by lia.
           injection Hlk as <-. cbn. lia.
        -- rewrite list_lookup_insert_ne in Hlk by congruence.
           eapply Hdone; [|exact Hlk]. lia.
    + split; intros; lia.
    + intros _. eexists. split.
      * rewrite list_lookup_alter_eq, He1. reflexivity.
      * cbn. wrap_lia.
    + wrap_lia.
Qed.

Lemma fin_inv_loop n : forall i st,
  fin_inv max_len sg0 i st -> (i + n = List.length sg0)%nat ->
  fin_inv max_len sg0 (i + n) (finalise_loop seg_mask max_len n i st).
Proof.
  induction n as [|n IH]; intros i st Hinv Hn; cbn [finalise_loop].
  - rewrite Nat.add_0_r. exact Hinv.
  - destruct (lookup_lt_is_Some_2 sg0 i ltac:(lia)) as [s Hs].
    replace (i + S n)%nat with (S i + n)%nat by lia.
    apply IH; [|lia]. eapply fin_inv_step; eassumption.
Qed.
End Finalise.

(** C4: when every segment handed to the finalise pass would fit within
    [max_len] on its own (padded length minus offset), its stored offset
    does not exceed its padded length, and the offsets and lengths of the
    list add up to less than 2^32, every segment the pass emits has a dma
    length of at most [max_len]. *)
Theorem finalise_merge_bound dev sg dma_addr :
  Forall sg_wf sg ->
  Forall (seg_fits (dma_get_max_seg_size dev)) sg ->
  sg_weight sg < 2 ^ 32 ->
  forall (k : nat) s,
    Z.of_nat k < fst (__finalise_sg dev sg dma_addr) ->
    snd (__finalise_sg dev sg dma_addr) !! k = Some s ->
    dma_length s <= dma_get_max_seg_size dev.
Proof.
  intros Hwf Hfit Hw k s _ Hlk. unfold __finalise_sg in Hlk. cbn [snd] in Hlk.
  pose proof (fin_inv_loop (dma_get_seg_boundary dev) (dma_get_max_seg_size dev)
                sg Hwf Hfit Hw (List.length sg) 0
                (mk_fin sg 0 0 0 dma_addr 1)
                (fin_inv_init _ _ _ _) eq_refl) as Hinv.
  cbn [Nat.add] in Hinv.
  assert (Hk : (k < List.length sg)%nat).
  { rewrite <- (inv_len _ _ _ _ Hinv). eapply lookup_lt_Some. exact Hlk. }
  apply (inv_done _ _ _ _ Hinv k s Hk Hlk).
Qed.

Lemma finalise_merge_bound_witness :
  snd (__finalise_sg dev0 [mk_sg 5 0 4096 0 4096; mk_sg 6 0 4096 0 4096] 4096) !! 0%nat
  = Some (mk_sg 5 0 4096 4096 8192) /\
  8192 <= 65536.
Proof.
  split; [reflexivity|].
  apply (finalise_merge_bound dev0 [mk_sg 5 0 4096 0 4096; mk_sg 6 0 4096 0 4096]
           4096 ltac:(repeat constructor; cbn; lia)
           ltac:(repeat constructor; vm_compute; discriminate)
           ltac:(vm_compute; reflexivity)
           0%nat (mk_sg 5 0 4096 4096 8192)).
  - vm_compute. reflexivity.
  - reflexivity.
Defined.

(** C4 as stated fails: a single segment of 65536 bytes that starts one
    byte into a granule is emitted with a dma length of 69631 by a device
    whose maximum segment size is 65536. *)
Lemma finalise_emits_overlong_segment :
  exists w',
    iommu_dma_map_sg K4k ops_good dev0 [mk_sg 5 1 65536 0 0] 3 false
      (world_attached K4k ops_good)
    = Ret (__finalise_sg dev0 (fst (rewrite_sg iovad_4k [mk_sg 5 1 65536 0 0] 0)) 4096) w' /\
    __finalise_sg dev0 (fst (rewrite_sg iovad_4k [mk_sg 5 1 65536 0 0] 0)) 4096
    = (1, [mk_sg 5 1 65536 4097 69631]) /\
    ~ (69631 <= dma_get_max_seg_size dev0).
Proof.
  eexists. split; [vm_compute; reflexivity|].
  split; [vm_compute; reflexivity|].
  vm_compute. intros H. apply H. reflexivity.
Qed.

(** ** Acquiring pages *)

Lemma higher_order_le K E o : forall page m gfp page' o' m',
  higher_order K E o page m gfp = (page', o', m') -> (o' <= o)%nat.
Proof.
  induction o as [|o IH]; intros page m gfp page' o' m'; cbn [higher_order].
  - intros [= _ <- _]. lia.
  - destruct (alloc_pages E m _ _) as [[p m1]|].
    + destruct (PageCompound E m1 p).
      * destruct (split_huge_page E m1 p =? 0).
        -- intros [= _ <- _]. lia.
        -- intros H. apply IH in H. lia.
      * intros [= _ <- _]. lia.
    + intros H. apply IH in H. lia.
Qed.


Lemma fill_length j : forall pages i p, List.length (fill pages i p j) = List.length pages.
Proof.
  induction j as [|j IH]; intros pages i p; cbn [fill]; [reflexivity|].
  rewrite IH. apply length_insert.
Qed.

Lemma fill_filled j : forall pages i p k,
  (i + j <= List.length pages)%nat ->
  (forall k', (k' < i)%nat -> slot_filled pages k') ->
  (k < i + j)%nat -> slot_filled (fill pages i p j) k.
Proof.
  induction j as [|j IH]; intros pages i p k Hlen Hpre Hk; cbn [fill].
  - apply Hpre. lia.
  - apply IH.
    + rewrite length_insert. lia.
    + intros k' Hk'. destruct (decide (k' = i)) as [->|Hne].
      * exists p. apply list_lookup_insert_eq. lia.
      * destruct (Hpre k' ltac:(lia)) as [x Hx]. exists x.
        rewrite list_lookup_insert_ne by congruence. exact Hx.
    + lia.
Qed.

Lemma free_pages_loop_filled pages n : forall m,
  (forall k, (k < n)%nat -> slot_filled pages k) ->
  is_Some (free_pages_loop pages n m).
Proof.
  induction n as [|n IH]; intros m Hf; cbn [free_pages_loop]; [by eexists|].
  destruct (Hf n ltac:(lia)) as [p Hp]. rewrite Hp.
  apply IH. intros k Hk. apply Hf. lia.
Qed.

Lemma free_pages_filled pages i m :
  (forall k, (k < i)%nat -> slot_filled pages k) ->
  is_Some (__iommu_dma_free_pages pages (Z.of_nat i) m).
Proof.
  intros Hf. unfold __iommu_dma_free_pages.
  destruct (Z.ltb_spec (Z.of_nat i) 0); [lia|].
  rewrite Nat2Z.id.
  destruct (free_pages_loop_filled pages i m Hf) as [m' ->]. by eexists.
Qed.

Lemma pow2_order_le count o :
  0 < count -> (Z.of_nat o <= Z.log2 count) -> 1 <= 2 ^ Z.of_nat o <= count.
Proof.
  intros Hc Ho. split.
  - assert (0 < 2 ^ Z.of_nat o) by (apply Z.pow_pos_nonneg; lia). lia.
  - destruct (Z.log2_spec count Hc) as [Hl _].
    etransitivity; [|exact Hl]. apply Z.pow_le_mono_r; lia.
Qed.

Lemma all_filled_Forall (pages : page_array) :
  (forall k, (k < List.length pages)%nat -> slot_filled pages k) ->
  Forall is_Some pages.
Proof.
  intros H. apply Forall_lookup. intros k x Hx.
  destruct (H k) as [p Hp]; [eapply lookup_lt_Some; exact Hx|].
  rewrite Hp in Hx. injection Hx as <-. by eexists.
Qed.

Lemma alloc_pages_loop_spec K E gfp fuel : forall pages i count m,
  0 <= count < 2 ^ 32 ->
  Z.of_nat i + count = Z.of_nat (List.length pages) ->
  count <= Z.of_nat fuel ->
  (forall k, (k < i)%nat -> slot_filled pages k) ->
  match alloc_pages_loop K E fuel pages i count gfp m with
  | Filled pages' m' =>
      List.length pages' = List.length pages /\ Forall is_Some pages'
  | NoMemory m' => exists m1, alloc_page E m1 gfp = None
  | WildFree | OutOfFuel => False
  end.
Proof.
  induction fuel as [|fuel IH]; intros pages i count m Hc Hsum Hfuel Hpre.
  - cbn [alloc_pages_loop]. destruct (Z.eqb_spec count 0); [|lia].
    split; [reflexivity|]. apply all_filled_Forall.
    intros k Hk. apply Hpre. lia.
  - cbn [alloc_pages_loop]. destruct (Z.eqb_spec count 0) as [Hz|Hnz].
    { split; [reflexivity|]. apply all_filled_Forall.
      intros k Hk. apply Hpre. lia. }
    destruct (higher_order K E _ None m gfp) as [[page o'] m1] eqn:Hh.
    apply higher_order_le in Hh.
    assert (Ho : Z.of_nat o' <= Z.log2 count).
    { pose proof (Z.log2_nonneg count). unfold __fls in Hh. lia. }
    destruct (pow2_order_le count o' ltac:(lia) Ho) as [Hj1 Hj2].
    set (got := match page with Some p => Some (p, m1) | None => alloc_page E m1 gfp end).
    assert (Hgot : got = None -> alloc_page E m1 gfp = None).
    { subst got. destruct page; [discriminate | auto]. }
    destruct got as [[p m2]|].
    + specialize (IH (fill pages i p (Z.to_nat (2 ^ Z.of_nat o')))
                     (i + Z.to_nat (2 ^ Z.of_nat o'))%nat
                     (u32 (count - 2 ^ Z.of_nat o')) m2).
      rewrite fill_length in IH.
      rewrite (u32_id (count - 2 ^ Z.of_nat o')) in * by lia.
      apply IH; try lia.
      intros k Hk. apply fill_filled; [lia | exact Hpre | exact Hk].
    + destruct (free_pages_filled pages i m1 Hpre) as [m2 ->].
      exists m1. apply Hgot. reflexivity.
Qed.

(** The three ways a run of [__iommu_dma_alloc_pages] can end. *)
Lemma alloc_pages_result K E count gfp m :
  0 <= count < 2 ^ 32 ->
  match __iommu_dma_alloc_pages K E count gfp m with
  | Filled pages m' =>
      List.length pages = Z.to_nat count /\ Forall is_Some pages
  | NoMemory m' =>
      kalloc_ok E m = false \/ exists m1, alloc_page E m1 gfp = None
  | WildFree | OutOfFuel => False
  end.
Proof.
  intros Hc. unfold __iommu_dma_alloc_pages, kzalloc.
  destruct (kalloc_ok E m) eqn:Hk; [|left; reflexivity].
  pose proof (alloc_pages_loop_spec K E gfp (Z.to_nat count)
                (replicate (Z.to_nat count) None) 0 count
                (mk_mm (live_pages m) (kobjs m + 1)) Hc) as Hl.
  rewrite length_replicate in Hl.
  specialize (Hl ltac:(lia) ltac:(lia) ltac:(intros k Hk0; lia)).
  destruct (alloc_pages_loop K E _ _ _ _ _ _) as [pages m'|m'| |];
    try contradiction.
  - exact Hl.
  - right. exact Hl.
Qed.



(** ** Symbolic run of [iommu_dma_alloc] *)

Lemma alloc_run K E ops dev size gfp prot (coherent : bool) w q d :
  attached w dev q d ->
  iommu_dma_alloc K E ops dev size gfp prot coherent w
  = let count := u32 (Z.shiftr (PAGE_ALIGN K size) (PAGE_SHIFT K)) in
    let gfp' := Z.lor gfp (Z.lor (__GFP_NOWARN K) (__GFP_HIGHMEM K)) in
    match __iommu_dma_alloc_pages K E count gfp' (mm w) with
    | OutOfFuel | WildFree => Bug
    | NoMemory m' => Ret (None, DMA_ERROR_CODE) (set_mm w m')
    | Filled pages m1 =>
      match alloc_iova (iovad d)
              (Z.shiftr (iova_align (iovad d) size) (iova_shift (iovad d)))
              (Z.shiftr (if coherent then coherent_dma_mask dev else dma_get_mask dev)
                        (iova_shift (iovad d))) true with
      | None =>
          match __iommu_dma_free_pages pages (s32 count) m1 with
          | Some m2 => Ret (None, DMA_ERROR_CODE) (set_mm w m2)
          | None => Bug
          end
      | Some (i, iovad') =>
        match kzalloc E m1 with
        | None =>
            match __iommu_dma_free_pages pages (s32 count) m1 with
            | Some m2 =>
                Ret (None, DMA_ERROR_CODE)
                    (set_mm (set_dom w q (mk_dma_domain (domain d)
                                            (__free_iova iovad' i) (kref d))) m2)
            | None => Bug
            end
        | Some m2 =>
          let dma_addr := iova_dma_addr iovad' i in
          let r := iommu_map_sg ops (domain d) dma_addr (pages_to_sg K pages size) prot in
          if fst r <? size then
            match __iommu_dma_free_pages pages (s32 count) (kfree m2) with
            | Some m3 =>
                Ret (None, DMA_ERROR_CODE)
                    (set_mm (set_dom w q (mk_dma_domain (snd r)
                                            (__free_iova iovad' i) (kref d))) m3)
            | None => Bug
            end
          else
            Ret (Some pages, dma_addr)
                (set_mm (set_dom w q (mk_dma_domain (snd r) iovad' (kref d)))
                        (kfree m2))
        end
      end
    end.
Proof.
  intros [Ha Hd]. unfold iommu_dma_alloc.
  unfold mbind at 1. unfold M_bind at 1. unfold arch_get_dma_domain at 1. rewrite Ha.
  unfold mbind at 1. unfold M_bind at 1. unfold load at 1. rewrite Hd.
  unfold mbind at 1. unfold M_bind at 1. unfold get_mm at 1.
  cbv zeta.
  destruct (__iommu_dma_alloc_pages K E _ _ (mm w)) as [pages m1|m'| |];
    try reflexivity.
  unfold mbind at 1. unfold M_bind at 1. unfold put_mm at 1.
  unfold mbind at 1. unfold M_bind at 1.
  rewrite (alloc_iova_run dev size coherent _ q d) by (split; assumption).
  destruct (alloc_iova _ _ _ _) as [[i iovad']|].
  - unfold set_dom, set_mm, free_iova_m, free_pages_m, sg_free_table. munfold. cbn.
    destruct (kzalloc E m1) as [m2|]; cbn.
    + rewrite lookup_insert_eq. cbn.
      destruct (iommu_map_sg ops (domain d) (iova_dma_addr iovad' i) _ prot)
        as [mapped domain'] eqn:Hm. cbn.
      rewrite insert_insert_eq.
      destruct (mapped <? size); cbn.
      * rewrite lookup_insert_eq. cbn. rewrite insert_insert_eq.
        destruct (__iommu_dma_free_pages pages _ (kfree m2)); reflexivity.
      * reflexivity.
    + rewrite lookup_insert_eq. cbn. rewrite insert_insert_eq.
      destruct (__iommu_dma_free_pages pages _ m1); reflexivity.
  - unfold set_mm, free_pages_m. munfold. cbn.
    destruct (__iommu_dma_free_pages pages _ m1); reflexivity.
Qed.

(** ** Pages acquired and pages released *)

Lemma filled_ms_S (pages : page_array) n p :
  pages !! n = Some (Some p) ->
  filled_ms pages (S n) = filled_ms pages n ⊎ {[+ p +]}.
Proof.
  intros H. unfold filled_ms. rewrite (take_S_r _ _ _ H), omap_app.
  rewrite list_to_set_disj_app. change (omap id [Some p]) with [p].
  rewrite list_to_set_disj_cons, list_to_set_disj_nil. multiset_solver.
Qed.

Lemma block_0 p : block p 0 = {[+ p +]}.
Proof.
  unfold block. change (2 ^ 0) with 1.
  rewrite seqZ_cons by lia. rewrite seqZ_nil by lia.
  rewrite list_to_set_disj_cons, list_to_set_disj_nil. multiset_solver.
Qed.

Lemma free_pages_loop_live (pages : page_array) n : forall m m',
  free_pages_loop pages n m = Some m' ->
  live_pages m' = live_pages m ∖ filled_ms pages n /\ kobjs m' = kobjs m.
Proof.
  induction n as [|n IH]; intros m m'; cbn [free_pages_loop].
  - intros [= <-]. split; [|reflexivity].
    unfold filled_ms. rewrite take_0.
    change (omap id []) with (@nil Z). rewrite list_to_set_disj_nil.
    multiset_solver.
  - destruct (pages !! n) as [[p|]|] eqn:Hp; try discriminate.
    intros H. apply IH in H. destruct H as [Hl Hk].
    split; [|exact Hk]. rewrite Hl, (filled_ms_S _ _ _ Hp).
    unfold __free_page, __free_pages. cbn [live_pages]. rewrite block_0.
    clear. generalize (filled_ms pages n) (live_pages m). intros X Y.
    multiset_solver.
Qed.

Lemma filled_ms_fill j : forall (pages : page_array) i p,
  (i + j <= List.length pages)%nat ->
  filled_ms (fill pages i p j) (i + j)
  = filled_ms pages i ⊎ list_to_set_disj (seqZ p (Z.of_nat j)).
Proof.
  induction j as [|j IH]; intros pages i p Hlen; cbn [fill].
  - rewrite Nat.add_0_r. rewrite seqZ_nil by lia.
    rewrite list_to_set_disj_nil. multiset_solver.
  - replace (i + S j)%nat with (S i + j)%nat by lia.
    rewrite IH by (rewrite length_insert; lia).
    rewrite (filled_ms_S (<[i:=Some p]> pages) i p)
      by (apply list_lookup_insert_eq; lia).
    unfold filled_ms at 1. rewrite take_insert_ge by lia. fold (filled_ms pages i).
    rewrite (seqZ_cons p (Z.of_nat (S j))) by lia.
    replace (Z.pred (Z.of_nat (S j))) with (Z.of_nat j) by lia.
    replace (Z.succ p) with (p + 1) by lia.
    rewrite list_to_set_disj_cons.
    generalize (filled_ms pages i) (list_to_set_disj (seqZ (p + 1) (Z.of_nat j)) : gmultiset Z).
    intros X Y. multiset_solver.
Qed.

Section Restore.
Context (K : kconst) (E : kernel_env).
(** Every huge page the buddy allocator hands out can be split. *)
Hypothesis Hsplit : forall m p, PageCompound E m p = true -> split_huge_page E m p = 0.

Lemma higher_order_live gfp o : forall m page' o' m',
  higher_order K E o None m gfp = (page', o', m') ->
  kobjs m' = kobjs m /\
  match page' with
  | None => o' = O /\ live_pages m' = live_pages m
  | Some p => live_pages m' = live_pages m ⊎ block p (Z.of_nat o')
  end.
Proof.
  induction o as [|o IH]; intros m page' o' m'; cbn [higher_order].
  - intros [= <- <- <-]. auto.
  - unfold alloc_pages. destruct (buddy E m _ _) as [p|]; [|apply IH].
    destruct (PageCompound E _ p) eqn:Hc.
    + rewrite (Hsplit _ _ Hc). cbn. intros [= <- <- <-]. cbn. auto.
    + intros [= <- <- <-]. cbn. auto.
Qed.

Lemma alloc_pages_loop_live gfp live0 fuel : forall (pages : page_array) i count m pages' m',
  0 <= count < 2 ^ 32 ->
  Z.of_nat i + count = Z.of_nat (List.length pages) ->
  live_pages m = live0 ⊎ filled_ms pages i ->
  alloc_pages_loop K E fuel pages i count gfp m = Filled pages' m' ->
  live_pages m' = live0 ⊎ filled_ms pages' (List.length pages') /\
  kobjs m' = kobjs m.
Proof.
  induction fuel as [|fuel IH]; intros pages i count m pages' m' Hc Hsum Hlive;
    cbn [alloc_pages_loop].
  - destruct (Z.eqb_spec count 0); [|discriminate].
    intros [= <- <-]. replace (List.length pages) with i by lia. auto.
  - destruct (Z.eqb_spec count 0) as [Hz|Hnz].
    { intros [= <- <-]. replace (List.length pages) with i by lia. auto. }
    destruct (higher_order K E _ None m gfp) as [[page o'] m1] eqn:Hh.
    pose proof (higher_order_le _ _ _ _ _ _ _ _ _ Hh) as Hle.
    apply higher_order_live in Hh. destruct Hh as [Hk1 Hl1].
    assert (Ho : Z.of_nat o' <= Z.log2 count).
    { pose proof (Z.log2_nonneg count). unfold __fls in Hle. lia. }
    destruct (pow2_order_le count o' ltac:(lia) Ho) as [Hj1 Hj2].
    set (got := match page with Some p => Some (p, m1) | None => alloc_page E m1 gfp end).
    assert (Hgot : forall p m2, got = Some (p, m2) ->
              kobjs m2 = kobjs m /\
              live_pages m2 = live_pages m ⊎ block p (Z.of_nat o')).
    { subst got. intros p m2. destruct page as [p0|].
      - intros [= <- <-]. auto.
      - destruct Hl1 as [-> Hl1]. unfold alloc_page, alloc_pages.
        destruct (buddy E m1 gfp 0) as [p0|]; [|discriminate].
        intros [= <- <-]. cbn. rewrite Hl1. auto. }
    destruct got as [[p m2]|].
    + destruct (Hgot p m2 eq_refl) as [Hk2 Hl2].
      intros Hrec. rewrite <- Hk2.
      eapply IH; [| | |exact Hrec].
      * rewrite u32_id by lia. lia.
      * rewrite fill_length, u32_id by lia. lia.
      * rewrite filled_ms_fill by lia. rewrite Z2Nat.id by lia.
        rewrite Hl2, Hlive. unfold block.
        generalize (filled_ms pages i)
                   (list_to_set_disj (seqZ p (2 ^ Z.of_nat o')) : gmultiset Z).
        intros X Y. multiset_solver.
    + destruct (__iommu_dma_free_pages pages (Z.of_nat i) m1); discriminate.
Qed.

(** Releasing the pages just acquired leaves physical memory as it was. *)
Lemma free_alloc_pages count gfp m pages m' :
  0 <= count < 2 ^ 31 ->
  __iommu_dma_alloc_pages K E count gfp m = Filled pages m' ->
  __iommu_dma_free_pages pages (s32 count) m' = Some m.
Proof.
  intros Hc Hrun.
  pose proof (alloc_pages_result K E count gfp m ltac:(lia)) as Hres.
  rewrite Hrun in Hres. destruct Hres as [Hlen Hall].
  unfold __iommu_dma_alloc_pages, kzalloc in Hrun.
  destruct (kalloc_ok E m); [|discriminate].
  apply (alloc_pages_loop_live gfp (live_pages m)) in Hrun.
  2: lia.
  2: rewrite length_replicate; lia.
  2: { unfold filled_ms. rewrite take_0.
       change (omap id []) with (@nil Z). rewrite list_to_set_disj_nil.
       cbn [live_pages]. multiset_solver. }
  cbn in Hrun. destruct Hrun as [Hl Hk].
  assert (Hs : s32 count = count).
  { unfold s32. rewrite u32_id by lia. destruct (Z.ltb_spec count (2 ^ 31)); lia. }
  rewrite Hs. unfold __iommu_dma_free_pages.
  destruct (Z.ltb_spec count 0); [lia|].
  destruct (free_pages_loop_filled pages (Z.to_nat count) m') as [m2 Hm2].
  { intros k Hk0. rewrite <- Hlen in Hk0.
    destruct (lookup_lt_is_Some_2 pages k Hk0) as [x Hx].
    pose proof (Forall_lookup_1 _ _ _ _ Hall Hx) as [p ->]. by exists p. }
  rewrite Hm2. apply free_pages_loop_live in Hm2. destruct Hm2 as [Hl2 Hk2].
  f_equal. unfold kfree. destruct m as [lp ko], m2 as [lp2 ko2]. cbn in *.
  f_equal; [|lia]. rewrite Hl2, Hl, <- Hlen.
  generalize (filled_ms pages (List.length pages)). intros X. multiset_solver.
Qed.
End Restore.

(** ** Buffer allocation *)

(** C1: when the backend maps fewer bytes than requested, [iommu_dma_alloc]
    returns [NULL] with the handle at the error sentinel; the interval is
    back in the allocator and every page and the table are released, so
    allocator and physical memory are as before the call.  The glue layer
    issues no unmap: the translation state is what [iommu_map_sg] left. *)
Theorem alloc_map_failure_rolls_back K E ops dev size gfp prot (coherent : bool)
    w q d pages m1 i iovad' :
  attached w dev q d ->
  (forall m p, PageCompound E m p = true -> split_huge_page E m p = 0) ->
  u32 (Z.shiftr (PAGE_ALIGN K size) (PAGE_SHIFT K)) < 2 ^ 31 ->
  __iommu_dma_alloc_pages K E (u32 (Z.shiftr (PAGE_ALIGN K size) (PAGE_SHIFT K)))
    (Z.lor gfp (Z.lor (__GFP_NOWARN K) (__GFP_HIGHMEM K))) (mm w) = Filled pages m1 ->
  alloc_iova (iovad d)
    (Z.shiftr (iova_align (iovad d) size) (iova_shift (iovad d)))
    (Z.shiftr (if coherent then coherent_dma_mask dev else dma_get_mask dev)
              (iova_shift (iovad d))) true = Some (i, iovad') ->
  kalloc_ok E m1 = true ->
  fst (iommu_map_sg ops (domain d) (iova_dma_addr iovad' i)
         (pages_to_sg K pages size) prot) < size ->
  iommu_dma_alloc K E ops dev size gfp prot coherent w
  = Ret (None, DMA_ERROR_CODE)
        (set_dom w q
           (mk_dma_domain
              (snd (iommu_map_sg ops (domain d) (iova_dma_addr iovad' i)
                      (pages_to_sg K pages size) prot))
              (iovad d) (kref d))).
Proof.
  intros Hat Hsplit Hcount Hpages Hiova Hk Hshort.
  rewrite (alloc_run K E ops dev size gfp prot coherent w q d Hat). cbv zeta.
  rewrite Hpages, Hiova. unfold kzalloc. rewrite Hk.
  apply Z.ltb_lt in Hshort. rewrite Hshort.
  assert (Hkf : kfree (mk_mm (live_pages m1) (kobjs m1 + 1)) = m1).
  { apply (kfree_kzalloc E). unfold kzalloc. rewrite Hk. reflexivity. }
  rewrite Hkf.
  pose proof (u32_range (Z.shiftr (PAGE_ALIGN K size) (PAGE_SHIFT K))) as Hr.
  rewrite (free_alloc_pages K E Hsplit _ _ _ _ _ (conj (proj1 Hr) Hcount) Hpages).
  rewrite (free_alloc_iova _ _ _ _ _ _ Hiova).
  unfold set_mm, set_dom. cbn. reflexivity.
Qed.

Lemma alloc_map_failure_rolls_back_witness :
  iommu_dma_alloc K4k E_single ops_partial dev0 8192 0 3 true
    (world_attached K4k ops_partial)
  = Ret (None, DMA_ERROR_CODE)
        (set_dom (world_attached K4k ops_partial) 0%nat
           (mk_dma_domain (mk_domain 1 true 0 (2 ^ 32 - 1) [(4096, 4096)])
                          iovad_4k 2)).
Proof.
  apply (alloc_map_failure_rolls_back K4k E_single ops_partial dev0 8192 0 3 true
           (world_attached K4k ops_partial) 0%nat
           (mk_dma_domain (mk_domain 1 true 0 (2 ^ 32 - 1) []) iovad_4k 2)
           [Some 1000; Some 1001]
           (mk_mm (list_to_set_disj [1000; 1001]) 3)
           (mk_iova 1 2)
           (mk_iovad 4096 1 1048575 [mk_iova 1 2])).
  - split; reflexivity.
  - intros m p _. reflexivity.
  - vm_compute. reflexivity.
  - vm_compute. reflexivity.
  - reflexivity.
  - reflexivity.
  - vm_compute. reflexivity.
Defined.

(** C1 as stated fails where it says that what the backend did map is
    unmapped again: a backend that maps the first page of two and stops
    still maps that page after the failed allocation. *)
Lemma alloc_partial_map_stays_mapped :
  exists w' d d',
    dma_domains (world_attached K4k ops_partial) !! 0%nat = Some d /\
    pgtable (domain d) = [] /\
    iommu_dma_alloc K4k E_single ops_partial dev0 8192 0 3 true
      (world_attached K4k ops_partial) = Ret (None, DMA_ERROR_CODE) w' /\
    dma_domains w' !! 0%nat = Some d' /\
    pgtable (domain d') = [(4096, 4096)] /\
    pgtable (domain d') <> pgtable (domain d).
Proof.
  do 3 eexists.
  split; [vm_compute; reflexivity|]. split; [reflexivity|].
  split; [vm_compute; reflexivity|]. split; [vm_compute; reflexivity|].
  split; [reflexivity|]. discriminate.
Qed.

Lemma shiftr_ALIGN x k :
  0 <= k -> 0 <= x -> x + 2 ^ k <= 2 ^ 64 ->
  Z.shiftr (ALIGN x (2 ^ k)) k = (x + 2 ^ k - 1) / 2 ^ k.
Proof.
  intros Hk Hx Hb. rewrite ALIGN_round_up, Z.shiftr_div_pow2 by assumption.
  apply Z.div_mul. assert (0 < 2 ^ k) by (apply Z.pow_pos_nonneg; lia). lia.
Qed.

(** C6: a successful allocation reserves an interval whose length in bytes
    is the size rounded up to the granule and acquires the size rounded up
    to the CPU page size, in pages; the two counts agree when the granule
    is the CPU page size. *)
Theorem alloc_sizes K E ops dev size gfp prot (coherent : bool) w q d k pages handle w' :
  attached w dev q d ->
  0 <= k < 64 -> granule (iovad d) = 2 ^ k ->
  0 <= PAGE_SHIFT K < 64 ->
  0 <= size -> size + 2 ^ k <= 2 ^ 64 -> size + PAGE_SIZE K <= 2 ^ 64 ->
  (size + PAGE_SIZE K - 1) / PAGE_SIZE K < 2 ^ 32 ->
  iommu_dma_alloc K E ops dev size gfp prot coherent w = Ret (Some pages, handle) w' ->
  Z.of_nat (List.length pages) = (size + PAGE_SIZE K - 1) / PAGE_SIZE K /\
  Forall is_Some pages /\
  exists i d',
    dma_domains w' !! q = Some d' /\ In i (rbroot (iovad d')) /\
    handle = iova_dma_addr (iovad d') i /\
    iova_size i * 2 ^ k = (size + 2 ^ k - 1) / 2 ^ k * 2 ^ k /\
    (2 ^ k = PAGE_SIZE K -> Z.of_nat (List.length pages) = iova_size i).
Proof.
  intros Hat Hk Hg Hps Hs Hb1 Hb2 Hc Hrun.
  rewrite (alloc_run K E ops dev size gfp prot coherent w q d Hat) in Hrun.
  cbv zeta in Hrun.
  assert (Hpsz : PAGE_SIZE K = 2 ^ PAGE_SHIFT K) by (unfold PAGE_SIZE; apply Z.shiftl_1_l).
  assert (Hpos : 0 < 2 ^ PAGE_SHIFT K) by (apply Z.pow_pos_nonneg; lia).
  assert (Hposk : 0 < 2 ^ k) by (apply Z.pow_pos_nonneg; lia).
  assert (Hcount : u32 (Z.shiftr (PAGE_ALIGN K size) (PAGE_SHIFT K))
                   = (size + PAGE_SIZE K - 1) / PAGE_SIZE K).
  { unfold PAGE_ALIGN. rewrite Hpsz in *. rewrite shiftr_ALIGN by lia.
    apply u32_id. split; [apply Z.div_pos; lia | exact Hc]. }
  rewrite Hcount in Hrun.
  destruct (__iommu_dma_alloc_pages K E _ _ (mm w)) as [pages0 m1|m1| |] eqn:Hpg;
    try discriminate.
  assert (Hshift : iova_shift (iovad d) = k).
  { unfold iova_shift. rewrite Hg. apply ffs_pow2. exact Hk. }
  rewrite Hshift in Hrun. unfold iova_align in Hrun. rewrite Hg in Hrun.
  rewrite shiftr_ALIGN in Hrun by lia.
  destruct (alloc_iova _ _ _ _) as [[i iovad']|] eqn:Hiova.
  2:{ destruct (__iommu_dma_free_pages _ _ _); discriminate. }
  destruct (kzalloc E m1) as [m2|].
  2:{ destruct (__iommu_dma_free_pages _ _ _); discriminate. }
  destruct (fst (iommu_map_sg _ _ _ _ _) <? size).
  { destruct (__iommu_dma_free_pages _ _ _); discriminate. }
  injection Hrun as <- <- <-.
  assert (Hq : 0 <= (size + PAGE_SIZE K - 1) / PAGE_SIZE K) by (apply Z.div_pos; lia).
  pose proof (alloc_pages_result K E ((size + PAGE_SIZE K - 1) / PAGE_SIZE K)
                (Z.lor gfp (Z.lor (__GFP_NOWARN K) (__GFP_HIGHMEM K))) (mm w)
                (conj Hq Hc)) as Hres.
  rewrite Hpg in Hres. destruct Hres as [Hlen Hall].
  split; [rewrite Hlen; lia|]. split; [exact Hall|].
  pose proof (alloc_iova_bounds _ _ _ _ _ _ Hiova) as (_ & _ & _ & Hhi).
  pose proof (alloc_iova_spec _ _ _ _ _ _ Hiova) as (_ & _ & Hiovad).
  assert (Hsz : iova_size i = (size + 2 ^ k - 1) / 2 ^ k).
  { unfold iova_size. rewrite Hhi.
    replace (pfn_lo i + (size + 2 ^ k - 1) / 2 ^ k - 1 - pfn_lo i + 1)
      with ((size + 2 ^ k - 1) / 2 ^ k) by lia.
    apply u64_id. split; [apply Z.div_pos; lia|].
    apply Z.div_lt_upper_bound; [lia|].
    assert (2 ^ 64 <= 2 ^ k * 2 ^ 64) by nia. lia. }
  exists i. eexists. split; [apply lookup_insert_eq|]. cbn.
  split; [rewrite Hiovad; left; reflexivity|].
  split; [reflexivity|]. split; [rewrite Hsz; reflexivity|].
  intros Heq. rewrite Hlen, Hsz, Z2Nat.id, Heq by lia. reflexivity.
Qed.

Lemma alloc_sizes_witness :
  exists i,
    iova_size i * 2 ^ 12 = (4097 + 2 ^ 12 - 1) / 2 ^ 12 * 2 ^ 12 /\
    Z.of_nat (List.length [Some 1000; Some 1001]) = iova_size i.
Proof.
  destruct (alloc_sizes K4k E_single ops_good dev0 4097 0 3 true
              (world_attached K4k ops_good) 0%nat
              (mk_dma_domain (mk_domain 1 true 0 (2 ^ 32 - 1) []) iovad_4k 2)
              12 [Some 1000; Some 1001] 4096
              (set_mm (set_dom (world_attached K4k ops_good) 0%nat
                         (mk_dma_domain (mk_domain 1 true 0 (2 ^ 32 - 1) [(4096, 4097)])
                            (mk_iovad 4096 1 1048575 [mk_iova 1 2]) 2))
                      (mk_mm (list_to_set_disj [1000; 1001]) 3)))
    as (_ & _ & i & d' & _ & _ & _ & Hsz & Heq).
  - split; reflexivity.
  - lia.
  - reflexivity.
  - cbn. lia.
  - lia.
  - lia.
  - vm_compute. discriminate.
  - vm_compute. reflexivity.
  - vm_compute. reflexivity.
  - exists i. split; [exact Hsz | apply Heq; reflexivity].
Defined.

(** C6 as stated fails when granule and CPU page size differ: with 64 KiB
    pages and a 4 KiB granule, 8192 bytes take one page and an interval of
    two granules. *)
Lemma alloc_page_count_differs_from_granules :
  exists pages handle w' d' i,
    iommu_dma_alloc K64k E_single ops_good dev0 8192 0 3 true
      (world_attached K64k ops_good) = Ret (Some pages, handle) w' /\
    dma_domains w' !! 0%nat = Some d' /\
    rbroot (iovad d') = [i] /\ handle = iova_dma_addr (iovad d') i /\
    List.length pages = 1%nat /\ iova_size i = 2 /\
    Z.of_nat (List.length pages) <> iova_size i.
Proof.
  do 5 eexists.
  split; [vm_compute; reflexivity|]. split; [vm_compute; reflexivity|].
  split; [reflexivity|]. split; [vm_compute; reflexivity|].
  split; [reflexivity|]. split; [reflexivity|]. vm_compute. discriminate.
Qed.

(** ** Releasing a buffer *)

Lemma omap_id_Some (ps : list Z) : omap id (Some <$> ps) = ps.
Proof. induction ps as [|p ps IH]; [reflexivity|]. cbn. f_equal. exact IH. Qed.

Lemma free_pages_full (ps : list Z) m :
  __iommu_dma_free_pages (Some <$> ps) (Z.of_nat (List.length ps)) m
  = Some (mk_mm (live_pages m ∖ list_to_set_disj ps) (kobjs m - 1)).
Proof.
  unfold __iommu_dma_free_pages.
  destruct (Z.ltb_spec (Z.of_nat (List.length ps)) 0); [lia|].
  rewrite Nat2Z.id.
  destruct (free_pages_loop_filled (Some <$> ps) (List.length ps) m) as [m2 Hm2].
  { intros k Hk. destruct (lookup_lt_is_Some_2 ps k Hk) as [x Hx].
    exists x. rewrite list_lookup_fmap, Hx. reflexivity. }
  rewrite Hm2. apply free_pages_loop_live in Hm2. destruct Hm2 as [Hl Hk].
  unfold kfree. rewrite Hl, Hk. unfold filled_ms.
  rewrite take_ge by (rewrite length_fmap; lia).
  rewrite omap_id_Some. reflexivity.
Qed.

Lemma dma_addr_aligned iovad i k :
  0 <= k < 64 -> granule iovad = 2 ^ k ->
  u64 (Z.shiftl (Z.shiftr (iova_dma_addr iovad i) k) k) = iova_dma_addr iovad i.
Proof.
  intros Hk Hg.
  assert (Hp : 0 < 2 ^ k) by (apply Z.pow_pos_nonneg; lia).
  assert (Hq : 0 < 2 ^ (64 - k)) by (apply Z.pow_pos_nonneg; lia).
  assert (Hsplit : 2 ^ 64 = 2 ^ (64 - k) * 2 ^ k).
  { rewrite <- Z.pow_add_r by lia. f_equal. lia. }
  assert (Hmul : iova_dma_addr iovad i = (pfn_lo i mod 2 ^ (64 - k)) * 2 ^ k).
  { unfold iova_dma_addr, iova_shift. rewrite Hg, ffs_pow2 by exact Hk.
    rewrite Z.shiftl_mul_pow2 by lia.
    unfold u64. rewrite Hsplit. apply Z.mul_mod_distr_r; lia. }
  rewrite Z.shiftr_div_pow2, Z.shiftl_mul_pow2 by lia.
  rewrite Hmul at 1. rewrite Z.div_mul by lia. rewrite <- Hmul.
  apply u64_id. apply u64_range.
Qed.

(** C7: freeing a buffer looks up the interval at the handle and asks the
    backend to unmap all of it; when fewer bytes come back unmapped the
    machine stops; otherwise the interval leaves the allocator, every page
    and the descriptor array are released, and the handle is the error
    sentinel. *)
Theorem free_unmaps_whole_interval K ops dev (ps : list Z) size handle w q d k i :
  attached w dev q d ->
  0 <= k < 64 -> granule (iovad d) = 2 ^ k ->
  find_iova (iovad d) (Z.shiftr handle k) = Some i ->
  handle = iova_dma_addr (iovad d) i ->
  s32 (Z.shiftr (PAGE_ALIGN K size) (PAGE_SHIFT K)) = Z.of_nat (List.length ps) ->
  let bytes := u64 (Z.shiftl (iova_size i) k) in
  let r := iommu_unmap ops (domain d) (iova_dma_addr (iovad d) i) bytes in
  (fst r < bytes ->
     iommu_dma_free K ops dev (Some <$> ps) size handle w = Bug) /\
  (bytes <= fst r ->
     iommu_dma_free K ops dev (Some <$> ps) size handle w
     = Ret DMA_ERROR_CODE
         (set_mm (set_dom w q (mk_dma_domain (snd r) (__free_iova (iovad d) i) (kref d)))
                 (mk_mm (live_pages (mm w) ∖ list_to_set_disj ps)
                        (kobjs (mm w) - 1)))).
Proof.
  intros [Ha Hd] Hk Hg Hfind Hh Hcount bytes r.
  assert (Hshift : iova_shift (iovad d) = k).
  { unfold iova_shift. rewrite Hg. apply ffs_pow2. exact Hk. }
  assert (Hrun : forall w1, w1 = w ->
            (p ← arch_get_dma_domain dev; __iommu_dma_unmap ops p handle) w1
            = if fst r <? bytes then Bug
              else Ret tt (set_dom w q (mk_dma_domain (snd r)
                                          (__free_iova (iovad d) i) (kref d)))).
  { intros w1 ->. unfold mbind, M_bind, arch_get_dma_domain. rewrite Ha.
    rewrite (unmap_run ops w q d handle Hd). rewrite Hshift, Hfind. cbv zeta.
    rewrite Hh. rewrite (dma_addr_aligned _ _ _ Hk Hg). reflexivity. }
  unfold iommu_dma_free.
  split; intros Hcmp.
  - apply Z.ltb_lt in Hcmp.
    unfold mbind at 1. unfold M_bind at 1. unfold arch_get_dma_domain at 1.
    rewrite Ha. unfold mbind at 1. unfold M_bind at 1.
    specialize (Hrun w eq_refl). unfold mbind, M_bind, arch_get_dma_domain in Hrun.
    rewrite Ha in Hrun. rewrite Hrun, Hcmp. reflexivity.
  - apply Z.ltb_ge in Hcmp.
    unfold mbind at 1. unfold M_bind at 1. unfold arch_get_dma_domain at 1.
    rewrite Ha. unfold mbind at 1. unfold M_bind at 1.
    specialize (Hrun w eq_refl). unfold mbind, M_bind, arch_get_dma_domain in Hrun.
    rewrite Ha in Hrun. rewrite Hrun, Hcmp.
    unfold free_pages_m. munfold. cbn. rewrite Hcount, free_pages_full. reflexivity.
Qed.

Lemma free_unmaps_whole_interval_witness :
  exists w',
    iommu_dma_free K4k ops_good dev0 (Some <$> [1000; 1001]) 8192 4096
      (set_mm (set_dom (world_attached K4k ops_good) 0%nat
                 (mk_dma_domain (mk_domain 1 true 0 (2 ^ 32 - 1) [(4096, 8192)])
                    (mk_iovad 4096 1 1048575 [mk_iova 1 2]) 2))
              (mk_mm (list_to_set_disj [1000; 1001]) 3))
    = Ret DMA_ERROR_CODE w' /\
    mm w' = mk_mm (list_to_set_disj [1000; 1001] ∖ list_to_set_disj [1000; 1001]) (3 - 1).
Proof.
  eexists. split.
  - apply (free_unmaps_whole_interval K4k ops_good dev0 [1000; 1001] 8192 4096
             (set_mm (set_dom (world_attached K4k ops_good) 0%nat
                 (mk_dma_domain (mk_domain 1 true 0 (2 ^ 32 - 1) [(4096, 8192)])
                    (mk_iovad 4096 1 1048575 [mk_iova 1 2]) 2))
                (mk_mm (list_to_set_disj [1000; 1001]) 3))
             0%nat
             (mk_dma_domain (mk_domain 1 true 0 (2 ^ 32 - 1) [(4096, 8192)])
                (mk_iovad 4096 1 1048575 [mk_iova 1 2]) 2)
             12 (mk_iova 1 2)).
    + split; reflexivity.
    + lia.
    + reflexivity.
    + reflexivity.
    + reflexivity.
    + reflexivity.
    + vm_compute. discriminate.
  - reflexivity.
Defined.

(** ** Address 0 *)




Lemma map_page_run K ops dev pg off size prot (coherent : bool) w q d :
  attached w dev q d ->
  iommu_dma_map_page K ops dev pg off size prot coherent w
  = let phys := u64 (Z.shiftl pg (PAGE_SHIFT K) + off) in
    let iova_off := iova_offset (iovad d) phys in
    let len := iova_align (iovad d) (u64 (size + iova_off)) in
    match alloc_iova (iovad d)
            (Z.shiftr (iova_align (iovad d) len) (iova_shift (iovad d)))
            (Z.shiftr (if coherent then coherent_dma_mask dev else dma_get_mask dev)
                      (iova_shift (iovad d))) true with
    | None => Ret DMA_ERROR_CODE w
    | Some (i, iovad') =>
        let dma_addr := iova_dma_addr iovad' i in
        let r := iommu_map ops (domain d) dma_addr (u64 (phys - iova_off)) len prot in
        if fst r =? 0 then
          let bus := u64 (Z.shiftl (dma_pfn_offset dev) (PAGE_SHIFT K)) in
          if u64 (dma_addr + iova_off) <? bus then Bug
          else Ret (u64 (dma_addr + iova_off) - bus)
                   (set_dom w q (mk_dma_domain (snd r) iovad' (kref d)))
        else
          Ret DMA_ERROR_CODE
              (set_dom w q (mk_dma_domain (snd r) (__free_iova iovad' i) (kref d)))
    end.
Proof.
  intros Hat. unfold iommu_dma_map_page.
  unfold mbind at 1. unfold M_bind at 1. unfold arch_get_dma_domain at 1.
  destruct Hat as [Ha Hd]. rewrite Ha.
  unfold mbind at 1. unfold M_bind at 1. unfold load at 1. rewrite Hd.
  cbv zeta.
  unfold mbind at 1. unfold M_bind at 1.
  rewrite (alloc_iova_run dev _ coherent w q d) by (split; assumption).
  destruct (alloc_iova _ _ _ _) as [[i iovad']|]; [|reflexivity].
  unfold set_dom, free_iova_m, dev_dma_addr. munfold. cbn.
  rewrite lookup_insert_eq. cbn.
  destruct (iommu_map ops (domain d) _ _ _ prot) as [ret domain'] eqn:Hm. cbn.
  rewrite insert_insert_eq.
  destruct (ret =? 0); cbn.
  - destruct (_ <? _); reflexivity.
  - rewrite lookup_insert_eq. cbn. rewrite insert_insert_eq. reflexivity.
Qed.



(** * Further properties of the glue layer *)

(** ** The life of a domain *)

Lemma create_domain_heap K E ops base size w p w' :
  iommu_dma_create_domain K E ops base size w = Ret (Some p) w' ->
  exists d,
    dma_domains w !! p = None /\
    dma_domains w' = <[p := d]> (dma_domains w) /\
    archdata w' = archdata w /\ kref d = 1 /\ rbroot (iovad d) = [].
Proof.
  unfold iommu_dma_create_domain. munfold. cbn.
  destruct (kzalloc E (mm w)) as [m1|]; cbn; [|discriminate].
  destruct (domain_alloc ops _) as [domain0|]; cbn; [|discriminate].
  destruct (force_aperture domain0 && _); cbn; [discriminate|].
  destruct (kzalloc E m1) as [m2|]; cbn; [|discriminate].
  intros [= <- <-]. cbn. eexists. split; [apply not_elem_of_dom, is_fresh|].
  repeat split; reflexivity.
Qed.

Lemma release_run p q d w :
  p = Some q -> dma_domains w !! q = Some d ->
  iommu_dma_release_domain p w
  = Ret tt (if kref d - 1 =? 0
            then mk_world (delete q (dma_domains w)) (archdata w) (kfree (mm w))
            else set_dom w q (mk_dma_domain (domain d) (iovad d) (kref d - 1))).
Proof.
  intros -> Hd. unfold iommu_dma_release_domain, __iommu_dma_free_domain. munfold.
  rewrite Hd. destruct (kref d - 1 =? 0); reflexivity.
Qed.

Lemma detach_run ops dev w q d :
  attached w dev q d ->
  iommu_dma_detach_device ops dev w
  = Ret tt
      (if kref d - 1 =? 0
       then mk_world (delete q (dma_domains w)) (delete (dev_id dev) (archdata w))
                     (kfree (mm w))
       else mk_world (<[q := mk_dma_domain (iommu_detach_device ops (domain d) (dev_id dev))
                                           (iovad d) (kref d - 1)]> (dma_domains w))
                     (delete (dev_id dev) (archdata w)) (mm w)).
Proof.
  intros [Ha Hd].
  unfold iommu_dma_detach_device, iommu_dma_release_domain, __iommu_dma_free_domain.
  munfold. cbn. rewrite Ha. cbn. rewrite Hd. cbn.
  rewrite lookup_insert_eq. cbn.
  destruct (kref d - 1 =? 0); cbn.
  - rewrite delete_insert_eq. reflexivity.
  - rewrite insert_insert_eq. reflexivity.
Qed.

(** X1: a device that was attached with success and is detached again
    leaves the reference count of a domain somebody else still holds where
    it was; the domain stays, the device has no recorded domain, and the
    backend has seen the attach followed by the detach. *)
Theorem attach_detach_round_trip ops dev w q d domain1 :
  dma_domains w !! q = Some d ->
  kref d <> 0 ->
  iommu_attach_device ops (domain d) (dev_id dev) = (0, domain1) ->
  (_ ← iommu_dma_attach_device ops dev (Some q); iommu_dma_detach_device ops dev) w
  = Ret tt
      (mk_world (<[q := mk_dma_domain (iommu_detach_device ops domain1 (dev_id dev))
                                      (iovad d) (kref d)]> (dma_domains w))
                (delete (dev_id dev) (archdata w)) (mm w)).
Proof.
  intros Hd Hk Ha. unfold mbind at 1. unfold M_bind at 1.
  rewrite (attach_device_run ops dev q d w 0 domain1 Hd Ha).
  change (0 =? 0) with true. cbv iota.
  rewrite (detach_run ops dev _ q (mk_dma_domain domain1 (iovad d) (kref d + 1))).
  2:{ split; cbn; apply lookup_insert_eq. }
  cbn [kref domain iovad dma_domains archdata mm].
  replace (kref d + 1 - 1) with (kref d) by lia.
  destruct (Z.eqb_spec (kref d) 0); [contradiction|].
  rewrite insert_insert_eq, delete_insert_eq. reflexivity.
Qed.

Lemma attach_detach_round_trip_witness :
  exists w',
    (_ ← iommu_dma_attach_device ops_good dev0 (Some 0%nat);
     iommu_dma_detach_device ops_good dev0)
      (mk_world (<[0%nat := mk_dma_domain fresh_domain iovad_4k 1]> ∅) ∅ mm0)
    = Ret tt w' /\
    dma_domains w' !! 0%nat = Some (mk_dma_domain fresh_domain iovad_4k 1).
Proof.
  eexists. split.
  - apply (attach_detach_round_trip ops_good dev0
             (mk_world (<[0%nat := mk_dma_domain fresh_domain iovad_4k 1]> ∅) ∅ mm0)
             0%nat (mk_dma_domain fresh_domain iovad_4k 1) fresh_domain).
    + reflexivity.
    + cbn. lia.
    + reflexivity.
  - vm_compute. reflexivity.
Defined.

(** X2: the documented life of a domain.  After creation, a successful
    attach and the creator's release, the domain lives on with the
    device's reference as its only one; detaching the device then destroys
    it, and the heap of domains is as it was before the creation. *)
Theorem domain_lifecycle K E ops dev base size w p w0 :
  iommu_dma_create_domain K E ops base size w = Ret (Some p) w0 ->
  (forall dm, fst (iommu_attach_device ops dm (dev_id dev)) = 0) ->
  exists d1 w1,
    (_ ← iommu_dma_attach_device ops dev (Some p);
     iommu_dma_release_domain (Some p)) w0 = Ret tt w1 /\
    attached w1 dev p d1 /\ kref d1 = 1 /\
    exists w2,
      iommu_dma_detach_device ops dev w1 = Ret tt w2 /\
      dma_domains w2 = dma_domains w /\
      archdata w2 = delete (dev_id dev) (archdata w).
Proof.
  intros Hc Hatt.
  destruct (create_domain_heap _ _ _ _ _ _ _ _ Hc) as (d & Hfresh & Hheap & Harch & Hk & _).
  assert (Hd : dma_domains w0 !! p = Some d) by (rewrite Hheap; apply lookup_insert_eq).
  destruct (iommu_attach_device ops (domain d) (dev_id dev)) as [ret domain1] eqn:Ha.
  assert (ret = 0) by (specialize (Hatt (domain d)); rewrite Ha in Hatt; exact Hatt).
  subst ret.
  eexists. eexists. split.
  { unfold mbind at 1. unfold M_bind at 1.
    rewrite (attach_device_run ops dev p d w0 0 domain1 Hd Ha).
    change (0 =? 0) with true. cbv iota.
    rewrite (release_run (Some p) p (mk_dma_domain domain1 (iovad d) (kref d + 1)) _ eq_refl)
      by (cbn; apply lookup_insert_eq).
    cbn [kref domain iovad]. rewrite Hk. change (1 + 1 - 1 =? 0) with false. cbv iota.
    reflexivity. }
  split; [split; cbn; apply lookup_insert_eq|].
  split; [reflexivity|].
  eexists. split.
  { rewrite (detach_run ops dev _ p (mk_dma_domain domain1 (iovad d) (1 + 1 - 1)))
      by (split; cbn; apply lookup_insert_eq).
    cbn [kref]. change (1 + 1 - 1 - 1 =? 0) with true. cbv iota. reflexivity. }
  cbn. split.
  - rewrite !delete_insert_eq, Hheap. apply delete_insert_id. exact Hfresh.
  - rewrite delete_insert_eq, Harch. reflexivity.
Qed.

Lemma domain_lifecycle_witness :
  exists d1 w1,
    (_ ← iommu_dma_attach_device ops_good dev0 (Some 0%nat);
     iommu_dma_release_domain (Some 0%nat))
      (mk_world (<[0%nat := mk_dma_domain (mk_domain 1 true 0 (2 ^ 32 - 1) []) iovad_4k 1]> ∅)
                ∅ (mk_mm ∅ 2)) = Ret tt w1 /\
    attached w1 dev0 0%nat d1 /\ kref d1 = 1.
Proof.
  destruct (domain_lifecycle K4k E_single ops_good dev0 0 (2 ^ 32) world0 0%nat
              (mk_world (<[0%nat := mk_dma_domain (mk_domain 1 true 0 (2 ^ 32 - 1) [])
                                      iovad_4k 1]> ∅) ∅ (mk_mm ∅ 2)))
    as (d1 & w1 & Hrun & Hat & Hk & _).
  - vm_compute. reflexivity.
  - intros dm. reflexivity.
  - exists d1, w1. split; [exact Hrun|]. split; assumption.
Defined.

(** X3: detaching the same device a second time stops the machine: the
    first detach cleared the device's recorded domain, and the second
    dereferences the [NULL] that [arch_get_dma_domain] returns. *)
Theorem detach_twice_is_fatal ops dev w q d :
  attached w dev q d ->
  (_ ← iommu_dma_detach_device ops dev; iommu_dma_detach_device ops dev) w = Bug.
Proof.
  intros Hat. unfold mbind at 1. unfold M_bind at 1.
  rewrite (detach_run ops dev w q d Hat).
  unfold iommu_dma_detach_device. munfold.
  destruct (kref d - 1 =? 0); cbn; rewrite lookup_delete_eq; reflexivity.
Qed.

Lemma detach_twice_is_fatal_witness :
  (_ ← iommu_dma_detach_device ops_good dev0; iommu_dma_detach_device ops_good dev0)
    (world_attached K4k ops_good) = Bug.
Proof.
  apply (detach_twice_is_fatal ops_good dev0 (world_attached K4k ops_good) 0%nat
           (mk_dma_domain (mk_domain 1 true 0 (2 ^ 32 - 1) []) iovad_4k 2)).
  split; reflexivity.
Defined.

(** ** Creation and release *)



(** X18: a domain that is created and released again without ever being
    attached is gone from the heap of domains, and of the two small
    allocations of its creation the release path has given back one: the
    allocator object that [put_iova_domain] was called on stays
    allocated. *)
Theorem create_release_accounting K E ops base size w p w1 :
  iommu_dma_create_domain K E ops base size w = Ret (Some p) w1 ->
  exists w2,
    iommu_dma_release_domain (Some p) w1 = Ret tt w2 /\
    dma_domains w2 = dma_domains w /\ archdata w2 = archdata w /\
    live_pages (mm w2) = live_pages (mm w) /\
    kobjs (mm w2) = kobjs (mm w) + 1.
Proof.
  unfold iommu_dma_create_domain. munfold. cbn.
  unfold kzalloc at 1.
  destruct (kalloc_ok E (mm w)); cbn; [|discriminate].
  destruct (domain_alloc ops _) as [domain0|]; cbn; [|discriminate].
  destruct (force_aperture domain0 && _); cbn; [discriminate|].
  unfold kzalloc.
  destruct (kalloc_ok E _); cbn; [|discriminate].
  intros [= <- <-].
  unfold iommu_dma_release_domain, __iommu_dma_free_domain. munfold. cbn.
  rewrite lookup_insert_eq. cbn. unfold kref_init. cbn.
  eexists. split; [reflexivity|]. cbn.
  split; [apply delete_insert_id, not_elem_of_dom, is_fresh|].
  split; [reflexivity|]. split; [reflexivity|]. lia.
Qed.

Lemma create_release_accounting_witness :
  exists w2,
    iommu_dma_release_domain (Some 0%nat)
      (mk_world {[ 0%nat := mk_dma_domain (mk_domain 1 true 0 (2 ^ 32 - 1) [])
                                          iovad_4k 1 ]} ∅ (mk_mm ∅ 2)) = Ret tt w2 /\
    dma_domains w2 = dma_domains world0 /\ archdata w2 = archdata world0 /\
    live_pages (mm w2) = live_pages (mm world0) /\
    kobjs (mm w2) = kobjs (mm world0) + 1.
Proof.
  apply (create_release_accounting K4k E_single ops_good 0 (2 ^ 32) world0 0%nat).
  vm_compute. reflexivity.
Defined.

(** ** Page acquisition that fails *)

(** ** Buffers: what a failed or a successful allocation leaves behind *)




Section NoLeak.
Context (K : kconst) (E : kernel_env).
Hypothesis Hsplit : forall m p, PageCompound E m p = true -> split_huge_page E m p = 0.



End NoLeak.


(** ** Allocation of a buffer *)

Section AllocNoLeak.
Context (K : kconst) (E : kernel_env) (ops : iommu_ops).
Hypothesis Hsplit : forall m p, PageCompound E m p = true -> split_huge_page E m p = 0.




End AllocNoLeak.

(** X7: [iommu_dma_mapping_error] tells a failed allocation from a
    successful one: on a domain whose granule is a power of two above 1
    the handle left by [iommu_dma_alloc] is flagged exactly when the call
    returned [NULL]. *)
Theorem alloc_handle_error_iff_null K E ops dev size gfp prot (coherent : bool)
    w q d k res h w' :
  attached w dev q d ->
  1 <= k < 64 -> granule (iovad d) = 2 ^ k ->
  iommu_dma_alloc K E ops dev size gfp prot coherent w = Ret (res, h) w' ->
  (res = None <-> iommu_dma_mapping_error dev h = 1).
Proof.
  intros Hat Hk Hg Hrun. unfold iommu_dma_mapping_error.
  rewrite (alloc_run K E ops dev size gfp prot coherent w q d Hat) in Hrun.
  cbv zeta in Hrun.
  assert (Herr : forall (r : option page_array) w0,
             Ret (None, DMA_ERROR_CODE) w0 = Ret (res, h) w' ->
             (res = None <-> (if h =? DMA_ERROR_CODE then 1 else 0) = 1)).
  { intros r w0 [= <- <- _]. split; reflexivity. }
  destruct (__iommu_dma_alloc_pages K E _ _ (mm w)) as [pages m1|m1| |];
    try discriminate; [|eapply Herr; [exact None | exact Hrun]].
  destruct (alloc_iova _ _ _ _) as [[i iovad']|] eqn:Hiova.
  2:{ destruct (__iommu_dma_free_pages _ _ _); [|discriminate].
      eapply Herr; [exact None | exact Hrun]. }
  destruct (kzalloc E m1) as [m2|].
  2:{ destruct (__iommu_dma_free_pages _ _ _); [|discriminate].
      eapply Herr; [exact None | exact Hrun]. }
  destruct (_ <? size).
  { destruct (__iommu_dma_free_pages _ _ _); [|discriminate].
    eapply Herr; [exact None | exact Hrun]. }
  injection Hrun as <- <- _.
  pose proof (alloc_iova_spec _ _ _ _ _ _ Hiova) as (_ & _ & Hiovad).
  assert (Hne : iova_dma_addr iovad' i <> DMA_ERROR_CODE).
  { unfold iova_dma_addr, iova_shift. rewrite Hiovad. cbn [granule].
    rewrite Hg, ffs_pow2 by lia. rewrite Z.shiftl_mul_pow2 by lia.
    assert (Hsplit : 2 ^ 64 = 2 ^ (64 - k) * 2 ^ k).
    { rewrite <- Z.pow_add_r by lia. f_equal. lia. }
    assert (Hp : 2 <= 2 ^ k).
    { change 2 with (2 ^ 1) at 1. apply Z.pow_le_mono_r; lia. }
    assert (Hq : 0 < 2 ^ (64 - k)) by (apply Z.pow_pos_nonneg; lia).
    unfold u64. rewrite Hsplit, Z.mul_mod_distr_r by lia.
    pose proof (Z.mod_pos_bound (pfn_lo i) (2 ^ (64 - k)) Hq).
    unfold DMA_ERROR_CODE. rewrite Hsplit. nia. }
  apply Z.eqb_neq in Hne. rewrite Hne. split; discriminate.
Qed.

Lemma alloc_handle_error_iff_null_witness :
  (Some [Some 1000; Some 1001] = None <-> iommu_dma_mapping_error dev0 4096 = 1).
Proof.
  apply (alloc_handle_error_iff_null K4k E_single ops_good dev0 8192 0 3 true
           (world_attached K4k ops_good) 0%nat
           (mk_dma_domain (mk_domain 1 true 0 (2 ^ 32 - 1) []) iovad_4k 2) 12
           (Some [Some 1000; Some 1001]) 4096
           (set_mm (set_dom (world_attached K4k ops_good) 0%nat
                         (mk_dma_domain (mk_domain 1 true 0 (2 ^ 32 - 1) [(4096, 8192)])
                            (mk_iovad 4096 1 1048575 [mk_iova 1 2]) 2))
                      (mk_mm (list_to_set_disj [1000; 1001]) 3))).
  - split; reflexivity.
  - lia.
  - reflexivity.
  - vm_compute. reflexivity.
Defined.



(** ** Round trips *)

Lemma find_iova_head iovad i pfn :
  pfn_lo i <= pfn <= pfn_hi i ->
  find_iova (mk_iovad (granule iovad) (start_pfn iovad) (dma_32bit_pfn iovad)
                      (i :: rbroot iovad)) pfn = Some i.
Proof.
  intros [H1 H2]. unfold find_iova. cbn.
  apply Z.leb_le in H1. apply Z.leb_le in H2. rewrite H1, H2. reflexivity.
Qed.


Lemma dma_addr_frame iovad i k :
  0 <= k < 64 -> granule iovad = 2 ^ k ->
  0 <= pfn_lo i -> pfn_lo i * 2 ^ k < 2 ^ 64 ->
  iova_dma_addr iovad i = pfn_lo i * 2 ^ k.
Proof.
  intros Hk Hg H0 H1. unfold iova_dma_addr, iova_shift.
  rewrite Hg, ffs_pow2 by exact Hk. rewrite Z.shiftl_mul_pow2 by lia.
  apply u64_id. assert (0 < 2 ^ k) by (apply Z.pow_pos_nonneg; lia). nia.
Qed.

Section AllocFree.
Context (K : kconst) (E : kernel_env) (ops : iommu_ops).
Hypothesis Hsplit : forall m p, PageCompound E m p = true -> split_huge_page E m p = 0.
(** The backend unmaps what it is asked to unmap. *)
Hypothesis Hunmap : forall dm a len, len <= fst (iommu_unmap ops dm a len).



End AllocFree.



(** ** Single pages *)

Lemma alloc_iova_frame iovad k mask sz i iovad' :
  0 <= k < 64 -> granule iovad = 2 ^ k -> 1 <= start_pfn iovad ->
  0 <= mask < 2 ^ 64 -> 0 < sz -> sz + 2 ^ k <= 2 ^ 64 ->
  alloc_iova iovad (Z.shiftr (iova_align iovad sz) (iova_shift iovad))
             (Z.shiftr mask (iova_shift iovad)) true = Some (i, iovad') ->
  iova_dma_addr iovad' i = pfn_lo i * 2 ^ k /\
  1 <= pfn_lo i <= pfn_hi i /\
  (pfn_hi i + 1) * 2 ^ k <= 2 ^ 64 /\
  pfn_hi i - pfn_lo i + 1 = (sz + 2 ^ k - 1) / 2 ^ k /\
  iovad' = mk_iovad (granule iovad) (start_pfn iovad) (dma_32bit_pfn iovad)
                    (i :: rbroot iovad).
Proof.
  intros Hk Hg Hstart Hmask Hsz Hb Hrun.
  assert (Hp : 0 < 2 ^ k) by (apply Z.pow_pos_nonneg; lia).
  assert (Hshift : iova_shift iovad = k).
  { unfold iova_shift. rewrite Hg. apply ffs_pow2. exact Hk. }
  pose proof (alloc_iova_spec _ _ _ _ _ _ Hrun) as (_ & _ & Hiovad).
  pose proof (alloc_iova_bounds _ _ _ _ _ _ Hrun) as (Hlo & Hlim & _ & Hhi).
  rewrite Hshift in Hlim, Hhi. unfold iova_align in Hhi. rewrite Hg in Hhi.
  rewrite shiftr_ALIGN in Hhi by lia.
  rewrite Z.shiftr_div_pow2 in Hlim by lia.
  assert (Hn : 1 <= (sz + 2 ^ k - 1) / 2 ^ k) by (apply Z.div_le_lower_bound; lia).
  assert (Hq : 0 < 2 ^ (64 - k)) by (apply Z.pow_pos_nonneg; lia).
  assert (H64 : 2 ^ 64 = 2 ^ (64 - k) * 2 ^ k).
  { rewrite <- Z.pow_add_r by lia. f_equal. lia. }
  assert (Hm : mask / 2 ^ k < 2 ^ (64 - k)).
  { apply Z.div_lt_upper_bound; lia. }
  assert (Htop : (pfn_hi i + 1) * 2 ^ k <= 2 ^ 64) by nia.
  repeat split; try lia; try exact Hiovad.
  unfold iova_dma_addr, iova_shift. rewrite Hiovad. cbn [granule].
  rewrite Hg, ffs_pow2 by exact Hk. rewrite Z.shiftl_mul_pow2 by lia.
  apply u64_id. nia.
Qed.

Lemma iova_offset_mod iovad k x :
  0 <= k -> granule iovad = 2 ^ k -> iova_offset iovad x = x mod 2 ^ k.
Proof.
  intros Hk Hg. unfold iova_offset, iova_mask. rewrite Hg.
  replace (2 ^ k - 1) with (Z.ones k) by (rewrite Z.ones_equiv; lia).
  apply Z.land_ones. lia.
Qed.

Section MapPage.
Context (K : kconst) (ops : iommu_ops).

Lemma map_page_state dev pg off size prot (coherent : bool) w q d k h w' :
  attached w dev q d ->
  0 <= k < 64 -> granule (iovad d) = 2 ^ k -> 1 <= start_pfn (iovad d) ->
  0 <= (if coherent then coherent_dma_mask dev else dma_get_mask dev) < 2 ^ 64 ->
  0 < size -> size + 3 * 2 ^ k <= 2 ^ 64 ->
  iommu_dma_map_page K ops dev pg off size prot coherent w = Ret h w' ->
  let phys := u64 (Z.shiftl pg (PAGE_SHIFT K) + off) in
  let bus := u64 (Z.shiftl (dma_pfn_offset dev) (PAGE_SHIFT K)) in
  exists dm,
    (h = DMA_ERROR_CODE /\
     w' = set_dom w q (mk_dma_domain dm (iovad d) (kref d))) \/
    (exists i,
       w' = set_dom w q (mk_dma_domain dm
              (mk_iovad (granule (iovad d)) (start_pfn (iovad d))
                        (dma_32bit_pfn (iovad d)) (i :: rbroot (iovad d)))
              (kref d)) /\
       1 <= pfn_lo i <= pfn_hi i /\
       h + bus = pfn_lo i * 2 ^ k + phys mod 2 ^ k /\
       size + phys mod 2 ^ k <= (pfn_hi i - pfn_lo i + 1) * 2 ^ k /\
       (pfn_hi i + 1) * 2 ^ k <= 2 ^ 64 /\
       fst (iommu_map ops (domain d) (pfn_lo i * 2 ^ k) (phys - phys mod 2 ^ k)
              ((pfn_hi i - pfn_lo i + 1) * 2 ^ k) prot) = 0 /\
       dm = snd (iommu_map ops (domain d) (pfn_lo i * 2 ^ k) (phys - phys mod 2 ^ k)
              ((pfn_hi i - pfn_lo i + 1) * 2 ^ k) prot)).
Proof.
  intros Hat Hk Hg Hstart Hmask Hsz Hb Hrun phys bus.
  rewrite (map_page_run K ops dev pg off size prot coherent w q d Hat) in Hrun.
  cbv zeta in Hrun. fold phys in Hrun. fold bus in Hrun.
  assert (Hp : 0 < 2 ^ k) by (apply Z.pow_pos_nonneg; lia).
  pose proof (iova_offset_mod (iovad d) k phys ltac:(lia) Hg) as Hoff.
  rewrite Hoff in Hrun.
  pose proof (Z.mod_pos_bound phys (2 ^ k) Hp) as Ho.
  pose proof (u64_range (Z.shiftl pg (PAGE_SHIFT K) + off)) as Hphys.
  fold phys in Hphys.
  rewrite (u64_id (size + phys mod 2 ^ k)) in Hrun by lia.
  set (len := iova_align (iovad d) (size + phys mod 2 ^ k)) in *.
  assert (Hbounds : size + phys mod 2 ^ k <= len < size + phys mod 2 ^ k + 2 ^ k /\
                    len mod 2 ^ k = 0).
  { unfold len, iova_align. rewrite Hg. apply ALIGN_bounds; lia. }
  destruct Hbounds as [Hal Hmod].
  destruct (alloc_iova _ _ _ _) as [[i iovad']|] eqn:Hiova.
  2:{ injection Hrun as <- <-. exists (domain d). left. split; [reflexivity|].
      unfold set_dom.
      replace (mk_dma_domain (domain d) (iovad d) (kref d)) with d by (by destruct d).
      rewrite insert_id by apply Hat. by destruct w. }
  assert (Hlen0 : 0 < len) by lia.
  assert (Hlen1 : len + 2 ^ k <= 2 ^ 64) by lia.
  pose proof (alloc_iova_frame _ k _ len _ _ Hk Hg Hstart Hmask Hlen0 Hlen1 Hiova)
    as (Haddr & Hlo & Htop & Hn & Hiovad).
  pose proof (free_alloc_iova _ _ _ _ _ _ Hiova) as Hfi.
  rewrite Haddr in Hrun.
  assert (Hlen : (pfn_hi i - pfn_lo i + 1) * 2 ^ k = len).
  { rewrite Hn. apply Z.mod_divide in Hmod; [|lia]. destruct Hmod as [c Hc].
    rewrite Hc. replace (c * 2 ^ k + 2 ^ k - 1) with (2 ^ k - 1 + c * 2 ^ k) by lia.
    rewrite Z.div_add by lia. rewrite Z.div_small by lia. lia. }
  assert (Hu : u64 (phys - phys mod 2 ^ k) = phys - phys mod 2 ^ k).
  { apply u64_id. pose proof (Z.mod_le phys (2 ^ k) ltac:(lia) Hp). lia. }
  rewrite Hu in Hrun.
  destruct (fst (iommu_map _ _ _ _ _ _) =? 0) eqn:Hret.
  - destruct (_ <? bus) eqn:Hbus; [discriminate|]. injection Hrun as <- <-.
    eexists. right. exists i. rewrite Hiovad, Hlen.
    apply Z.eqb_eq in Hret. apply Z.ltb_ge in Hbus.
    rewrite u64_id in Hbus |- * by nia.
    repeat split; try lia; try exact Hret; reflexivity.
  - injection Hrun as <- <-. eexists. left. rewrite Hfi. split; reflexivity.
Qed.

(** X10: what [iommu_dma_map_page] leaves behind.  Either it returns the
    error sentinel and the allocator holds what it held before, or it has
    reserved exactly one interval, which covers the buffer from the start
    of its first granule, and the handle (before the bus offset is taken
    off) is the interval's address plus the offset of the buffer in its
    granule. *)
Theorem map_page_outcome dev pg off size prot (coherent : bool) w q d k h w' :
  attached w dev q d ->
  0 <= k < 64 -> granule (iovad d) = 2 ^ k -> 1 <= start_pfn (iovad d) ->
  0 <= (if coherent then coherent_dma_mask dev else dma_get_mask dev) < 2 ^ 64 ->
  0 < size -> size + 3 * 2 ^ k <= 2 ^ 64 ->
  iommu_dma_map_page K ops dev pg off size prot coherent w = Ret h w' ->
  let phys := u64 (Z.shiftl pg (PAGE_SHIFT K) + off) in
  let bus := u64 (Z.shiftl (dma_pfn_offset dev) (PAGE_SHIFT K)) in
  archdata w' = archdata w /\ mm w' = mm w /\
  exists d',
    dma_domains w' = <[q := d']> (dma_domains w) /\ kref d' = kref d /\
    ((h = DMA_ERROR_CODE /\ iovad d' = iovad d) \/
     (exists i,
        rbroot (iovad d') = i :: rbroot (iovad d) /\
        granule (iovad d') = granule (iovad d) /\
        start_pfn (iovad d') = start_pfn (iovad d) /\
        h + bus = iova_dma_addr (iovad d') i + iova_offset (iovad d) phys /\
        size + iova_offset (iovad d) phys
        <= (pfn_hi i - pfn_lo i + 1) * granule (iovad d))).
Proof.
  intros Hat Hk Hg Hstart Hmask Hsz Hb Hrun phys bus.
  destruct (map_page_state dev pg off size prot coherent w q d k h w'
              Hat Hk Hg Hstart Hmask Hsz Hb Hrun)
    as [dm [[-> ->] | (i & -> & Hlo & Hh & Hcov & Htop & _ & _)]].
  - split; [reflexivity|]. split; [reflexivity|].
    eexists. split; [reflexivity|]. split; [reflexivity|]. left. split; reflexivity.
  - split; [reflexivity|]. split; [reflexivity|].
    eexists. split; [reflexivity|]. split; [reflexivity|]. right. exists i.
    cbn [iovad rbroot granule start_pfn].
    rewrite (iova_offset_mod (iovad d) k) by (lia || exact Hg).
    rewrite (dma_addr_frame _ i k) by (try exact Hg; cbn [granule]; try lia;
      assert (0 < 2 ^ k) by (apply Z.pow_pos_nonneg; lia); nia).
    rewrite Hg. repeat split; assumption.
Qed.

(** The backend unmaps what it is asked to unmap. *)
Hypothesis Hunmap : forall dm a len, len <= fst (iommu_unmap ops dm a len).

(** X11: with no bus offset between device and IOMMU, unmapping the handle
    that [iommu_dma_map_page] returned gives the interval back: the
    allocator, the reference count and the device's domain are as they
    were before the mapping. *)
Theorem map_unmap_page_round_trip dev pg off size prot (coherent : bool) w q d k h w1 :
  attached w dev q d ->
  0 <= k < 64 -> granule (iovad d) = 2 ^ k -> 1 <= start_pfn (iovad d) ->
  0 <= (if coherent then coherent_dma_mask dev else dma_get_mask dev) < 2 ^ 64 ->
  0 < size -> size + 3 * 2 ^ k <= 2 ^ 64 ->
  dma_pfn_offset dev = 0 ->
  iommu_dma_map_page K ops dev pg off size prot coherent w = Ret h w1 ->
  h <> DMA_ERROR_CODE ->
  exists w2 d2,
    iommu_dma_unmap_page ops dev h w1 = Ret tt w2 /\
    mm w2 = mm w /\ archdata w2 = archdata w /\
    dma_domains w2 = <[q := d2]> (dma_domains w) /\
    iovad d2 = iovad d /\ kref d2 = kref d.
Proof.
  intros Hat Hk Hg Hstart Hmask Hsz Hb Hbus Hrun Hne.
  destruct (map_page_state dev pg off size prot coherent w q d k h w1
              Hat Hk Hg Hstart Hmask Hsz Hb Hrun)
    as [dm [[-> _] | (i & -> & Hlo & Hh & Hcov & Htop & _ & _)]];
    [contradiction|].
  rewrite Hbus, Z.shiftl_0_l in Hh. change (u64 0) with 0 in Hh.
  rewrite Z.add_0_r in Hh.
  assert (Hp : 0 < 2 ^ k) by (apply Z.pow_pos_nonneg; lia).
  set (phys := u64 (Z.shiftl pg (PAGE_SHIFT K) + off)) in *.
  pose proof (Z.mod_pos_bound phys (2 ^ k) Hp) as Ho.
  assert (Hpfn : Z.shiftr h k = pfn_lo i).
  { rewrite Z.shiftr_div_pow2 by lia. rewrite Hh.
    rewrite Z.add_comm, Z.div_add by lia. rewrite Z.div_small by lia. lia. }
  unfold iommu_dma_unmap_page.
  unfold mbind at 1. unfold M_bind at 1. unfold arch_get_dma_domain at 1.
  cbn [archdata set_dom]. rewrite (proj1 Hat).
  erewrite unmap_run by (cbn; apply lookup_insert_eq).
  cbn [iovad domain kref].
  assert (Hshift : forall r, iova_shift (mk_iovad (granule (iovad d))
             (start_pfn (iovad d)) (dma_32bit_pfn (iovad d)) r) = k).
  { intros r. unfold iova_shift. cbn [granule]. rewrite Hg. apply ffs_pow2. exact Hk. }
  rewrite Hshift, Hpfn, find_iova_head by lia. cbv zeta.
  match goal with |- context [fst ?r <? ?s] =>
    pose proof (Hunmap _ _ _ : s <= fst r) as Hu;
    apply Z.ltb_ge in Hu; rewrite Hu end.
  eexists. eexists. split; [reflexivity|].
  unfold set_dom, __free_iova. cbn. rewrite iova_eqb_refl, insert_insert_eq.
  repeat split; try reflexivity. by destruct (iovad d).
Qed.
End MapPage.

Lemma map_page_outcome_witness :
  let w := world_attached K4k ops_good in
  let d := mk_dma_domain (mk_domain 1 true 0 (2 ^ 32 - 1) []) iovad_4k 2 in
  let w' := set_dom w 0%nat
              (mk_dma_domain (mk_domain 1 true 0 (2 ^ 32 - 1) [(4096, 4096)])
                 (mk_iovad 4096 1 1048575 [mk_iova 1 1]) 2) in
  let phys := u64 (Z.shiftl 5 (PAGE_SHIFT K4k) + 100) in
  let bus := u64 (Z.shiftl (dma_pfn_offset dev0) (PAGE_SHIFT K4k)) in
  archdata w' = archdata w /\ mm w' = mm w /\
  exists d',
    dma_domains w' = <[0%nat := d']> (dma_domains w) /\ kref d' = kref d /\
    ((4196 = DMA_ERROR_CODE /\ iovad d' = iovad d) \/
     (exists i,
        rbroot (iovad d') = i :: rbroot (iovad d) /\
        granule (iovad d') = granule (iovad d) /\
        start_pfn (iovad d') = start_pfn (iovad d) /\
        4196 + bus = iova_dma_addr (iovad d') i + iova_offset (iovad d) phys /\
        3000 + iova_offset (iovad d) phys
        <= (pfn_hi i - pfn_lo i + 1) * granule (iovad d))).
Proof.
  apply (map_page_outcome K4k ops_good dev0 5 100 3000 3 true
           (world_attached K4k ops_good) 0%nat
           (mk_dma_domain (mk_domain 1 true 0 (2 ^ 32 - 1) []) iovad_4k 2) 12).
  - split; reflexivity.
  - lia.
  - reflexivity.
  - vm_compute. discriminate.
  - vm_compute. split; [discriminate | reflexivity].
  - lia.
  - vm_compute. discriminate.
  - vm_compute. reflexivity.
Defined.

Lemma map_unmap_page_round_trip_witness :
  let w := world_attached K4k ops_good in
  let w1 := set_dom w 0%nat
              (mk_dma_domain (mk_domain 1 true 0 (2 ^ 32 - 1) [(4096, 4096)])
                 (mk_iovad 4096 1 1048575 [mk_iova 1 1]) 2) in
  exists w2 d2,
    iommu_dma_unmap_page ops_good dev0 4196 w1 = Ret tt w2 /\
    mm w2 = mm w /\ archdata w2 = archdata w /\
    dma_domains w2 = <[0%nat := d2]> (dma_domains w) /\
    iovad d2 = iovad_4k /\ kref d2 = 2.
Proof.
  apply (map_unmap_page_round_trip K4k ops_good
           ltac:(intros dm a len; apply Z.le_refl)
           dev0 5 100 3000 3 true (world_attached K4k ops_good) 0%nat
           (mk_dma_domain (mk_domain 1 true 0 (2 ^ 32 - 1) []) iovad_4k 2) 12).
  - split; reflexivity.
  - lia.
  - reflexivity.
  - vm_compute. discriminate.
  - vm_compute. split; [discriminate | reflexivity].
  - lia.
  - vm_compute. discriminate.
  - reflexivity.
  - vm_compute. reflexivity.
  - vm_compute. discriminate.
Defined.

(** ** The rewrite pass *)

Lemma rewrite_one_widened iovad k s :
  0 <= k < 32 -> granule iovad = 2 ^ k -> sg_wf s ->
  length s + 2 * 2 ^ k <= 2 ^ 32 ->
  widened k s (fst (rewrite_one iovad s)) /\
  snd (rewrite_one iovad s) = length (fst (rewrite_one iovad s)) /\
  0 <= snd (rewrite_one iovad s).
Proof.
  intros Hk Hg (Ho & Hl & _ & _) Hfit.
  assert (Hp : 0 < 2 ^ k) by (apply Z.pow_pos_nonneg; lia).
  assert (H32 : 2 ^ 32 < 2 ^ 64) by (apply Z.pow_lt_mono_r; lia).
  unfold rewrite_one, widened. cbn [fst snd page offset length dma_address dma_length].
  rewrite (iova_offset_mod iovad k) by (lia || exact Hg).
  pose proof (Z.mod_pos_bound (offset s) (2 ^ k) Hp) as Hr.
  pose proof (Z.mod_le (offset s) (2 ^ k) ltac:(lia) Hp) as Hrle.
  rewrite (u64_id (length s + offset s mod 2 ^ k)) by lia.
  unfold iova_align. rewrite Hg.
  destruct (ALIGN_bounds (length s + offset s mod 2 ^ k) k ltac:(lia) ltac:(lia) ltac:(lia))
    as [Hal Hmod].
  set (len' := ALIGN (length s + offset s mod 2 ^ k) (2 ^ k)) in *.
  rewrite (u32_id (offset s - offset s mod 2 ^ k)) by lia.
  rewrite (u32_id len') by lia. rewrite (u32_id (length s)) by lia.
  repeat split; try lia; try assumption.
  rewrite (Z.div_mod (offset s) (2 ^ k)) at 1 by lia.
  replace (2 ^ k * (offset s / 2 ^ k) + offset s mod 2 ^ k - offset s mod 2 ^ k)
    with (offset s / 2 ^ k * 2 ^ k) by lia.
  apply Z.mod_mul. lia.
Qed.

Lemma rewrite_sg_total iovad k sg :
  0 <= k < 32 -> granule iovad = 2 ^ k -> Forall sg_wf sg ->
  Forall (fun s => length s + 2 * 2 ^ k <= 2 ^ 32) sg ->
  forall acc, 0 <= acc ->
    acc + sg_total (fst (rewrite_sg iovad sg acc)) < 2 ^ 64 ->
    snd (rewrite_sg iovad sg acc) = acc + sg_total (fst (rewrite_sg iovad sg acc)).
Proof.
  intros Hk Hg Hwf Hfit. induction sg as [|s rest IH]; intros acc Hacc Hb.
  - cbn. lia.
  - inversion Hwf as [|? ? Hs Hrest]; subst. inversion Hfit as [|? ? Hf Hfrest]; subst.
    destruct (rewrite_one_widened iovad k s Hk Hg Hs Hf) as (_ & Hsnd & Hnn).
    cbn [rewrite_sg] in *. destruct (rewrite_one iovad s) as [s' l]. cbn [fst snd] in *.
    specialize (IH Hrest Hfrest (u64 (acc + l))).
    rewrite (rewrite_sg_fst iovad rest) in *.
    destruct (rewrite_sg iovad rest (u64 (acc + l))) as [rest' tot] eqn:Hrw.
    cbn [fst snd] in *.
    assert (Hrest' : rest' = map (fun s => fst (rewrite_one iovad s)) rest).
    { rewrite <- (rewrite_sg_fst iovad rest (u64 (acc + l))), Hrw. reflexivity. }
    subst rest'.
    change (sg_total (s' :: ?r)) with (length s' + sg_total r) in *.
    assert (Htl : 0 <= sg_total (map (fun s => fst (rewrite_one iovad s)) rest)).
    { clear -Hrest Hfrest Hk Hg. induction rest as [|x r IHr]; [cbn; lia|].
      inversion Hrest; subst. inversion Hfrest; subst.
      destruct (rewrite_one_widened iovad k x Hk Hg) as (_ & Hsnd & Hnn); try assumption.
      cbn [map]. change (sg_total (?a :: ?r)) with (length a + sg_total r).
      specialize (IHr ltac:(assumption) ltac:(assumption)). lia. }
    rewrite u64_id in IH by lia. rewrite IH by lia. lia.
Qed.

Lemma rewrite_total_aligned iovad k sg :
  0 <= k < 32 -> granule iovad = 2 ^ k -> Forall sg_wf sg ->
  Forall (fun s => length s + 2 * 2 ^ k <= 2 ^ 32) sg ->
  sg_total (map (fun s => fst (rewrite_one iovad s)) sg) mod 2 ^ k = 0.
Proof.
  intros Hk Hg Hwf Hfit.
  assert (Hp : 0 < 2 ^ k) by (apply Z.pow_pos_nonneg; lia).
  induction sg as [|s rest IH]; [cbn; apply Z.mod_0_l; lia|].
  inversion Hwf; subst. inversion Hfit; subst. cbn [map].
  change (sg_total (?a :: ?r)) with (length a + sg_total r).
  destruct (rewrite_one_widened iovad k s Hk Hg) as ((_ & _ & _ & _ & Hm & _) & _ & _);
    try assumption.
  rewrite Z.add_mod, Hm, IH by (assumption || lia). reflexivity.
Qed.

(** X19: the first loop of [iommu_dma_map_sg] widens every segment to
    whole granules around the original, parks the original offset and
    length in the dma fields, and adds up the widened lengths: the total
    it asks the allocator for is a multiple of the granule and, short of
    2^64, the sum of the lengths it hands to the backend. *)
Theorem rewrite_pass_aligns iovad k sg :
  0 <= k < 32 -> granule iovad = 2 ^ k -> Forall sg_wf sg ->
  Forall (fun s => length s + 2 * 2 ^ k <= 2 ^ 32) sg ->
  let r := rewrite_sg iovad sg 0 in
  Forall2 (widened k) sg (fst r) /\
  (sg_total (fst r) < 2 ^ 64 ->
   snd r = sg_total (fst r) /\ snd r mod 2 ^ k = 0).
Proof.
  intros Hk Hg Hwf Hfit r. subst r. split.
  - rewrite rewrite_sg_fst. clear -Hk Hg Hwf Hfit.
    induction sg as [|s rest IH]; [constructor|].
    inversion Hwf; subst. inversion Hfit; subst. cbn [map].
    constructor; [|apply IH; assumption].
    apply rewrite_one_widened; assumption.
  - intros Hb.
    pose proof (rewrite_sg_total iovad k sg Hk Hg Hwf Hfit 0 ltac:(lia) ltac:(lia)) as Ht.
    rewrite Z.add_0_l in Ht. split; [exact Ht|]. rewrite Ht.
    rewrite rewrite_sg_fst. apply rewrite_total_aligned; assumption.
Qed.

Lemma rewrite_pass_aligns_witness :
  let sg := [mk_sg 5 5000 3000 0 0; mk_sg 6 0 4096 0 0] in
  let r := rewrite_sg iovad_4k sg 0 in
  Forall2 (widened 12) sg (fst r) /\
  (sg_total (fst r) < 2 ^ 64 ->
   snd r = sg_total (fst r) /\ snd r mod 2 ^ 12 = 0).
Proof.
  apply (rewrite_pass_aligns iovad_4k 12 [mk_sg 5 5000 3000 0 0; mk_sg 6 0 4096 0 0]).
  - lia.
  - reflexivity.
  - repeat constructor; vm_compute; congruence.
  - repeat constructor; vm_compute; congruence.
Defined.

(** ** The finalise pass undoes the rewrite pass *)

Section Unswizzle.
Context (seg_mask max_len : Z) (sg0 : list scatterlist).

Lemma fin_done_init a : fin_done sg0 0 (mk_fin sg0 0 0 0 a 1).
Proof.
  constructor; cbn.
  - reflexivity.
  - reflexivity.
  - intros k s Hk. lia.
  - left. repeat split.
  - reflexivity.
Qed.

Lemma fin_done_step i st s :
  fin_done sg0 i st -> sg0 !! i = Some s ->
  fin_done sg0 (S i) (finalise_step seg_mask max_len i st).
Proof.
  intros [Hlen Hrest Hdone Hseg Hcount] Hs.
  assert (Hcur : f_sg st !! i = Some s) by (rewrite Hrest by lia; exact Hs).
  unfold finalise_step. rewrite Hcur. cbv zeta.
  set (new := mk_sg (page s) (u32 (dma_address s)) (dma_length s) DMA_ERROR_CODE 0).
  destruct (negb (f_seg_len st =? 0) && _ && _ && _) eqn:Hmerge.
  - (* the entry joins the segment being filled *)
    assert (Hne : f_seg_len st <> 0).
    { apply andb_true_iff in Hmerge. destruct Hmerge as [Hm _].
      apply andb_true_iff in Hm. destruct Hm as [Hm _].
      apply andb_true_iff in Hm. destruct Hm as [Hm _].
      apply negb_true_iff, Z.eqb_neq in Hm. exact Hm. }
    assert (Hlt : (f_seg st < i)%nat) by (destruct Hseg as [(_ & _ & H0)|H]; [contradiction|exact H]).
    constructor; cbn [f_sg f_seg f_seg_len f_count].
    + rewrite length_alter, length_insert. exact Hlen.
    + intros k Hk. rewrite list_lookup_alter_ne by lia.
      rewrite list_lookup_insert_ne by lia. apply Hrest. lia.
    + intros k s' Hk Hs'.
      destruct (decide (k = i)) as [->|Hki].
      * rewrite Hs in Hs'. injection Hs' as <-.
        exists new. rewrite list_lookup_alter_ne by lia.
        rewrite list_lookup_insert_eq by (rewrite Hlen; eapply lookup_lt_Some; exact Hs).
        repeat split; reflexivity.
      * destruct (Hdone k s' ltac:(lia) Hs') as (e & He & Hp & Ho & Hl & Herr).
        destruct (decide (k = f_seg st)) as [->|Hks].
        -- eexists. rewrite list_lookup_alter_eq, list_lookup_insert_ne, He by lia.
           cbn. repeat split; try assumption; lia.
        -- exists e. rewrite list_lookup_alter_ne, list_lookup_insert_ne by lia.
           repeat split; try assumption; apply Herr; lia.
    + right. lia.
    + exact Hcount.
  - (* the entry opens a segment *)
    set (seg := if f_seg_len st =? 0 then f_seg st else S (f_seg st)).
    assert (Hle : (f_seg st <= seg <= i)%nat).
    { unfold seg. destruct (f_seg_len st =? 0) eqn:H0.
      - destruct Hseg as [(-> & -> & _)|H]; lia.
      - apply Z.eqb_neq in H0. destruct Hseg as [(_ & _ & H1)|H]; [contradiction|lia]. }
    constructor; cbn [f_sg f_seg f_seg_len f_count].
    + rewrite length_alter, length_insert. exact Hlen.
    + intros k Hk. rewrite list_lookup_alter_ne by lia.
      rewrite list_lookup_insert_ne by lia. apply Hrest. lia.
    + intros k s' Hk Hs'.
      destruct (decide (k = i)) as [->|Hki].
      * rewrite Hs in Hs'. injection Hs' as <-.
        destruct (decide (seg = i)) as [Hsi|Hsi].
        -- eexists. rewrite Hsi, list_lookup_alter_eq.
           rewrite list_lookup_insert_eq by (rewrite Hlen; eapply lookup_lt_Some; exact Hs).
           cbn. repeat split; try reflexivity; lia.
        -- exists new. rewrite list_lookup_alter_ne by lia.
           rewrite list_lookup_insert_eq by (rewrite Hlen; eapply lookup_lt_Some; exact Hs).
           repeat split; reflexivity.
      * destruct (Hdone k s' ltac:(lia) Hs') as (e & He & Hp & Ho & Hl & Herr).
        destruct (decide (k = seg)) as [->|Hks].
        -- eexists. rewrite list_lookup_alter_eq, list_lookup_insert_ne, He by lia.
           cbn. repeat split; try assumption; lia.
        -- exists e. rewrite list_lookup_alter_ne, list_lookup_insert_ne by lia.
           repeat split; try assumption; apply Herr; lia.
    + right. lia.
    + fold seg. unfold seg. destruct (f_seg_len st =? 0); [exact Hcount|]. lia.
Qed.

Lemma fin_done_loop n : forall i st,
  fin_done sg0 i st -> (i + n = List.length sg0)%nat ->
  fin_done sg0 (i + n) (finalise_loop seg_mask max_len n i st).
Proof.
  induction n as [|n IH]; intros i st Hinv Hn; cbn [finalise_loop].
  - rewrite Nat.add_0_r. exact Hinv.
  - destruct (lookup_lt_is_Some_2 sg0 i ltac:(lia)) as [s Hs].
    replace (i + S n)%nat with (S i + n)%nat by lia.
    apply IH; [|lia]. eapply fin_done_step; eassumption.
Qed.
End Unswizzle.

Lemma finalise_done dev sg a :
  fin_done sg (List.length sg)
    (finalise_loop (dma_get_seg_boundary dev) (dma_get_max_seg_size dev)
       (List.length sg) 0 (mk_fin sg 0 0 0 a 1)).
Proof.
  apply (fin_done_loop _ _ sg (List.length sg) 0%nat); [apply fin_done_init | reflexivity].
Qed.

(** X12: [__finalise_sg] gives every entry its offset and length back from
    the dma fields where the rewrite pass parked them and keeps its page;
    it returns at least 1 and at most the number of entries (1 for an
    empty list), and every entry from index [count] on carries the error
    sentinel and a zero dma length. *)
Theorem finalise_unswizzles dev sg a :
  let r := __finalise_sg dev sg a in
  List.length (snd r) = List.length sg /\
  1 <= fst r <= Z.max 1 (Z.of_nat (List.length sg)) /\
  forall k s, sg !! k = Some s ->
    exists e, snd r !! k = Some e /\ page e = page s /\
              offset e = u32 (dma_address s) /\ length e = dma_length s /\
              (fst r <= Z.of_nat k ->
               dma_address e = DMA_ERROR_CODE /\ dma_length e = 0).
Proof.
  cbv zeta. unfold __finalise_sg. cbn [fst snd].
  destruct (finalise_done dev sg a) as [Hlen _ Hdone Hseg Hcount].
  split; [exact Hlen|]. split.
  - rewrite Hcount. destruct Hseg as [(H0 & -> & _)|H]; lia.
  - intros k s Hs.
    destruct (Hdone k s ltac:(eapply lookup_lt_Some; exact Hs) Hs)
      as (e & He & Hp & Ho & Hl & Herr).
    exists e. repeat split; try assumption; apply Herr; lia.
Qed.

Lemma lookup_map_Some {A B} (f : A -> B) (l : list A) i x :
  l !! i = Some x -> map f l !! i = Some (f x).
Proof. exact (list_lookup_fmap_Some_2 f l i x). Qed.

Lemma rewrite_one_parks iovad s :
  sg_wf s ->
  page (fst (rewrite_one iovad s)) = page s /\
  u32 (dma_address (fst (rewrite_one iovad s))) = offset s /\
  dma_length (fst (rewrite_one iovad s)) = length s.
Proof.
  intros (Ho & Hl & _ & _). unfold rewrite_one. cbn.
  split; [reflexivity|]. split; apply u32_id; lia.
Qed.

(** X13: a successful [iommu_dma_map_sg] hands the list back describing
    the same memory as before: every entry has the page, the offset and
    the length the caller gave it.  The count returned is at least 1 and
    at most the number of entries, and every entry from that index on
    carries the error sentinel and a zero dma length. *)
Theorem map_sg_success_keeps_buffers K ops dev sg prot (coherent : bool) w q d n out w' :
  attached w dev q d ->
  Forall sg_wf sg ->
  iommu_dma_map_sg K ops dev sg prot coherent w = Ret (n, out) w' ->
  n <> 0 ->
  Forall2 same_buffer sg out /\
  1 <= n <= Z.max 1 (Z.of_nat (List.length sg)) /\
  forall k e, out !! k = Some e -> n <= Z.of_nat k ->
              dma_address e = DMA_ERROR_CODE /\ dma_length e = 0.
Proof.
  intros Hat Hwf Hrun Hn.
  rewrite (map_sg_run K ops dev sg prot coherent w q d Hat) in Hrun.
  cbv zeta in Hrun.
  destruct (alloc_iova _ _ _ _) as [[i iovad']|]; [|injection Hrun as <- _ _; contradiction].
  destruct (_ <? _); [injection Hrun as <- _ _; contradiction|].
  destruct (_ <? _); [discriminate|].
  match type of Hrun with Ret (__finalise_sg ?dv ?l ?a) _ = _ =>
    destruct (finalise_done dv l a) as [Hlen _ Hdone Hseg Hcount];
    unfold __finalise_sg in Hrun; cbv zeta in Hrun end.
  injection Hrun as Hn' Hout' _. rewrite Hn' in Hcount. rewrite Hout' in Hlen, Hdone.
  clear Hn' Hout'.
  assert (Hk : forall k s, fst (rewrite_sg (iovad d) sg 0) !! k = Some s ->
             exists e, out !! k = Some e /\ page e = page s /\
                       offset e = u32 (dma_address s) /\ length e = dma_length s /\
                       (n <= Z.of_nat k ->
                        dma_address e = DMA_ERROR_CODE /\ dma_length e = 0)).
  { intros k s Hs.
    destruct (Hdone k s ltac:(eapply lookup_lt_Some; exact Hs) Hs)
      as (e & He & Hp & Ho & Hl & Herr).
    exists e. repeat split; try assumption; apply Herr; lia. }
  assert (Hcount' : 1 <= n <= Z.max 1 (Z.of_nat (List.length (fst (rewrite_sg (iovad d) sg 0))))).
  { destruct Hseg as [(H0 & Hz & _)|H]; [rewrite Hz in Hcount|]; lia. }
  clear Hcount Hseg Hdone. rename Hcount' into Hcount.
  rewrite rewrite_sg_fst in Hlen, Hk. rewrite length_map in Hlen.
  rewrite rewrite_sg_fst, length_map in Hcount.
  split; [|split; [exact Hcount|]].
  - apply Forall2_same_length_lookup_2; [symmetry; exact Hlen|].
    intros k s e Hs He.
    destruct (Hk k (fst (rewrite_one (iovad d) s))) as (e' & He' & Hp & Ho & Hl & _).
    { apply (lookup_map_Some (fun s0 => fst (rewrite_one (iovad d) s0))). exact Hs. }
    rewrite He in He'. injection He' as <-.
    destruct (rewrite_one_parks (iovad d) s) as (Hp' & Ho' & Hl').
    { eapply Forall_lookup_1; eassumption. }
    unfold same_buffer. rewrite Hp, Ho, Hl. repeat split; assumption.
  - intros k e He Hge.
    assert (Hlt : (k < List.length sg)%nat).
    { rewrite <- Hlen. eapply lookup_lt_Some. exact He. }
    destruct (lookup_lt_is_Some_2 sg k Hlt) as [s Hs].
    destruct (Hk k (fst (rewrite_one (iovad d) s))) as (e' & He' & _ & _ & _ & Herr).
    { apply (lookup_map_Some (fun s0 => fst (rewrite_one (iovad d) s0))). exact Hs. }
    rewrite He in He'. injection He' as <-. apply Herr. exact Hge.
Qed.

(** ** The address of the first segment *)

Lemma parked_extent_app l1 l2 :
  parked_extent (l1 ++ l2) = parked_extent l1 + parked_extent l2.
Proof.
  induction l1 as [|x l1 IH]; [reflexivity|].
  change (u32 (dma_address x) + dma_length x + parked_extent (l1 ++ l2)
          = u32 (dma_address x) + dma_length x + parked_extent l1 + parked_extent l2).
  rewrite IH. lia.
Qed.

Lemma parked_extent_nonneg sg :
  Forall (fun s => 0 <= dma_length s) sg -> 0 <= parked_extent sg.
Proof.
  induction 1 as [|s sg Hs _ IH]; [cbn; lia|].
  change (0 <= u32 (dma_address s) + dma_length s + parked_extent sg).
  pose proof (u32_range (dma_address s)). lia.
Qed.

Lemma parked_extent_take sg i :
  Forall (fun s => 0 <= dma_length s) sg ->
  parked_extent (take i sg) <= parked_extent sg.
Proof.
  intros Hwf.
  pose proof (parked_extent_app (take i sg) (drop i sg)) as Happ.
  rewrite take_drop in Happ.
  assert (0 <= parked_extent (drop i sg)).
  { apply parked_extent_nonneg. apply Forall_drop. exact Hwf. }
  lia.
Qed.

Lemma parked_extent_take_S sg i s :
  sg !! i = Some s ->
  parked_extent (take (S i) sg)
  = parked_extent (take i sg) + (u32 (dma_address s) + dma_length s).
Proof.
  intros H. rewrite (take_S_r _ _ _ H), parked_extent_app.
  change (parked_extent [s]) with (u32 (dma_address s) + dma_length s + 0). lia.
Qed.

Section Head.
Context (seg_mask max_len a : Z) (sg0 : list scatterlist).
Hypothesis Hnonneg : Forall (fun s => 0 <= dma_length s) sg0.
Hypothesis Hextent : parked_extent sg0 < 2 ^ 32.

Lemma fin_head_first s0 :
  sg0 !! 0%nat = Some s0 ->
  0 < u32 (dma_address s0) + dma_length s0 ->
  fin_head a sg0 1 (finalise_step seg_mask max_len 0 (mk_fin sg0 0 0 0 a 1)).
Proof.
  intros Hs0 Hpos.
  pose proof (parked_extent_take_S sg0 0 s0 Hs0) as HS. rewrite take_0 in HS.
  change (parked_extent []) with 0 in HS.
  pose proof (parked_extent_take sg0 1 Hnonneg) as Hle.
  unfold finalise_step. cbn [f_sg f_seg f_seg_len f_seg_dma f_dma_addr f_count].
  rewrite Hs0. cbn [Z.eqb negb andb]. constructor; cbn [f_sg f_seg f_seg_len].
  - intros _. rewrite u32_id by lia. lia.
  - exists s0. eexists. split; [exact Hs0|].
    rewrite list_lookup_alter_eq, list_lookup_insert_eq
      by (eapply lookup_lt_Some; exact Hs0).
    split; reflexivity.
Qed.

Lemma fin_head_step i st s :
  (1 <= i)%nat ->
  fin_done sg0 i st -> fin_head a sg0 i st -> sg0 !! i = Some s ->
  fin_head a sg0 (S i) (finalise_step seg_mask max_len i st).
Proof.
  intros Hi [Hlen Hrest _ Hseg _] [Hfl (s0 & e0 & Hs0 & He0 & Ha)] Hs.
  assert (Hcur : f_sg st !! i = Some s) by (rewrite Hrest by lia; exact Hs).
  assert (Hdl : 0 <= dma_length s).
  { eapply (Forall_lookup_1 _ _ _ _ Hnonneg). exact Hs. }
  pose proof (u32_range (dma_address s)) as Hda.
  pose proof (parked_extent_take_S sg0 i s Hs) as HS.
  pose proof (parked_extent_take sg0 (S i) Hnonneg) as Hle.
  unfold finalise_step. rewrite Hcur. cbv zeta.
  destruct (negb (f_seg_len st =? 0) && _ && _ && _) eqn:Hmerge.
  - constructor; cbn [f_sg f_seg f_seg_len].
    + intros H0. specialize (Hfl H0). rewrite u32_id by lia. lia.
    + exists s0. destruct (decide (f_seg st = 0%nat)) as [H0|H0].
      * eexists. split; [exact Hs0|].
        rewrite H0, list_lookup_alter_eq, list_lookup_insert_ne, He0 by lia.
        split; [reflexivity|exact Ha].
      * exists e0. split; [exact Hs0|].
        rewrite list_lookup_alter_ne, list_lookup_insert_ne by lia.
        split; assumption.
  - set (seg := if f_seg_len st =? 0 then f_seg st else S (f_seg st)).
    assert (Hseg0 : seg <> 0%nat).
    { unfold seg. destruct (f_seg_len st =? 0) eqn:H0; [|lia].
      apply Z.eqb_eq in H0. intros Hz. specialize (Hfl Hz). lia. }
    constructor; cbn [f_sg f_seg f_seg_len].
    + intros Hz. contradiction.
    + exists s0, e0. split; [exact Hs0|].
      rewrite list_lookup_alter_ne, list_lookup_insert_ne by lia.
      split; assumption.
Qed.

Lemma fin_head_loop n : forall i st,
  (1 <= i)%nat ->
  fin_done sg0 i st -> fin_head a sg0 i st -> (i + n = List.length sg0)%nat ->
  fin_head a sg0 (i + n) (finalise_loop seg_mask max_len n i st).
Proof.
  induction n as [|n IH]; intros i st Hi Hd Hh Hn; cbn [finalise_loop].
  - rewrite Nat.add_0_r. exact Hh.
  - destruct (lookup_lt_is_Some_2 sg0 i ltac:(lia)) as [s Hs].
    replace (i + S n)%nat with (S i + n)%nat by lia.
    apply IH; [lia| | |lia].
    + eapply fin_done_step; eassumption.
    + eapply fin_head_step; eassumption.
Qed.
End Head.

Lemma finalise_head dev sg a s0 rest :
  sg = s0 :: rest ->
  Forall (fun s => 0 <= dma_length s) sg ->
  0 < u32 (dma_address s0) + dma_length s0 ->
  parked_extent sg < 2 ^ 32 ->
  exists e0 out,
    snd (__finalise_sg dev sg a) = e0 :: out /\
    dma_address e0 = u64 (a + u32 (dma_address s0)).
Proof.
  intros -> Hnn Hpos Hext. unfold __finalise_sg. cbn [snd].
  cbn [List.length finalise_loop].
  set (st1 := finalise_step _ _ 0 _).
  assert (Hd1 : fin_done (s0 :: rest) 1 st1).
  { apply fin_done_step with (s := s0); [apply fin_done_init | reflexivity]. }
  assert (Hh1 : fin_head a (s0 :: rest) 1 st1).
  { apply fin_head_first with (s0 := s0); (assumption || reflexivity). }
  pose proof (fin_head_loop (dma_get_seg_boundary dev) (dma_get_max_seg_size dev) a
                (s0 :: rest) Hnn Hext (List.length rest) 1 st1 ltac:(lia) Hd1 Hh1
                ltac:(reflexivity)) as [_ (s0' & e0 & Hs0 & He0 & Ha)].
  cbn in Hs0. injection Hs0 as <-.
  destruct (f_sg _) as [|e out]; [discriminate|].
  cbn in He0. injection He0 as ->. exists e0, out. split; [reflexivity | exact Ha].
Qed.

Lemma map_sg_success_keeps_buffers_witness :
  let sg := [mk_sg 5 100 3000 0 0; mk_sg 6 0 4096 0 0] in
  let out := [mk_sg 5 100 3000 4196 3996; mk_sg 6 0 4096 8192 4096] in
  Forall2 same_buffer sg out /\
  1 <= 2 <= Z.max 1 (Z.of_nat (List.length sg)) /\
  forall k e, out !! k = Some e -> 2 <= Z.of_nat k ->
              dma_address e = DMA_ERROR_CODE /\ dma_length e = 0.
Proof.
  apply (map_sg_success_keeps_buffers K4k ops_good dev0
           [mk_sg 5 100 3000 0 0; mk_sg 6 0 4096 0 0] 3 true
           (world_attached K4k ops_good) 0%nat
           (mk_dma_domain (mk_domain 1 true 0 (2 ^ 32 - 1) []) iovad_4k 2)
           2 [mk_sg 5 100 3000 4196 3996; mk_sg 6 0 4096 8192 4096]
           (set_dom (world_attached K4k ops_good) 0%nat
              (mk_dma_domain (mk_domain 1 true 0 (2 ^ 32 - 1) [(4096, 8192)])
                 (mk_iovad 4096 1 1048575 [mk_iova 1 2]) 2))).
  - split; reflexivity.
  - repeat constructor; vm_compute; congruence.
  - vm_compute. reflexivity.
  - lia.
Defined.

Lemma parked_rewrite iovad sg :
  Forall sg_wf sg ->
  parked_extent (map (fun s => fst (rewrite_one iovad s)) sg) = sg_extent sg /\
  Forall (fun s => 0 <= dma_length s) (map (fun s => fst (rewrite_one iovad s)) sg).
Proof.
  induction 1 as [|s sg Hs _ [IH1 IH2]]; [split; [reflexivity | constructor]|].
  destruct (rewrite_one_parks iovad s Hs) as (_ & Ho & Hl).
  split.
  - cbn [map]. unfold parked_extent, sg_extent in *. cbn [fold_right].
    rewrite IH1, Ho, Hl. reflexivity.
  - cbn [map]. constructor; [|exact IH2]. rewrite Hl. destruct Hs as (_ & Hlen & _). lia.
Qed.

Section MapUnmapSg.
Context (K : kconst) (ops : iommu_ops).
(** The backend unmaps what it is asked to unmap. *)
Hypothesis Hunmap : forall dm a len, len <= fst (iommu_unmap ops dm a len).

(** X14: with no bus offset between device and IOMMU, a list whose first
    segment is not empty and starts within its first granule, and whose
    segments add up to less than 4 GiB, is unmapped by [iommu_dma_unmap_sg]
    after a successful [iommu_dma_map_sg] so that the allocator, the
    reference count and the device's domain are as they were before the
    mapping. *)
Theorem map_unmap_sg_round_trip dev s0 rest prot (coherent : bool) w q d k n out w1 :
  attached w dev q d ->
  0 <= k < 64 -> granule (iovad d) = 2 ^ k -> 1 <= start_pfn (iovad d) ->
  0 <= (if coherent then coherent_dma_mask dev else dma_get_mask dev) < 2 ^ 64 ->
  dma_pfn_offset dev = 0 ->
  Forall sg_wf (s0 :: rest) ->
  0 < length s0 -> offset s0 < 2 ^ k ->
  sg_extent (s0 :: rest) < 2 ^ 32 ->
  0 < snd (rewrite_sg (iovad d) (s0 :: rest) 0) ->
  snd (rewrite_sg (iovad d) (s0 :: rest) 0) + 2 ^ k <= 2 ^ 64 ->
  iommu_dma_map_sg K ops dev (s0 :: rest) prot coherent w = Ret (n, out) w1 ->
  n <> 0 ->
  exists w2 d2,
    iommu_dma_unmap_sg ops dev out w1 = Ret tt w2 /\
    mm w2 = mm w /\ archdata w2 = archdata w /\
    dma_domains w2 = <[q := d2]> (dma_domains w) /\
    iovad d2 = iovad d /\ kref d2 = kref d.
Proof.
  intros Hat Hk Hg Hstart Hmask Hbus Hwf Hl0 Ho0 Hext Hpos Hnowrap Hrun Hn.
  rewrite (map_sg_run K ops dev (s0 :: rest) prot coherent w q d Hat) in Hrun.
  cbv zeta in Hrun.
  set (iova_len := snd (rewrite_sg (iovad d) (s0 :: rest) 0)) in *.
  destruct (alloc_iova _ _ _ _) as [[i iovad']|] eqn:Hiova;
    [|injection Hrun as <- _ _; contradiction].
  destruct (_ <? iova_len); [injection Hrun as <- _ _; contradiction|].
  rewrite Hbus, Z.shiftl_0_l in Hrun. change (u64 0) with 0 in Hrun.
  destruct (_ <? 0); [discriminate|].
  pose proof (alloc_iova_frame _ k _ iova_len _ _ Hk Hg Hstart Hmask Hpos Hnowrap Hiova)
    as (Haddr & Hlo & Htop & _ & Hiovad).
  rewrite Haddr, Z.sub_0_r in Hrun.
  rewrite rewrite_sg_fst in Hrun.
  destruct (parked_rewrite (iovad d) (s0 :: rest) Hwf) as [Hpe Hnn].
  pose proof (Forall_inv Hwf) as Hwf0.
  destruct (rewrite_one_parks (iovad d) s0 Hwf0) as (_ & Hoff & Hlen).
  destruct Hwf0 as (Hoff0 & _).
  assert (Hp : 0 < 2 ^ k) by (apply Z.pow_pos_nonneg; lia).
  match type of Hrun with Ret (__finalise_sg ?dv (map ?f _) ?a) _ = _ =>
    destruct (finalise_head dv (map f (s0 :: rest)) a (f s0) (map f rest)
                eq_refl Hnn ltac:(cbv beta; rewrite Hoff, Hlen; lia)
                ltac:(rewrite Hpe; exact Hext))
      as (e0 & out' & Hout & He0);
    destruct (__finalise_sg dv (map f (s0 :: rest)) a) as [n' out0] end.
  cbn [snd] in Hout. subst out0. injection Hrun as -> <- <-.
  cbv beta in He0. rewrite Hoff in He0. rewrite u64_id in He0 by nia.
  assert (Hpfn : Z.shiftr (dma_address e0) k = pfn_lo i).
  { rewrite He0, Z.shiftr_div_pow2 by lia.
    rewrite Z.add_comm, Z.div_add by lia. rewrite Z.div_small by lia. lia. }
  unfold iommu_dma_unmap_sg.
  unfold mbind at 1. unfold M_bind at 1. unfold arch_get_dma_domain at 1.
  cbn [archdata set_dom]. rewrite (proj1 Hat).
  erewrite unmap_run by (cbn; apply lookup_insert_eq).
  cbn [iovad domain kref].
  assert (Hshift : iova_shift iovad' = k).
  { rewrite Hiovad. unfold iova_shift. cbn [granule]. rewrite Hg.
    apply ffs_pow2. exact Hk. }
  assert (Hfind : find_iova iovad' (pfn_lo i) = Some i).
  { rewrite Hiovad. apply find_iova_head. lia. }
  rewrite Hshift, Hpfn, Hfind. cbv zeta.
  match goal with |- context [fst ?r <? ?s] =>
    pose proof (Hunmap _ _ _ : s <= fst r) as Hu;
    apply Z.ltb_ge in Hu; rewrite Hu end.
  eexists. eexists. split; [reflexivity|].
  rewrite (free_alloc_iova _ _ _ _ _ _ Hiova).
  unfold set_dom. cbn. rewrite insert_insert_eq.
  repeat split; reflexivity.
Qed.
End MapUnmapSg.

Lemma map_unmap_sg_round_trip_witness :
  let w := world_attached K4k ops_good in
  let w1 := set_dom w 0%nat
              (mk_dma_domain (mk_domain 1 true 0 (2 ^ 32 - 1) [(4096, 8192)])
                 (mk_iovad 4096 1 1048575 [mk_iova 1 2]) 2) in
  exists w2 d2,
    iommu_dma_unmap_sg ops_good dev0
      [mk_sg 5 100 3000 4196 3996; mk_sg 6 0 4096 8192 4096] w1 = Ret tt w2 /\
    mm w2 = mm w /\ archdata w2 = archdata w /\
    dma_domains w2 = <[0%nat := d2]> (dma_domains w) /\
    iovad d2 = iovad_4k /\ kref d2 = 2.
Proof.
  apply (map_unmap_sg_round_trip K4k ops_good
           ltac:(intros dm a len; apply Z.le_refl)
           dev0 (mk_sg 5 100 3000 0 0) [mk_sg 6 0 4096 0 0] 3 true
           (world_attached K4k ops_good) 0%nat
           (mk_dma_domain (mk_domain 1 true 0 (2 ^ 32 - 1) []) iovad_4k 2) 12 2).
  - split; reflexivity.
  - lia.
  - reflexivity.
  - vm_compute. discriminate.
  - vm_compute. split; [discriminate | reflexivity].
  - reflexivity.
  - repeat constructor; vm_compute; congruence.
  - vm_compute. reflexivity.
  - vm_compute. reflexivity.
  - vm_compute. reflexivity.
  - vm_compute. reflexivity.
  - vm_compute. discriminate.
  - vm_compute. reflexivity.
  - lia.
Defined.

(** ** Where the segments lie *)

Lemma sg_total_app l1 l2 : sg_total (l1 ++ l2) = sg_total l1 + sg_total l2.
Proof.
  induction l1 as [|x l1 IH]; [reflexivity|].
  change (length x + sg_total (l1 ++ l2) = length x + sg_total l1 + sg_total l2).
  rewrite IH. lia.
Qed.

Lemma sg_total_nonneg sg :
  Forall (fun s => 0 <= length s) sg -> 0 <= sg_total sg.
Proof.
  induction 1 as [|s sg Hs _ IH]; [cbn; lia|].
  change (0 <= length s + sg_total sg). lia.
Qed.

Lemma sg_total_take sg i :
  Forall (fun s => 0 <= length s) sg -> sg_total (take i sg) <= sg_total sg.
Proof.
  intros Hwf.
  pose proof (sg_total_app (take i sg) (drop i sg)) as Happ.
  rewrite take_drop in Happ.
  assert (0 <= sg_total (drop i sg)).
  { apply sg_total_nonneg. apply Forall_drop. exact Hwf. }
  lia.
Qed.

Lemma sg_total_take_S sg i s :
  sg !! i = Some s -> sg_total (take (S i) sg) = sg_total (take i sg) + length s.
Proof.
  intros H. rewrite (take_S_r _ _ _ H), sg_total_app.
  change (sg_total [s]) with (length s + 0). lia.
Qed.

Lemma fit_lengths_nonneg sg :
  Forall (fun s => u32 (dma_address s) <= length s) sg ->
  Forall (fun s => 0 <= length s) sg.
Proof.
  induction 1 as [|s l Hs _ IH]; [constructor|].
  constructor; [|exact IH]. pose proof (u32_range (dma_address s)). lia.
Qed.

Section Span.
Context (seg_mask max_len a : Z) (sg0 : list scatterlist).
Hypothesis Hfit : Forall (fun s => u32 (dma_address s) <= length s) sg0.
Hypothesis Htot : sg_total sg0 < 2 ^ 32.
Hypothesis Ha : 0 <= a /\ a + sg_total sg0 < 2 ^ 64.

Lemma fit_nonneg : Forall (fun s => 0 <= length s) sg0.
Proof. exact (fit_lengths_nonneg sg0 Hfit). Qed.

Lemma fin_span_init : fin_span a sg0 0 (mk_fin sg0 0 0 0 a 1).
Proof.
  constructor; cbn [f_sg f_seg f_dma_addr].
  - rewrite take_0. cbn. lia.
  - intros H. lia.
  - intros k e e' H. lia.
Qed.

Lemma fin_span_step i st s :
  fin_done sg0 i st -> fin_span a sg0 i st -> sg0 !! i = Some s ->
  fin_span a sg0 (S i) (finalise_step seg_mask max_len i st).
Proof.
  intros [Hlen Hrest _ Hseg _] [Haddr Hsegs Hsorted] Hs.
  assert (Hcur : f_sg st !! i = Some s) by (rewrite Hrest by lia; exact Hs).
  assert (Hfs : u32 (dma_address s) <= length s).
  { eapply (Forall_lookup_1 _ _ _ _ Hfit). exact Hs. }
  pose proof (u32_range (dma_address s)) as Hoff.
  pose proof (sg_total_take_S sg0 i s Hs) as HS.
  pose proof (sg_total_take sg0 (S i) fit_nonneg) as HleS.
  pose proof (sg_total_take sg0 i fit_nonneg) as Hle.
  assert (H32 : 2 ^ 32 < 2 ^ 64) by (apply Z.pow_lt_mono_r; lia).
  assert (HP : 0 <= sg_total (take i sg0)).
  { apply sg_total_nonneg, Forall_take, fit_nonneg. }
  unfold finalise_step. rewrite Hcur. cbv zeta.
  set (new := mk_sg (page s) (u32 (dma_address s)) (dma_length s) DMA_ERROR_CODE 0).
  destruct (negb (f_seg_len st =? 0) && _ && _ && _) eqn:Hmerge.
  - assert (Hne : f_seg_len st <> 0).
    { apply andb_true_iff in Hmerge. destruct Hmerge as [Hm _].
      apply andb_true_iff in Hm. destruct Hm as [Hm _].
      apply andb_true_iff in Hm. destruct Hm as [Hm _].
      apply negb_true_iff, Z.eqb_neq in Hm. exact Hm. }
    assert (Hlt : (f_seg st < i)%nat)
      by (destruct Hseg as [(_ & _ & H0)|H]; [contradiction|exact H]).
    specialize (Hsegs ltac:(lia)).
    constructor; cbn [f_sg f_seg f_dma_addr].
    + rewrite Haddr, HS. rewrite u64_id by lia. lia.
    + intros _ k e Hk He.
      destruct (decide (k = f_seg st)) as [->|Hks].
      * rewrite list_lookup_alter_eq, list_lookup_insert_ne in He by lia.
        destruct (f_sg st !! f_seg st) as [e1|] eqn:He1; [|discriminate].
        cbn in He. injection He as <-.
        destruct (Hsegs (f_seg st) e1 ltac:(lia) He1) as (H1 & H2 & H3).
        cbn [set_dma dma_address dma_length].
        rewrite u32_id by lia. lia.
      * rewrite list_lookup_alter_ne, list_lookup_insert_ne in He by lia.
        destruct (Hsegs k e Hk He) as (H1 & H2 & H3). lia.
    + intros k e e' Hk He He'.
      rewrite list_lookup_alter_ne, list_lookup_insert_ne in He by lia.
      destruct (decide (S k = f_seg st)) as [Hks|Hks].
      * rewrite <- Hks, list_lookup_alter_eq, list_lookup_insert_ne in He' by lia.
        destruct (f_sg st !! S k) as [e1|] eqn:He1; [|discriminate].
        cbn in He'. injection He' as <-. cbn [set_dma dma_address].
        apply (Hsorted k e e1); [lia | exact He | exact He1].
      * rewrite list_lookup_alter_ne, list_lookup_insert_ne in He' by lia.
        apply (Hsorted k e e'); [lia | exact He | exact He'].
  - set (seg := if f_seg_len st =? 0 then f_seg st else S (f_seg st)).
    assert (Hle' : (f_seg st <= seg <= S (f_seg st))%nat /\ (seg <= i)%nat /\
                   (i = 0%nat -> seg = 0%nat)).
    { unfold seg. destruct (f_seg_len st =? 0) eqn:H0.
      - destruct Hseg as [(-> & -> & _)|H]; lia.
      - apply Z.eqb_neq in H0. destruct Hseg as [(_ & _ & H1)|H]; [contradiction|lia]. }
    destruct Hle' as (Hseg1 & Hseg2 & Hseg3).
    constructor; cbn [f_sg f_seg f_dma_addr].
    + rewrite Haddr, HS. rewrite u64_id by lia. lia.
    + intros _ k e Hk He.
      destruct (decide (k = seg)) as [->|Hks].
      * rewrite list_lookup_alter_eq in He.
        destruct (_ !! seg) as [e1|]; [|discriminate].
        cbn in He. injection He as <-. cbn [set_dma dma_address dma_length].
        rewrite Haddr.
        rewrite (u64_id (a + sg_total (take i sg0) + u32 (dma_address s))) by lia.
        rewrite (u32_id (length s - u32 (dma_address s))) by lia. lia.
      * rewrite list_lookup_alter_ne, list_lookup_insert_ne in He by lia.
        destruct (Hsegs ltac:(lia) k e ltac:(lia) He) as (H1 & H2 & H3). lia.
    + intros k e e' Hk He He'.
      rewrite list_lookup_alter_ne, list_lookup_insert_ne in He by lia.
      destruct (Hsegs ltac:(lia) k e ltac:(lia) He) as (H1 & H2 & H3).
      destruct (decide (S k = seg)) as [Hks|Hks].
      * rewrite Hks, list_lookup_alter_eq in He'.
        destruct (_ !! seg) as [e1|]; [|discriminate].
        cbn in He'. injection He' as <-. cbn [set_dma dma_address].
        rewrite Haddr.
        rewrite (u64_id (a + sg_total (take i sg0) + u32 (dma_address s))) by lia. lia.
      * rewrite list_lookup_alter_ne, list_lookup_insert_ne in He' by lia.
        apply (Hsorted k e e'); [lia | exact He | exact He'].
Qed.

Lemma fin_span_loop n : forall i st,
  fin_done sg0 i st -> fin_span a sg0 i st -> (i + n = List.length sg0)%nat ->
  fin_done sg0 (i + n) (finalise_loop seg_mask max_len n i st) /\
  fin_span a sg0 (i + n) (finalise_loop seg_mask max_len n i st).
Proof.
  induction n as [|n IH]; intros i st Hd Hsp Hn; cbn [finalise_loop].
  - rewrite Nat.add_0_r. split; assumption.
  - destruct (lookup_lt_is_Some_2 sg0 i ltac:(lia)) as [s Hs].
    replace (i + S n)%nat with (S i + n)%nat by lia.
    apply IH; [| |lia].
    + eapply fin_done_step; eassumption.
    + eapply fin_span_step; eassumption.
Qed.
End Span.

Lemma finalise_span dev sg a :
  Forall (fun s => u32 (dma_address s) <= length s) sg ->
  sg_total sg < 2 ^ 32 -> 0 <= a -> a + sg_total sg < 2 ^ 64 ->
  let st := finalise_loop (dma_get_seg_boundary dev) (dma_get_max_seg_size dev)
              (List.length sg) 0 (mk_fin sg 0 0 0 a 1) in
  fin_done sg (List.length sg) st /\ fin_span a sg (List.length sg) st.
Proof.
  intros Hfit Htot Ha0 Ha1.
  exact (fin_span_loop (dma_get_seg_boundary dev) (dma_get_max_seg_size dev) a sg
           Hfit Htot (conj Ha0 Ha1) (List.length sg) 0%nat (mk_fin sg 0 0 0 a 1)
           (fin_done_init sg a) (fin_span_init a sg) eq_refl).
Qed.

(** X20: on a list whose parked offsets do not exceed the widened lengths
    and whose widened lengths add up to less than 4 GiB, the segments
    [__finalise_sg] emits for a pass started at address [a] lie within
    [a, a + total], each has a non-negative length, and each ends at or
    before the start of the next. *)
Theorem finalise_segments_within dev sg a :
  Forall (fun s => u32 (dma_address s) <= length s) sg ->
  sg_total sg < 2 ^ 32 -> 0 <= a -> a + sg_total sg < 2 ^ 64 ->
  let r := __finalise_sg dev sg a in
  (forall k e, Z.of_nat k < fst r -> snd r !! k = Some e ->
     a <= dma_address e /\ 0 <= dma_length e /\
     dma_address e + dma_length e <= a + sg_total sg) /\
  (forall k e e', Z.of_nat (S k) < fst r ->
     snd r !! k = Some e -> snd r !! S k = Some e' ->
     dma_address e + dma_length e <= dma_address e').
Proof.
  intros Hfit Htot Ha0 Ha1. cbv zeta. unfold __finalise_sg. cbn [fst snd].
  destruct (finalise_span dev sg a Hfit Htot Ha0 Ha1)
    as [[Hlen _ _ Hseg Hcount] [_ Hsegs Hsorted]].
  rewrite take_ge in Hsegs by lia.
  split.
  - intros k e Hk He.
    assert (Hpos : (0 < List.length sg)%nat).
    { rewrite <- Hlen. apply lookup_lt_Some in He. lia. }
    apply (Hsegs Hpos k e); [lia | exact He].
  - intros k e e' Hk He He'. apply (Hsorted k e e'); [lia | exact He | exact He'].
Qed.

Lemma rewrite_fits iovad k sg :
  0 <= k < 32 -> granule iovad = 2 ^ k -> Forall sg_wf sg ->
  Forall (fun s => offset s < 2 ^ k /\ length s + 2 * 2 ^ k <= 2 ^ 32) sg ->
  Forall (fun s => u32 (dma_address s) <= length s)
         (map (fun s => fst (rewrite_one iovad s)) sg).
Proof.
  intros Hk Hg Hwf Hfit.
  assert (Hp : 0 < 2 ^ k) by (apply Z.pow_pos_nonneg; lia).
  induction sg as [|s rest IH]; [constructor|].
  inversion Hwf as [|? ? Hs Hrest]; subst.
  inversion Hfit as [|? ? [Ho Hl] Hfrest]; subst.
  cbn [map]. constructor; [|apply IH; assumption].
  destruct (rewrite_one_widened iovad k s Hk Hg Hs Hl)
    as ((_ & Hda & _ & Hm & _ & Hle & Hcov & _) & _ & _).
  destruct (rewrite_one_parks iovad s Hs) as (_ & Hu & _).
  rewrite Hu. destruct Hs as (Ho0 & Hl0 & _).
  assert (Hz : offset (fst (rewrite_one iovad s)) = 0).
  { unfold rewrite_one. cbn [fst offset].
    rewrite (iova_offset_mod iovad k) by (lia || exact Hg).
    rewrite Z.mod_small by lia. rewrite Z.sub_diag. reflexivity. }
  lia.
Qed.

(** X21: a successful [iommu_dma_map_sg] on a list whose segments each
    start within their first granule returns DMA segments that lie within
    the interval it reserved (seen through the bus offset), each with a
    non-negative length and each ending at or before the start of the
    next. *)
Theorem map_sg_segments_within K ops dev sg prot (coherent : bool) w q d k n out w' :
  attached w dev q d ->
  0 <= k < 32 -> granule (iovad d) = 2 ^ k -> 1 <= start_pfn (iovad d) ->
  0 <= (if coherent then coherent_dma_mask dev else dma_get_mask dev) ->
  (if coherent then coherent_dma_mask dev else dma_get_mask dev) + 2 ^ k < 2 ^ 64 ->
  Forall sg_wf sg ->
  Forall (fun s => offset s < 2 ^ k /\ length s + 2 * 2 ^ k <= 2 ^ 32) sg ->
  0 < sg_total (fst (rewrite_sg (iovad d) sg 0)) < 2 ^ 32 ->
  iommu_dma_map_sg K ops dev sg prot coherent w = Ret (n, out) w' ->
  n <> 0 ->
  exists i d',
    dma_domains w' = <[q := d']> (dma_domains w) /\
    rbroot (iovad d') = i :: rbroot (iovad d) /\
    let base := pfn_lo i * 2 ^ k
                - u64 (Z.shiftl (dma_pfn_offset dev) (PAGE_SHIFT K)) in
    (forall j e, Z.of_nat j < n -> out !! j = Some e ->
       base <= dma_address e /\ 0 <= dma_length e /\
       dma_address e + dma_length e <= base + (pfn_hi i - pfn_lo i + 1) * 2 ^ k) /\
    (forall j e e', Z.of_nat (S j) < n ->
       out !! j = Some e -> out !! S j = Some e' ->
       dma_address e + dma_length e <= dma_address e').
Proof.
  intros Hat Hk Hg Hstart Hmask0 Hmask1 Hwf Hfit Htot Hrun Hn.
  assert (Hp : 0 < 2 ^ k) by (apply Z.pow_pos_nonneg; lia).
  assert (H32 : 2 ^ 32 < 2 ^ 64) by (apply Z.pow_lt_mono_r; lia).
  assert (Hk32 : 2 ^ k < 2 ^ 32) by (apply Z.pow_lt_mono_r; lia).
  assert (Hfit2 : Forall (fun s => length s + 2 * 2 ^ k <= 2 ^ 32) sg).
  { eapply List.Forall_impl; [|exact Hfit]. intros s [_ H]. exact H. }
  pose proof (rewrite_sg_total (iovad d) k sg Hk Hg Hwf Hfit2 0 ltac:(lia) ltac:(lia))
    as Hlen.
  rewrite Z.add_0_l in Hlen.
  pose proof (rewrite_total_aligned (iovad d) k sg Hk Hg Hwf Hfit2) as Hmod.
  pose proof (rewrite_fits (iovad d) k sg Hk Hg Hwf Hfit) as Hfits.
  rewrite (map_sg_run K ops dev sg prot coherent w q d Hat) in Hrun.
  cbv zeta in Hrun. rewrite Hlen in Hrun.
  rewrite rewrite_sg_fst in Hrun, Htot.
  set (sg1 := map (fun s => fst (rewrite_one (iovad d) s)) sg) in *.
  destruct (alloc_iova _ _ _ _) as [[i iovad']|] eqn:Hiova;
    [|injection Hrun as <- _ _; contradiction].
  destruct (_ <? sg_total sg1); [injection Hrun as <- _ _; contradiction|].
  set (bus := u64 (Z.shiftl (dma_pfn_offset dev) (PAGE_SHIFT K))) in *.
  destruct (Z.ltb_spec (iova_dma_addr iovad' i) bus) as [|Hbus]; [discriminate|].
  assert (Hk64 : 0 <= k < 64) by lia.
  assert (Hmask : 0 <= (if coherent then coherent_dma_mask dev else dma_get_mask dev)
                  < 2 ^ 64) by lia.
  assert (Hpos : 0 < sg_total sg1) by lia.
  assert (Hnw : sg_total sg1 + 2 ^ k <= 2 ^ 64) by lia.
  pose proof (alloc_iova_frame _ k _ (sg_total sg1) _ _ Hk64 Hg Hstart
                Hmask Hpos Hnw Hiova)
    as (Haddr & Hlo & _ & Hcnt & Hiovad).
  pose proof (alloc_iova_bounds _ _ _ _ _ _ Hiova) as (_ & Hlim & _ & _).
  assert (Hshift : iova_shift (iovad d) = k).
  { unfold iova_shift. rewrite Hg. apply ffs_pow2. lia. }
  rewrite Hshift, Z.shiftr_div_pow2 in Hlim by lia.
  assert (Hsize : (pfn_hi i - pfn_lo i + 1) * 2 ^ k = sg_total sg1).
  { rewrite Hcnt. apply Z.mod_divide in Hmod; [|lia]. destruct Hmod as [c Hc].
    rewrite Hc. replace (c * 2 ^ k + 2 ^ k - 1) with (2 ^ k - 1 + c * 2 ^ k) by lia.
    rewrite Z.div_add by lia. rewrite Z.div_small by lia. lia. }
  assert (Htop : (pfn_hi i + 1) * 2 ^ k < 2 ^ 64).
  { pose proof (Z.mul_div_le (if coherent then coherent_dma_mask dev
                              else dma_get_mask dev) (2 ^ k) Hp). nia. }
  pose proof (u64_range (Z.shiftl (dma_pfn_offset dev) (PAGE_SHIFT K))) as Hb.
  fold bus in Hb. rewrite Haddr in Hrun, Hbus.
  match type of Hrun with Ret (__finalise_sg ?dv ?l ?a) _ = _ =>
    destruct (finalise_span dv l a Hfits ltac:(lia) ltac:(lia) ltac:(nia))
      as [[Hlen1 _ _ Hseg Hcount] [_ Hsegs Hsorted]];
    unfold __finalise_sg in Hrun; cbv zeta in Hrun end.
  injection Hrun as Hn' Hout' <-.
  rewrite Hn' in Hcount. rewrite Hout' in Hlen1, Hsegs, Hsorted. clear Hn' Hout'.
  rewrite take_ge in Hsegs by lia.
  exists i. eexists. split; [reflexivity|]. cbn [iovad]. rewrite Hiovad. cbn [rbroot].
  split; [reflexivity|]. cbv zeta. rewrite Hsize. split.
  - intros j e Hj He.
    assert (Hnz : (0 < List.length sg1)%nat).
    { rewrite <- Hlen1. apply lookup_lt_Some in He. lia. }
    apply (Hsegs Hnz j e); [lia | exact He].
  - intros j e e' Hj He He'. apply (Hsorted j e e'); [lia | exact He | exact He'].
Qed.

Lemma map_sg_segments_within_witness :
  let out := [mk_sg 5 100 3000 4196 3996; mk_sg 6 0 4096 8192 4096] in
  let w := world_attached K4k ops_good in
  let d := mk_dma_domain (mk_domain 1 true 0 (2 ^ 32 - 1) []) iovad_4k 2 in
  let w' := set_dom w 0%nat
              (mk_dma_domain (mk_domain 1 true 0 (2 ^ 32 - 1) [(4096, 8192)])
                 (mk_iovad 4096 1 1048575 [mk_iova 1 2]) 2) in
  exists i d',
    dma_domains w' = <[0%nat := d']> (dma_domains w) /\
    rbroot (iovad d') = i :: rbroot (iovad d) /\
    let base := pfn_lo i * 2 ^ 12
                - u64 (Z.shiftl (dma_pfn_offset dev0) (PAGE_SHIFT K4k)) in
    (forall j e, Z.of_nat j < 2 -> out !! j = Some e ->
       base <= dma_address e /\ 0 <= dma_length e /\
       dma_address e + dma_length e <= base + (pfn_hi i - pfn_lo i + 1) * 2 ^ 12) /\
    (forall j e e', Z.of_nat (S j) < 2 ->
       out !! j = Some e -> out !! S j = Some e' ->
       dma_address e + dma_length e <= dma_address e').
Proof.
  apply (map_sg_segments_within K4k ops_good dev0
           [mk_sg 5 100 3000 0 0; mk_sg 6 0 4096 0 0] 3 true
           (world_attached K4k ops_good) 0%nat
           (mk_dma_domain (mk_domain 1 true 0 (2 ^ 32 - 1) []) iovad_4k 2) 12
           2 [mk_sg 5 100 3000 4196 3996; mk_sg 6 0 4096 8192 4096]
           (set_dom (world_attached K4k ops_good) 0%nat
              (mk_dma_domain (mk_domain 1 true 0 (2 ^ 32 - 1) [(4096, 8192)])
                 (mk_iovad 4096 1 1048575 [mk_iova 1 2]) 2))).
  - split; reflexivity.
  - lia.
  - reflexivity.
  - vm_compute. discriminate.
  - vm_compute. discriminate.
  - vm_compute. reflexivity.
  - repeat constructor; vm_compute; congruence.
  - repeat constructor; vm_compute; congruence.
  - vm_compute. split; reflexivity.
  - vm_compute. reflexivity.
  - lia.
Defined.

Lemma finalise_segments_within_witness :
  let sg := [mk_sg 5 0 4096 100 3000; mk_sg 6 0 4096 0 4096] in
  let r := __finalise_sg dev0 sg 4096 in
  (forall k e, Z.of_nat k < fst r -> snd r !! k = Some e ->
     4096 <= dma_address e /\ 0 <= dma_length e /\
     dma_address e + dma_length e <= 4096 + sg_total sg) /\
  (forall k e e', Z.of_nat (S k) < fst r ->
     snd r !! k = Some e -> snd r !! S k = Some e' ->
     dma_address e + dma_length e <= dma_address e').
Proof.
  apply (finalise_segments_within dev0
           [mk_sg 5 0 4096 100 3000; mk_sg 6 0 4096 0 4096] 4096).
  - repeat constructor; vm_compute; congruence.
  - vm_compute. reflexivity.
  - lia.
  - vm_compute. reflexivity.
Defined.

(** ** Coalescing *)

Section Coalesce.
Context (seg_mask max_len a : Z) (sg0 : list scatterlist).
Hypothesis Hfull : Forall (fun s => dma_address s = 0 /\ dma_length s = length s /\
                                    0 < length s) sg0.
Hypothesis Hmax : sg_total sg0 <= max_len.
Hypothesis Ha : 0 <= a /\ a + sg_total sg0 < 2 ^ 32.
Hypothesis Hmask : 0 <= seg_mask < 2 ^ 64 /\ Z.land a seg_mask + sg_total sg0 <= seg_mask.

Lemma full_nonneg : Forall (fun s => 0 <= length s) sg0.
Proof.
  eapply List.Forall_impl; [|exact Hfull]. intros s (_ & _ & H). cbn. lia.
Qed.

Lemma fin_one_first s0 :
  sg0 !! 0%nat = Some s0 ->
  fin_one a sg0 1 (finalise_step seg_mask max_len 0 (mk_fin sg0 0 0 0 a 1)).
Proof.
  intros Hs0.
  destruct (Forall_lookup_1 _ _ _ _ Hfull Hs0) as (Hda & Hdl & Hpos).
  pose proof (sg_total_take_S sg0 0 s0 Hs0) as HS. rewrite take_0 in HS.
  change (sg_total []) with 0 in HS.
  pose proof (sg_total_take sg0 1 full_nonneg) as Hle.
  assert (H32 : 2 ^ 32 < 2 ^ 64) by (apply Z.pow_lt_mono_r; lia).
  unfold finalise_step. cbn [f_sg f_seg f_seg_len f_seg_dma f_dma_addr f_count].
  rewrite Hs0. cbn [Z.eqb negb andb]. rewrite Hda, Hdl. change (u32 0) with 0.
  rewrite !Z.add_0_r, Z.sub_0_r, Z.add_0_l.
  constructor; cbn [f_sg f_seg f_seg_len f_seg_dma f_dma_addr f_count].
  - split; reflexivity.
  - rewrite u32_id by lia. lia.
  - rewrite u32_id, u64_id by lia. split; lia.
  - eexists. rewrite list_lookup_alter_eq, list_lookup_insert_eq
      by (eapply lookup_lt_Some; exact Hs0).
    split; [reflexivity|]. cbn [set_dma dma_address dma_length].
    rewrite u64_id, u32_id by lia. split; lia.
Qed.

Lemma fin_one_step i st s :
  (1 <= i)%nat ->
  fin_done sg0 i st -> fin_one a sg0 i st -> sg0 !! i = Some s ->
  fin_one a sg0 (S i) (finalise_step seg_mask max_len i st).
Proof.
  intros Hi [Hlen Hrest _ _ _] [[Hseg Hcount] Hsl [Hsd Hdma] (e0 & He0 & Hea & Hel)] Hs.
  assert (Hcur : f_sg st !! i = Some s) by (rewrite Hrest by lia; exact Hs).
  destruct (Forall_lookup_1 _ _ _ _ Hfull Hs) as (Hda & Hdl & Hpos).
  pose proof (sg_total_take_S sg0 i s Hs) as HS.
  pose proof (sg_total_take sg0 (S i) full_nonneg) as HleS.
  assert (H32 : 2 ^ 32 < 2 ^ 64) by (apply Z.pow_lt_mono_r; lia).
  assert (HP : 0 < sg_total (take i sg0)).
  { destruct (lookup_lt_is_Some_2 sg0 0 ltac:(apply lookup_lt_Some in Hs; lia)) as [s0 Hs0].
    destruct (Forall_lookup_1 _ _ _ _ Hfull Hs0) as (_ & _ & Hpos0).
    pose proof (sg_total_take_S sg0 0 s0 Hs0) as H1. rewrite take_0 in H1.
    change (sg_total []) with 0 in H1.
    pose proof (sg_total_app (take 1 (take i sg0)) (drop 1 (take i sg0))) as Happ.
    rewrite take_drop, take_take in Happ. replace (1 `min` i)%nat with 1%nat in Happ by lia.
    assert (0 <= sg_total (drop 1 (take i sg0))).
    { apply sg_total_nonneg, Forall_drop, Forall_take, full_nonneg. }
    lia. }
  pose proof (Z.land_nonneg a seg_mask) as Hland.
  unfold finalise_step. rewrite Hcur. cbv zeta.
  rewrite Hsl, Hsd, Hdma, Hda, Hdl. change (u32 0) with 0. rewrite !Z.add_0_r.
  replace (sg_total (take i sg0) =? 0) with false by (symmetry; apply Z.eqb_neq; lia).
  rewrite (u32_id (a + sg_total (take i sg0))) by lia.
  rewrite (u64_id (a + sg_total (take i sg0))) by lia.
  rewrite Z.eqb_refl.
  rewrite (u32_id (sg_total (take i sg0) + length s)) by lia.
  replace (sg_total (take i sg0) + length s <=? max_len) with true
    by (symmetry; apply Z.leb_le; lia).
  rewrite (u64_id (seg_mask - (sg_total (take i sg0) + length s))) by lia.
  replace (Z.land a seg_mask <=? seg_mask - (sg_total (take i sg0) + length s)) with true
    by (symmetry; apply Z.leb_le; lia).
  cbn [negb andb].
  constructor; cbn [f_sg f_seg f_seg_len f_seg_dma f_dma_addr f_count].
  - split; assumption.
  - lia.
  - rewrite u64_id by lia. split; lia.
  - eexists. rewrite Hseg, list_lookup_alter_eq, list_lookup_insert_ne, He0 by lia.
    split; [reflexivity|]. cbn [set_dma dma_address dma_length].
    rewrite Hel, u32_id by lia. split; lia.
Qed.

Lemma fin_one_loop n : forall i st,
  (1 <= i)%nat ->
  fin_done sg0 i st -> fin_one a sg0 i st -> (i + n = List.length sg0)%nat ->
  fin_one a sg0 (i + n) (finalise_loop seg_mask max_len n i st).
Proof.
  induction n as [|n IH]; intros i st Hi Hd Ho Hn; cbn [finalise_loop].
  - rewrite Nat.add_0_r. exact Ho.
  - destruct (lookup_lt_is_Some_2 sg0 i ltac:(lia)) as [s Hs].
    replace (i + S n)%nat with (S i + n)%nat by lia.
    apply IH; [lia| | |lia].
    + eapply fin_done_step; eassumption.
    + eapply fin_one_step; eassumption.
Qed.
End Coalesce.

(** X22: a non-empty list of whole-granule segments (nothing parked as
    offset, every length positive) that together fit the device's maximum
    segment size, do not cross its segment boundary, and end below 4 GiB
    comes out of [__finalise_sg] as a single DMA segment: the count is 1
    and the first entry carries the start address and the total length. *)
Theorem finalise_coalesces dev s0 rest a :
  Forall (fun s => dma_address s = 0 /\ dma_length s = length s /\ 0 < length s)
         (s0 :: rest) ->
  sg_total (s0 :: rest) <= dma_get_max_seg_size dev ->
  0 <= a -> a + sg_total (s0 :: rest) < 2 ^ 32 ->
  0 <= dma_get_seg_boundary dev < 2 ^ 64 ->
  Z.land a (dma_get_seg_boundary dev) + sg_total (s0 :: rest) <= dma_get_seg_boundary dev ->
  let r := __finalise_sg dev (s0 :: rest) a in
  fst r = 1 /\
  exists e0 out, snd r = e0 :: out /\
                 dma_address e0 = a /\ dma_length e0 = sg_total (s0 :: rest).
Proof.
  intros Hfull Hmax Ha0 Ha1 Hm0 Hm1. cbv zeta. unfold __finalise_sg. cbn [fst snd].
  cbn [List.length finalise_loop].
  set (st1 := finalise_step _ _ 0 _).
  assert (Hd1 : fin_done (s0 :: rest) 1 st1).
  { apply fin_done_step with (s := s0); [apply fin_done_init | reflexivity]. }
  assert (Ho1 : fin_one a (s0 :: rest) 1 st1).
  { apply fin_one_first with (s0 := s0); try assumption; try reflexivity; split; assumption. }
  pose proof (fin_one_loop (dma_get_seg_boundary dev) (dma_get_max_seg_size dev) a
                (s0 :: rest) Hfull Hmax (conj Ha0 Ha1) (conj Hm0 Hm1)
                (List.length rest) 1 st1 ltac:(lia) Hd1 Ho1 ltac:(reflexivity))
    as [[_ Hcount] _ _ (e0 & He0 & Hea & Hel)].
  split; [exact Hcount|].
  rewrite take_ge in Hel by (cbn; lia).
  destruct (f_sg _) as [|e out]; [discriminate|].
  cbn in He0. injection He0 as ->. exists e0, out. repeat split; assumption.
Qed.

Lemma finalise_coalesces_witness :
  let sg := [mk_sg 5 0 4096 0 4096; mk_sg 6 0 8192 0 8192] in
  let r := __finalise_sg dev0 sg 4096 in
  fst r = 1 /\
  exists e0 out, snd r = e0 :: out /\
                 dma_address e0 = 4096 /\ dma_length e0 = sg_total sg.
Proof.
  apply (finalise_coalesces dev0 (mk_sg 5 0 4096 0 4096) [mk_sg 6 0 8192 0 8192] 4096).
  - repeat constructor.
  - vm_compute. discriminate.
  - lia.
  - vm_compute. reflexivity.
  - vm_compute. split; [discriminate | reflexivity].
  - vm_compute. discriminate.
Defined.

(** ** Mapping a buffer into user space *)

Section MmapProps.
Context (K : kconst)
        (vm_insert_page : vm_area_struct -> Z -> option Z -> Z * vm_area_struct).

Lemma mmap_loop_in_array (pages : page_array) count : 
  count < 2 ^ 32 -> count <= Z.of_nat (List.length pages) ->
  forall fuel i uaddr ret vma,
    0 <= i -> count - i <= Z.of_nat fuel ->
    exists r v, mmap_loop K vm_insert_page fuel pages count i uaddr ret vma = Mapped r v.
Proof.
  intros Hc Hlen. induction fuel as [|fuel IH]; intros i uaddr ret vma Hi Hfuel.
  - cbn [mmap_loop]. destruct (Z.ltb_spec i count); [lia|]. cbn. eauto.
  - cbn [mmap_loop]. destruct (Z.ltb_spec i count) as [Hlt|]; [|cbn; eauto].
    cbn [andb]. destruct (uaddr <? vm_end vma); [|eauto].
    destruct (lookup_lt_is_Some_2 pages (Z.to_nat i) ltac:(lia)) as [pg ->].
    destruct (vm_insert_page vma uaddr pg) as [ret' vma'].
    destruct (ret' =? 0); [|eauto].
    rewrite u32_id by lia. apply IH; lia.
Qed.

(** X15: [iommu_dma_mmap] never reads past the page array and always
    returns, whatever [vm_insert_page] does, provided the array has the
    [PAGE_ALIGN(size) >> PAGE_SHIFT] entries that [iommu_dma_alloc] gave
    it. *)
Theorem mmap_reads_within_array (pages : page_array) size vma :
  u32 (Z.shiftr (PAGE_ALIGN K size) (PAGE_SHIFT K)) <= Z.of_nat (List.length pages) ->
  exists r v, iommu_dma_mmap K vm_insert_page pages size vma = Mapped r v.
Proof.
  intros Hlen. unfold iommu_dma_mmap. cbv zeta.
  pose proof (u32_range (Z.shiftr (PAGE_ALIGN K size) (PAGE_SHIFT K))) as Hc.
  pose proof (u32_range (vm_pgoff vma)) as Hi.
  apply mmap_loop_in_array; lia.
Qed.

Hypothesis Hok : forall v a p, vm_insert_page v a p = vm_insert_page_ok v a p.

Lemma mmap_window_S (pages : page_array) i uaddr n pg :
  pages !! i = Some pg ->
  mmap_window K pages i uaddr (S n)
  = (uaddr, pg) :: mmap_window K pages (S i) (uaddr + PAGE_SIZE K) n.
Proof.
  intros Hpg. unfold mmap_window.
  rewrite (drop_S _ _ _ Hpg). cbn [take]. rewrite imap_cons. f_equal.
  - f_equal. lia.
  - apply imap_ext. intros j x _. cbn. f_equal. lia.
Qed.

Lemma mmap_loop_window (pages : page_array) count s e po :
  0 < PAGE_SIZE K -> e + PAGE_SIZE K <= 2 ^ 64 ->
  count < 2 ^ 32 -> count <= Z.of_nat (List.length pages) ->
  forall fuel i uaddr ret ptes,
    0 <= i -> count - i <= Z.of_nat fuel -> 0 <= uaddr ->
    let n := Z.to_nat (Z.min (count - i)
                             ((e - uaddr + PAGE_SIZE K - 1) / PAGE_SIZE K)) in
    mmap_loop K vm_insert_page fuel pages count i uaddr ret (mk_vma s e po ptes)
    = Mapped (if (n =? 0)%nat then ret else 0)
             (mk_vma s e po (rev (mmap_window K pages (Z.to_nat i) uaddr n) ++ ptes)).
Proof.
  intros Hps He Hc Hlen.
  induction fuel as [|fuel IH]; intros i uaddr ret ptes Hi Hfuel Hu n; subst n.
  - cbn [mmap_loop]. destruct (Z.ltb_spec i count); [lia|]. cbn [andb].
    replace (Z.to_nat _) with 0%nat by lia. reflexivity.
  - cbn [mmap_loop vm_end].
    destruct (Z.ltb_spec i count) as [Hlt|];
      [|cbn [andb]; replace (Z.to_nat _) with 0%nat by lia; reflexivity].
    cbn [andb]. destruct (Z.ltb_spec uaddr e) as [Hue|Hue].
    2:{ assert ((e - uaddr + PAGE_SIZE K - 1) / PAGE_SIZE K < 1).
        { apply Z.div_lt_upper_bound; lia. }
        replace (Z.to_nat _) with 0%nat by lia. reflexivity. }
    assert (Hdiv : (e - uaddr + PAGE_SIZE K - 1) / PAGE_SIZE K
                   = (e - (uaddr + PAGE_SIZE K) + PAGE_SIZE K - 1) / PAGE_SIZE K + 1).
    { rewrite <- Z.div_add by lia. f_equal. lia. }
    assert (Hdiv0 : 0 <= (e - (uaddr + PAGE_SIZE K) + PAGE_SIZE K - 1) / PAGE_SIZE K).
    { apply Z.div_pos; lia. }
    destruct (lookup_lt_is_Some_2 pages (Z.to_nat i) ltac:(lia)) as [pg Hpg].
    rewrite Hpg, Hok. unfold vm_insert_page_ok.
    cbn [vm_start vm_end vm_pgoff vm_ptes Z.eqb].
    rewrite u32_id, u64_id by lia.
    rewrite (IH (i + 1) (uaddr + PAGE_SIZE K) 0 ((uaddr, pg) :: ptes)) by lia.
    replace (Z.to_nat (Z.min (count - i) _))
      with (S (Z.to_nat (Z.min (count - (i + 1))
                 ((e - (uaddr + PAGE_SIZE K) + PAGE_SIZE K - 1) / PAGE_SIZE K))))
      by lia.
    rewrite (mmap_window_S pages (Z.to_nat i) uaddr _ pg Hpg).
    replace (Z.to_nat (i + 1)) with (S (Z.to_nat i)) by lia.
    cbn [rev Nat.eqb]. rewrite <- app_assoc. cbn [app].
    f_equal. destruct (_ =? _)%nat; reflexivity.
Qed.

(** X16: when every [vm_insert_page] succeeds, [iommu_dma_mmap] maps the
    buffer's pages from index [vm_pgoff] on at consecutive page-sized
    steps from [vm_start], as many as the buffer has left and the user
    range has room for, and returns 0; when that number is zero it returns
    [-ENXIO] and maps nothing. *)
Theorem mmap_maps_window (pages : page_array) size vma :
  0 <= PAGE_SHIFT K -> 0 <= vm_start vma -> vm_end vma + PAGE_SIZE K <= 2 ^ 64 ->
  u32 (Z.shiftr (PAGE_ALIGN K size) (PAGE_SHIFT K)) <= Z.of_nat (List.length pages) ->
  let count := u32 (Z.shiftr (PAGE_ALIGN K size) (PAGE_SHIFT K)) in
  let i := u32 (vm_pgoff vma) in
  let n := Z.to_nat (Z.min (count - i)
             ((vm_end vma - vm_start vma + PAGE_SIZE K - 1) / PAGE_SIZE K)) in
  iommu_dma_mmap K vm_insert_page pages size vma
  = Mapped (if (n =? 0)%nat then - ENXIO else 0)
           (mk_vma (vm_start vma) (vm_end vma) (vm_pgoff vma)
                   (rev (mmap_window K pages (Z.to_nat i) (vm_start vma) n)
                    ++ vm_ptes vma)).
Proof.
  intros Hps Hs He Hlen count i n. unfold iommu_dma_mmap. cbv zeta.
  pose proof (u32_range (Z.shiftr (PAGE_ALIGN K size) (PAGE_SHIFT K))) as Hc.
  pose proof (u32_range (vm_pgoff vma)) as Hi.
  assert (Hpos : 0 < PAGE_SIZE K).
  { unfold PAGE_SIZE. rewrite Z.shiftl_1_l. apply Z.pow_pos_nonneg; lia. }
  destruct vma as [s e po ptes]. cbn [vm_start vm_end vm_pgoff vm_ptes] in *.
  apply mmap_loop_window; fold count; fold i; lia.
Qed.
End MmapProps.

Lemma mmap_reads_within_array_witness :
  exists r v,
    iommu_dma_mmap K4k vm_insert_page_ok [Some 1000; Some 1001] 8192
      (mk_vma 65536 73728 0 []) = Mapped r v.
Proof.
  apply (mmap_reads_within_array K4k vm_insert_page_ok [Some 1000; Some 1001] 8192
           (mk_vma 65536 73728 0 [])).
  vm_compute. discriminate.
Defined.

Lemma mmap_maps_window_witness :
  iommu_dma_mmap K4k vm_insert_page_ok [Some 1000; Some 1001; Some 1002] 12288
    (mk_vma 65536 73728 1 [])
  = Mapped 0 (mk_vma 65536 73728 1 [(69632, Some 1002); (65536, Some 1001)]).
Proof.
  apply (mmap_maps_window K4k vm_insert_page_ok ltac:(intros; reflexivity)
           [Some 1000; Some 1001; Some 1002] 12288 (mk_vma 65536 73728 1 [])).
  - vm_compute. discriminate.
  - vm_compute. discriminate.
  - vm_compute. discriminate.
  - vm_compute. discriminate.
Defined.
